(** * The batch processor of the chief-of-staff backend (processor.ts)

    A shallow embedding of [backend/src/processor.ts]: the record reader,
    the run status, the batch runner with its agent pipeline, the
    application of one batch's outputs to the people and topic indexes and
    to the logs, and the snapshot of the latest batch.

    Conventions of the embedding.
    - A module-level [let]/[const] of processor.ts is a field of [State];
      the record fields of the TypeScript types carry a short prefix, since
      several types share field names ([topic], [status], ...).
    - Counters are [nat]: they start at 0 and only grow by list lengths.
      Limits read from the environment are JavaScript numbers
      ([JsNumber]): they may be negative, fractional or infinite, and the
      code uses them as they are.
    - A JavaScript [Map] is an insertion-ordered association list
      ([JsMap]): [getPeople] and [getTopics] expose the iteration order.
    - An [async] function is cut at its [await]s: each segment is a
      function on [Machine], and [step] runs one segment per event.
    - An agent call is a function of the structured values its prompt is
      built from, returning a value or an error message ([Result]).
    - [new Date().toISOString()] reads [clock] at the number of reads made
      so far. *)

From Stdlib Require Import String Ascii Bool Arith ZArith QArith Qround Lia Lqa.
From Stdlib Require Import DecimalString List.
From Stdlib Require Import Sorted Permutation.
Import ListNotations.
Local Open Scope string_scope.
Local Open Scope nat_scope.
Local Open Scope list_scope.

(* ------------------------------------------------------------------ *)
(** ** Results of fallible calls *)

Inductive Result (A : Type) : Type :=
| Ok (a : A)
| Err (message : string).
Arguments Ok {A} a.
Arguments Err {A} message.

Definition bind {A B : Type} (r : Result A) (k : A -> Result B) : Result B :=
  match r with
  | Ok a => k a
  | Err e => Err e
  end.

Notation "x <- r ;; k" := (bind r (fun x => k))
  (at level 61, r at next level, right associativity).

(* ------------------------------------------------------------------ *)
(** ** types.ts *)

Definition Timestamp := string.

Record EmailRecord := {
  er_file : string;
  er_message : string
}.

Inductive Phase := idle | running | completed | error.

Record ProcessingStatus := {
  ps_status : Phase;
  startedAt : option Timestamp;
  completedAt : option Timestamp;
  lastBatchAt : option Timestamp;
  queued : nat;
  processed : nat;
  results : nat;
  errors : nat;
  batches : nat;
  message : option string
}.

Record PersonIndexEntry := {
  email : string;
  name : option string;
  inferredRole : option string;
  messageCount : nat;
  topics : list string
}.

Record TopicIndexEntry := {
  topic : string;
  latestSummary : string;
  confidence : Q;
  isNew : bool;
  isConflicting : bool;
  lastUpdatedAt : Timestamp
}.

Record Conflict := {
  c_topic : string;
  c_description : string
}.

Inductive Intent := inform | propose | debate.

Record InformationFlow := {
  if_from : string;
  if_to : string;
  if_topic : string;
  if_intent : Intent
}.

Record IngestionOutput := {
  io_from : string;
  io_to : list string;
  io_timestamp : string;
  io_body : string
}.

Record RunAgents := {
  ra_knowledge : bool;
  ra_stakeholder : bool;
  ra_memory : bool;
  ra_critic : bool
}.

Record TriageOutput := {
  runAgents : RunAgents;
  reasoning : string
}.

Record KnowledgeOutput := {
  ko_topics : list string;
  ko_decisions : list string;
  ko_facts : list string
}.

Inductive Level := low | medium | high.

Record Stakeholder := {
  sh_email : string;
  sh_importance : Level;
  sh_reason : string
}.

Record StakeholderOutput := {
  stakeholders : list Stakeholder
}.

Inductive ChangeType := ct_new | ct_update | ct_conflict.

Record MemoryUpdate := {
  mu_topic : string;
  changeType : ChangeType;
  mu_summary : string
}.

Record MemoryOutput := {
  updates : list MemoryUpdate
}.

Record CriticConflict := {
  cc_topic : string;
  cc_description : string;
  cc_severity : Level
}.

Record CriticOutput := {
  co_conflicts : list CriticConflict
}.

Record CoordinatorOutput := {
  executiveBrief : string;
  notify : list string;
  priorityItems : list string
}.

Inductive AgentName :=
| Ingestion | Triage | Knowledge | StakeholderAgent | Memory | Critic | Coordinator.

Inductive AgentStatus := ran | skipped | conflict.

(** The [output?: unknown] payload of an [AgentRunInfo]. *)
Inductive AgentPayload :=
| IngestionSample (sample : string) (count : nat)
| TriagePayload (t : TriageOutput)
| KnowledgePayload (k : KnowledgeOutput)
| StakeholderPayload (s : StakeholderOutput)
| MemoryPayload (m : MemoryOutput)
| CriticPayload (c : CriticOutput)
| CoordinatorPayload (c : CoordinatorOutput).

Record AgentRunInfo := {
  ari_name : AgentName;
  ari_status : AgentStatus;
  ari_reason : option string;
  ari_timestamp : Timestamp;
  ari_output : AgentPayload;
  ari_explanation : string
}.

Record ReasoningTimelineItem := {
  ti_timestamp : Timestamp;
  ti_label : string;
  ti_detail : string
}.

Record AgentRunSnapshot := {
  snap_batchNumber : nat;
  agents : list AgentRunInfo;
  triageReasoning : string;
  selectedAgents : list string;
  skippedAgents : list string;
  timeline : list ReasoningTimelineItem
}.

(** The string a stakeholder's importance is stored as. *)
Definition levelString (l : Level) : string :=
  match l with
  | low => "low"
  | medium => "medium"
  | high => "high"
  end.

(* ------------------------------------------------------------------ *)
(** ** JavaScript [Map] with string keys, in insertion order *)

Definition JsMap (V : Type) := list (string * V).

Fixpoint Map_get {V : Type} (k : string) (m : JsMap V) : option V :=
  match m with
  | [] => None
  | (k', v) :: m' => if String.eqb k' k then Some v else Map_get k m'
  end.

Definition Map_has {V : Type} (k : string) (m : JsMap V) : bool :=
  match Map_get k m with
  | Some _ => true
  | None => false
  end.

(** [set] keeps the position of an existing key and appends a new one. *)
Fixpoint Map_set {V : Type} (k : string) (v : V) (m : JsMap V) : JsMap V :=
  match m with
  | [] => [(k, v)]
  | (k', v') :: m' =>
      if String.eqb k' k then (k, v) :: m' else (k', v') :: Map_set k v m'
  end.

Definition Map_values {V : Type} (m : JsMap V) : list V := map snd m.

(* ------------------------------------------------------------------ *)
(** ** Configuration read from the environment *)

(** A JavaScript number other than NaN: a finite value or an infinity.
    Every finite double is a rational, so finite values are taken in [Q];
    [Number("2.5")] is [Finite 2.5], [Number("Infinity")] is
    [PosInfinity].  NaN never reaches a limit: [||] replaces it by the
    default, and the limits are the only numbers the processor reads. *)
Inductive JsNumber :=
| Finite (q : Q)
| PosInfinity
| NegInfinity.

(** [n < x] and [n >= x] for an array length [n]. *)
Definition lengthBelow (n : nat) (x : JsNumber) : bool :=
  match x with
  | Finite q => negb (Qle_bool q (inject_Z (Z.of_nat n)))
  | PosInfinity => true
  | NegInfinity => false
  end.

Definition lengthReaches (n : nat) (x : JsNumber) : bool :=
  match x with
  | Finite q => Qle_bool q (inject_Z (Z.of_nat n))
  | PosInfinity => false
  | NegInfinity => true
  end.

(** ToIntegerOrInfinity on a finite value: the fraction is dropped. *)
Definition truncate (q : Q) : Z :=
  if Qle_bool 0 q then Qfloor q else Qceiling q.

(** The number of elements [splice(0, x)] removes from an array of length
    [len]: ToIntegerOrInfinity of [x], clamped between 0 and [len]. *)
Definition deleteCount (x : JsNumber) (len : nat) : nat :=
  match x with
  | Finite q => Nat.min (Z.to_nat (Z.max 0 (truncate q))) len
  | PosInfinity => len
  | NegInfinity => 0
  end.

(** What [Number(process.env.X ?? dflt)] sees: the variable is unset, is
    not a number, or is a number. *)
Inductive EnvVar :=
| Unset
| NotANumber
| Num (x : JsNumber).

(** [Number(process.env.X ?? "d") || d]: unset, NaN and 0 give [d]; every
    other number, also a negative, a fractional or an infinite one, is
    taken as it is. *)
Definition envNumber (v : EnvVar) (d : Z) : JsNumber :=
  match v with
  | Unset => Finite (inject_Z d)
  | NotANumber => Finite (inject_Z d)
  | Num (Finite q) => if Qeq_bool q 0 then Finite (inject_Z d) else Finite q
  | Num x => x
  end.

Record Env := {
  env_CSV_RECORD_LIMIT : EnvVar;
  env_BATCH_SIZE : EnvVar;
  clock : nat -> Timestamp
}.

Definition RECORD_LIMIT (E : Env) : JsNumber :=
  envNumber (env_CSV_RECORD_LIMIT E) 100.
Definition BATCH_SIZE (E : Env) : JsNumber := envNumber (env_BATCH_SIZE E) 10.

(* ------------------------------------------------------------------ *)
(** ** readFirstNRecords

    The promise body registers handlers on the file stream and on the CSV
    parser.  The embedding folds the handlers over the events the two
    emitters deliver, in delivery order. *)

Inductive StreamEvent :=
| StreamError (e : string)
| ParserData (file message : option string)
| ParserEnd
| StreamClose
| ParserError (e : string).

Inductive Settled :=
| Pending
| Resolved (rs : list EmailRecord)
| Rejected (e : string).

Record Reader := {
  rd_results : list EmailRecord;
  rd_resolved : bool;
  rd_listening : bool;   (* false once [cleanup] removed the listeners *)
  rd_destroyed : bool;   (* [stream.destroy()] was called *)
  rd_promise : Settled
}.

Definition readerInit : Reader :=
  {| rd_results := []; rd_resolved := false; rd_listening := true;
     rd_destroyed := false; rd_promise := Pending |}.

(** [resolve]/[reject] settle a promise once; later calls do nothing. *)
Definition settle (p new : Settled) : Settled :=
  match p with
  | Pending => new
  | _ => p
  end.

Definition orEmpty (s : option string) : string :=
  match s with
  | Some x => x
  | None => ""
  end.

Definition onData (limit : JsNumber) (file msg : option string) (r : Reader)
  : Reader :=
  let results1 :=
    if lengthBelow (length (rd_results r)) limit
    then rd_results r ++ [{| er_file := orEmpty file; er_message := orEmpty msg |}]
    else rd_results r in
  let destroyed1 :=
    if lengthReaches (length results1) limit then true else rd_destroyed r in
  {| rd_results := results1; rd_resolved := rd_resolved r;
     rd_listening := rd_listening r; rd_destroyed := destroyed1;
     rd_promise := rd_promise r |}.

Definition finalize (r : Reader) : Reader :=
  if rd_resolved r then r
  else {| rd_results := rd_results r; rd_resolved := true;
          rd_listening := false; rd_destroyed := rd_destroyed r;
          rd_promise := settle (rd_promise r) (Resolved (rd_results r)) |}.

Definition onParserError (e : string) (r : Reader) : Reader :=
  {| rd_results := rd_results r; rd_resolved := rd_resolved r;
     rd_listening := false; rd_destroyed := rd_destroyed r;
     rd_promise := settle (rd_promise r) (Rejected e) |}.

Definition onStreamError (e : string) (r : Reader) : Reader :=
  {| rd_results := rd_results r; rd_resolved := rd_resolved r;
     rd_listening := rd_listening r; rd_destroyed := rd_destroyed r;
     rd_promise := settle (rd_promise r) (Rejected e) |}.

Definition deliver (limit : JsNumber) (r : Reader) (ev : StreamEvent) : Reader :=
  if rd_listening r then
    match ev with
    | StreamError e => onStreamError e r
    | ParserData f m => onData limit f m r
    | ParserEnd => finalize r
    | StreamClose => finalize r
    | ParserError e => onParserError e r
    end
  else r.

Definition readFirstNRecords (events : list StreamEvent) (limit : JsNumber)
  : Settled :=
  rd_promise (fold_left (deliver limit) events readerInit).

(** The number of rows a reader with this limit keeps: the limit rounded
    up, 0 for a limit that is not positive, no bound ([None]) for
    [Infinity]. *)
Definition rowsKept (limit : JsNumber) : option nat :=
  match limit with
  | Finite q => Some (Z.to_nat (Qceiling q))
  | PosInfinity => None
  | NegInfinity => Some 0
  end.

(** The first [c] elements of [l], all of them without a bound. *)
Definition upTo {A : Type} (c : option nat) (l : list A) : list A :=
  match c with
  | Some n => firstn n l
  | None => l
  end.



(** A parsed row: its [file] and [message] columns, when it has them. *)
Definition RawRow := (option string * option string)%type.

Definition rawEvent (row : RawRow) : StreamEvent :=
  ParserData (fst row) (snd row).

(** The record [onData] pushes for a row. *)
Definition recordOf (row : RawRow) : EmailRecord :=
  {| er_file := orEmpty (fst row); er_message := orEmpty (snd row) |}.

(** The row a record comes from when both columns are present. *)
Definition rowEvent (rec : EmailRecord) : StreamEvent :=
  ParserData (Some (er_file rec)) (Some (er_message rec)).

(* ------------------------------------------------------------------ *)
(** ** Module state of processor.ts *)

Record State := {
  status : ProcessingStatus;
  queue : list EmailRecord;
  knowledgeUpdates : list MemoryUpdate;
  informationFlow : list InformationFlow;
  conflicts : list Conflict;
  decisionLog : list string;
  recommendations : option CoordinatorOutput;
  latestAgentSnapshot : option AgentRunSnapshot;
  peopleIndex : JsMap PersonIndexEntry;
  topicIndex : JsMap TopicIndexEntry;
  batchTimer : bool;        (* [batchTimer !== null] *)
  batchInProgress : bool;
  clockReads : nat          (* reads of the wall clock made so far *)
}.

Definition idleStatus : ProcessingStatus :=
  {| ps_status := idle; startedAt := None; completedAt := None;
     lastBatchAt := None; queued := 0; processed := 0; results := 0;
     errors := 0; batches := 0; message := None |}.

(** The state the module is loaded with. *)
Definition initialState : State :=
  {| status := idleStatus; queue := []; knowledgeUpdates := [];
     informationFlow := []; conflicts := []; decisionLog := [];
     recommendations := None; latestAgentSnapshot := None;
     peopleIndex := []; topicIndex := [];
     batchTimer := false; batchInProgress := false; clockReads := 0 |}.

Definition resetState (st : State) : State :=
  {| status := idleStatus; queue := []; knowledgeUpdates := [];
     informationFlow := []; conflicts := []; decisionLog := [];
     recommendations := None; latestAgentSnapshot := None;
     peopleIndex := []; topicIndex := [];
     batchTimer := batchTimer st; batchInProgress := batchInProgress st;
     clockReads := clockReads st |}.

Definition getStatus (st : State) : ProcessingStatus := status st.

(** Stable insertion into a list sorted by descending [messageCount]:
    [x] came before every element of [l] in the unsorted list. *)
Fixpoint insertByCount (x : PersonIndexEntry) (l : list PersonIndexEntry)
  : list PersonIndexEntry :=
  match l with
  | [] => [x]
  | y :: l' =>
      if messageCount x <? messageCount y then y :: insertByCount x l'
      else x :: y :: l'
  end.

(** [Array.prototype.sort] with [(a, b) => b.messageCount - a.messageCount]
    (a stable sort). *)
Definition sortByCount (l : list PersonIndexEntry) : list PersonIndexEntry :=
  fold_right insertByCount [] l.

Definition getPeople (st : State) : list PersonIndexEntry :=
  sortByCount (Map_values (peopleIndex st)).

Definition getTopics (st : State) : list TopicIndexEntry :=
  Map_values (topicIndex st).

Definition getConflicts (st : State) : list Conflict := conflicts st.

Definition getLatestAgentRuns (st : State) : option AgentRunSnapshot :=
  latestAgentSnapshot st.

Definition stopBatches (st : State) : State :=
  {| status := status st; queue := queue st;
     knowledgeUpdates := knowledgeUpdates st;
     informationFlow := informationFlow st; conflicts := conflicts st;
     decisionLog := decisionLog st; recommendations := recommendations st;
     latestAgentSnapshot := latestAgentSnapshot st;
     peopleIndex := peopleIndex st; topicIndex := topicIndex st;
     batchTimer := false; batchInProgress := batchInProgress st;
     clockReads := clockReads st |}.

(** [stopBatches(); batchTimer = setInterval(...)]. *)
Definition scheduleBatches (st : State) : State :=
  {| status := status st; queue := queue st;
     knowledgeUpdates := knowledgeUpdates st;
     informationFlow := informationFlow st; conflicts := conflicts st;
     decisionLog := decisionLog st; recommendations := recommendations st;
     latestAgentSnapshot := latestAgentSnapshot st;
     peopleIndex := peopleIndex st; topicIndex := topicIndex st;
     batchTimer := true; batchInProgress := batchInProgress st;
     clockReads := clockReads st |}.

Definition withStatus (s : ProcessingStatus) (st : State) : State :=
  {| status := s; queue := queue st;
     knowledgeUpdates := knowledgeUpdates st;
     informationFlow := informationFlow st; conflicts := conflicts st;
     decisionLog := decisionLog st; recommendations := recommendations st;
     latestAgentSnapshot := latestAgentSnapshot st;
     peopleIndex := peopleIndex st; topicIndex := topicIndex st;
     batchTimer := batchTimer st; batchInProgress := batchInProgress st;
     clockReads := clockReads st |}.

Definition withInProgress (b : bool) (st : State) : State :=
  {| status := status st; queue := queue st;
     knowledgeUpdates := knowledgeUpdates st;
     informationFlow := informationFlow st; conflicts := conflicts st;
     decisionLog := decisionLog st; recommendations := recommendations st;
     latestAgentSnapshot := latestAgentSnapshot st;
     peopleIndex := peopleIndex st; topicIndex := topicIndex st;
     batchTimer := batchTimer st; batchInProgress := b;
     clockReads := clockReads st |}.

Definition withQueue (q : list EmailRecord) (st : State) : State :=
  {| status := status st; queue := q;
     knowledgeUpdates := knowledgeUpdates st;
     informationFlow := informationFlow st; conflicts := conflicts st;
     decisionLog := decisionLog st; recommendations := recommendations st;
     latestAgentSnapshot := latestAgentSnapshot st;
     peopleIndex := peopleIndex st; topicIndex := topicIndex st;
     batchTimer := batchTimer st; batchInProgress := batchInProgress st;
     clockReads := clockReads st |}.

Definition withSnapshot (s : AgentRunSnapshot) (st : State) : State :=
  {| status := status st; queue := queue st;
     knowledgeUpdates := knowledgeUpdates st;
     informationFlow := informationFlow st; conflicts := conflicts st;
     decisionLog := decisionLog st; recommendations := recommendations st;
     latestAgentSnapshot := Some s;
     peopleIndex := peopleIndex st; topicIndex := topicIndex st;
     batchTimer := batchTimer st; batchInProgress := batchInProgress st;
     clockReads := clockReads st |}.

(** [new Date().toISOString()]: the reading, and the state after it. *)
Definition now (E : Env) (st : State) : Timestamp := clock E (clockReads st).

Definition tickClock (st : State) : State :=
  {| status := status st; queue := queue st;
     knowledgeUpdates := knowledgeUpdates st;
     informationFlow := informationFlow st; conflicts := conflicts st;
     decisionLog := decisionLog st; recommendations := recommendations st;
     latestAgentSnapshot := latestAgentSnapshot st;
     peopleIndex := peopleIndex st; topicIndex := topicIndex st;
     batchTimer := batchTimer st; batchInProgress := batchInProgress st;
     clockReads := S (clockReads st) |}.

(* ------------------------------------------------------------------ *)
(** ** applyOutputs, loop by loop *)

Definition participants (entry : IngestionOutput) : list string :=
  io_from entry :: io_to entry.

(** Body of the inner loop over [participants]; [if (!email) continue]
    skips the empty string. *)
Definition countParticipant (idx : JsMap PersonIndexEntry) (addr : string)
  : JsMap PersonIndexEntry :=
  if String.eqb addr "" then idx
  else
    match Map_get addr idx with
    | None =>
        Map_set addr
          {| email := addr; name := None; inferredRole := None;
             messageCount := 1; topics := [] |} idx
    | Some existing =>
        Map_set addr
          {| email := email existing; name := name existing;
             inferredRole := inferredRole existing;
             messageCount := messageCount existing + 1;
             topics := topics existing |} idx
    end.

Definition countMessage (idx : JsMap PersonIndexEntry) (entry : IngestionOutput)
  : JsMap PersonIndexEntry :=
  fold_left countParticipant (participants entry) idx.

Definition applyIngestion (outs : list IngestionOutput)
  (idx : JsMap PersonIndexEntry) : JsMap PersonIndexEntry :=
  fold_left countMessage outs idx.

Definition applyStakeholder (idx : JsMap PersonIndexEntry) (s : Stakeholder)
  : JsMap PersonIndexEntry :=
  match Map_get (sh_email s) idx with
  | None =>
      Map_set (sh_email s)
        {| email := sh_email s; name := None;
           inferredRole := Some (levelString (sh_importance s));
           messageCount := 0; topics := [] |} idx
  | Some existing =>
      Map_set (sh_email s)
        {| email := email existing; name := name existing;
           inferredRole := Some (levelString (sh_importance s));
           messageCount := messageCount existing;
           topics := topics existing |} idx
  end.

Definition applyStakeholders (ss : list Stakeholder)
  (idx : JsMap PersonIndexEntry) : JsMap PersonIndexEntry :=
  fold_left applyStakeholder ss idx.

(** The topic index together with the number of clock reads. *)
Definition TopicAcc := (JsMap TopicIndexEntry * nat)%type.

Definition addTopic (E : Env) (acc : TopicAcc) (t : string) : TopicAcc :=
  if Map_has t (fst acc) then acc
  else
    (Map_set t
       {| topic := t; latestSummary := "Awaiting memory classification.";
          confidence := 0.5%Q; isNew := true; isConflicting := false;
          lastUpdatedAt := clock E (snd acc) |} (fst acc),
     S (snd acc)).

Definition applyTopics (E : Env) (ts : list string) (acc : TopicAcc) : TopicAcc :=
  fold_left (addTopic E) ts acc.

Definition confidenceOf (c : ChangeType) : Q :=
  match c with
  | ct_conflict => 0.4%Q
  | ct_new => 0.75%Q
  | ct_update => 0.6%Q
  end.

Definition isConflictChange (c : ChangeType) : bool :=
  match c with ct_conflict => true | _ => false end.

Definition isNewChange (c : ChangeType) : bool :=
  match c with ct_new => true | _ => false end.

(** The [TopicIndexEntry] the memory loop builds for [update]. *)
Definition memoryEntry (u : MemoryUpdate) (t : Timestamp) : TopicIndexEntry :=
  {| topic := mu_topic u; latestSummary := mu_summary u;
     confidence := confidenceOf (changeType u);
     isNew := isNewChange (changeType u);
     isConflicting := isConflictChange (changeType u);
     lastUpdatedAt := t |}.

(** Topic index, clock reads, and the knowledge-update log. *)
Definition MemoryAcc := (TopicAcc * list MemoryUpdate)%type.

Definition applyMemoryUpdate (E : Env) (acc : MemoryAcc) (u : MemoryUpdate)
  : MemoryAcc :=
  let idx := fst (fst acc) in
  let reads := snd (fst acc) in
  ((Map_set (mu_topic u) (memoryEntry u (clock E reads)) idx, S reads),
   u :: snd acc).

Definition applyMemory (E : Env) (us : list MemoryUpdate) (acc : MemoryAcc)
  : MemoryAcc :=
  fold_left (applyMemoryUpdate E) us acc.

Definition markConflicting (e : TopicIndexEntry) : TopicIndexEntry :=
  {| topic := topic e; latestSummary := latestSummary e;
     confidence := confidence e; isNew := isNew e; isConflicting := true;
     lastUpdatedAt := lastUpdatedAt e |}.

(** The conflict log and the topic index. *)
Definition ConflictAcc := (list Conflict * JsMap TopicIndexEntry)%type.

Definition applyConflict (acc : ConflictAcc) (c : CriticConflict) : ConflictAcc :=
  let log := {| c_topic := cc_topic c; c_description := cc_description c |}
               :: fst acc in
  match Map_get (cc_topic c) (snd acc) with
  | Some existingTopic =>
      (log, Map_set (cc_topic c) (markConflicting existingTopic) (snd acc))
  | None => (log, snd acc)
  end.

Definition applyConflicts (cs : list CriticConflict) (acc : ConflictAcc)
  : ConflictAcc :=
  fold_left applyConflict cs acc.

(** [knowledge.topics[0] ?? "general"]. *)
Definition firstTopic (k : KnowledgeOutput) : string :=
  match ko_topics k with
  | t :: _ => t
  | [] => "general"
  end.

Definition flowEdges (outs : list IngestionOutput) (k : KnowledgeOutput)
  : list InformationFlow :=
  flat_map
    (fun entry =>
       map (fun recipient =>
              {| if_from := io_from entry; if_to := recipient;
                 if_topic := firstTopic k; if_intent := inform |})
           (io_to entry))
    outs.

Definition applyOutputs (E : Env) (batchNumber : nat)
  (ingestionOutputs : list IngestionOutput) (knowledge : KnowledgeOutput)
  (stakeholder : StakeholderOutput) (memory : MemoryOutput)
  (critic : CriticOutput) (coordinator : CoordinatorOutput) (st : State)
  : State :=
  let people :=
    applyStakeholders (stakeholders stakeholder)
      (applyIngestion ingestionOutputs (peopleIndex st)) in
  let afterTopics :=
    applyTopics E (ko_topics knowledge) (topicIndex st, clockReads st) in
  let afterMemory :=
    applyMemory E (updates memory) (afterTopics, knowledgeUpdates st) in
  let afterCritic :=
    applyConflicts (co_conflicts critic)
      (conflicts st, fst (fst afterMemory)) in
  {| status := status st; queue := queue st;
     knowledgeUpdates := snd afterMemory;
     informationFlow := flowEdges ingestionOutputs knowledge ++ informationFlow st;
     conflicts := fst afterCritic;
     decisionLog := ko_decisions knowledge ++ decisionLog st;
     recommendations := Some coordinator;
     latestAgentSnapshot := latestAgentSnapshot st;
     peopleIndex := people; topicIndex := snd afterCritic;
     batchTimer := batchTimer st; batchInProgress := batchInProgress st;
     clockReads := snd (fst afterMemory) |}.

(* ------------------------------------------------------------------ *)
(** ** buildAgentSnapshot *)

Definition showNat (n : nat) : string := NilEmpty.string_of_uint (Nat.to_uint n).

(** [xs.join(", ") || "none"]. *)
Definition joinOrNone (xs : list string) : string :=
  let joined := String.concat ", " xs in
  if String.eqb joined "" then "none" else joined.

Definition includes (x : string) (xs : list string) : bool :=
  existsb (String.eqb x) xs.

Definition stageStatus (selected : list string) (stage : string) : AgentStatus :=
  if includes stage selected then ran else skipped.

Definition stageReason (selected : list string) (stage : string) : option string :=
  Some (if includes stage selected then "Selected by triage" else "Skipped by triage").

Definition criticStatus (selected : list string) (critic : CriticOutput)
  : AgentStatus :=
  if includes "critic" selected
  then (if 0 <? length (co_conflicts critic) then conflict else ran)
  else skipped.

Definition buildTimeline (timestamp : Timestamp) (selected : list string)
  (knowledge : KnowledgeOutput) (memory : MemoryOutput) (critic : CriticOutput)
  (coordinator : CoordinatorOutput) : list ReasoningTimelineItem :=
  [ {| ti_timestamp := timestamp; ti_label := "Triage";
       ti_detail := "Selected agents: " ++ joinOrNone selected |} ]
  ++ (if (0 <? length (ko_topics knowledge)) || (0 <? length (ko_decisions knowledge))
      then [ {| ti_timestamp := timestamp; ti_label := "Knowledge";
                ti_detail := "Detected " ++ showNat (length (ko_topics knowledge))
                  ++ " topics and " ++ showNat (length (ko_decisions knowledge))
                  ++ " decisions" |} ]
      else [])
  ++ (if 0 <? length (updates memory)
      then [ {| ti_timestamp := timestamp; ti_label := "Memory";
                ti_detail := "Classified " ++ showNat (length (updates memory))
                  ++ " knowledge updates" |} ]
      else [])
  ++ (if 0 <? length (co_conflicts critic)
      then [ {| ti_timestamp := timestamp; ti_label := "Critic";
                ti_detail := "Flagged " ++ showNat (length (co_conflicts critic))
                  ++ " conflicts" |} ]
      else [])
  ++ [ {| ti_timestamp := timestamp; ti_label := "Coordinator";
          ti_detail := "Prepared executive brief and "
            ++ showNat (length (priorityItems coordinator))
            ++ " priority items" |} ].

Definition buildAgents (batchNumber : nat) (timestamp : Timestamp)
  (triageReasoning : string) (selected : list string)
  (knowledge : KnowledgeOutput) (stakeholder : StakeholderOutput)
  (memory : MemoryOutput) (critic : CriticOutput)
  (coordinator : CoordinatorOutput) : list AgentRunInfo :=
  [ {| ari_name := Ingestion; ari_status := ran; ari_reason := None;
       ari_timestamp := timestamp;
       ari_output := IngestionSample "Parsed email metadata" batchNumber;
       ari_explanation :=
         "Parsed raw emails into sender, recipients, timestamp, and clean body." |};
    {| ari_name := Triage; ari_status := ran;
       ari_reason := Some triageReasoning; ari_timestamp := timestamp;
       ari_output :=
         TriagePayload
           {| runAgents :=
                {| ra_knowledge := includes "knowledge" selected;
                   ra_stakeholder := includes "stakeholder" selected;
                   ra_memory := includes "memory" selected;
                   ra_critic := includes "critic" selected |};
              reasoning := triageReasoning |};
       ari_explanation :=
         "Decided which specialist agents were needed to reduce noise." |};
    {| ari_name := Knowledge; ari_status := stageStatus selected "knowledge";
       ari_reason := stageReason selected "knowledge";
       ari_timestamp := timestamp; ari_output := KnowledgePayload knowledge;
       ari_explanation :=
         "Extracted topics, decisions, and factual statements." |};
    {| ari_name := StakeholderAgent;
       ari_status := stageStatus selected "stakeholder";
       ari_reason := stageReason selected "stakeholder";
       ari_timestamp := timestamp; ari_output := StakeholderPayload stakeholder;
       ari_explanation :=
         "Inferred stakeholder importance and dependencies." |};
    {| ari_name := Memory; ari_status := stageStatus selected "memory";
       ari_reason := stageReason selected "memory";
       ari_timestamp := timestamp; ari_output := MemoryPayload memory;
       ari_explanation :=
         "Classified new, updated, and conflicting knowledge over time." |};
    {| ari_name := Critic; ari_status := criticStatus selected critic;
       ari_reason := stageReason selected "critic";
       ari_timestamp := timestamp; ari_output := CriticPayload critic;
       ari_explanation :=
         "Audited outputs for contradictions and overload." |};
    {| ari_name := Coordinator; ari_status := ran; ari_reason := None;
       ari_timestamp := timestamp; ari_output := CoordinatorPayload coordinator;
       ari_explanation :=
         "Synthesized outputs into an executive brief and priority actions." |} ].

Definition buildAgentSnapshot (batchNumber : nat) (timestamp : Timestamp)
  (triageReasoning : string) (selected skippedList : list string)
  (knowledge : KnowledgeOutput) (stakeholder : StakeholderOutput)
  (memory : MemoryOutput) (critic : CriticOutput)
  (coordinator : CoordinatorOutput) : AgentRunSnapshot :=
  {| snap_batchNumber := batchNumber;
     agents := buildAgents batchNumber timestamp triageReasoning selected
                 knowledge stakeholder memory critic coordinator;
     triageReasoning := triageReasoning;
     selectedAgents := selected;
     skippedAgents := skippedList;
     timeline := buildTimeline timestamp selected knowledge memory critic
                   coordinator |}.

(** The status the snapshot lists for the agent called [n]. *)
Definition snapshotStatus (n : AgentName) (s : AgentRunSnapshot)
  : option AgentStatus :=
  let sameName (a : AgentRunInfo) :=
    match ari_name a, n with
    | Ingestion, Ingestion | Triage, Triage | Knowledge, Knowledge
    | StakeholderAgent, StakeholderAgent | Memory, Memory
    | Critic, Critic | Coordinator, Coordinator => true
    | _, _ => false
    end in
  option_map ari_status (find sameName (agents s)).

(* ------------------------------------------------------------------ *)
(** ** The agents (agent.ts), as seen from runBatch

    Each [run...Agent] sends a prompt built from the listed values, and
    throws when the call fails or when the answer does not pass the zod
    schema ([parseOutput]); both are [Err]. *)

Record Capabilities := {
  runIngestionAgent : EmailRecord -> nat -> nat -> Result IngestionOutput;
  runTriageAgent : list IngestionOutput -> nat -> Result TriageOutput;
  runKnowledgeAgent : list IngestionOutput -> nat -> Result KnowledgeOutput;
  runStakeholderAgent : list IngestionOutput -> nat -> Result StakeholderOutput;
  runMemoryAgent :
    list TopicIndexEntry -> list string -> nat -> Result MemoryOutput;
  runCriticAgent :
    KnowledgeOutput -> StakeholderOutput -> MemoryOutput -> nat
    -> Result CriticOutput;
  runCoordinatorAgent :
    KnowledgeOutput -> StakeholderOutput -> MemoryOutput -> CriticOutput
    -> TriageOutput -> nat -> Result CoordinatorOutput
}.

(** [Object.entries(selected)] in the key order of the triage schema. *)
Definition entries (selected : RunAgents) : list (string * bool) :=
  [ ("knowledge", ra_knowledge selected);
    ("stakeholder", ra_stakeholder selected);
    ("memory", ra_memory selected);
    ("critic", ra_critic selected) ].

Definition selectedListOf (selected : RunAgents) : list string :=
  map fst (filter (fun e => snd e) (entries selected)).

Definition skippedListOf (selected : RunAgents) : list string :=
  map fst (filter (fun e => negb (snd e)) (entries selected)).

Definition emptyKnowledge : KnowledgeOutput :=
  {| ko_topics := []; ko_decisions := []; ko_facts := [] |}.
Definition emptyStakeholder : StakeholderOutput := {| stakeholders := [] |}.
Definition emptyMemory : MemoryOutput := {| updates := [] |}.
Definition emptyCritic : CriticOutput := {| co_conflicts := [] |}.

(** The sequential ingestion loop; [index] is the position in the batch. *)
Fixpoint ingestAll (caps : Capabilities) (batchNumber index : nat)
  (batch : list EmailRecord) : Result (list IngestionOutput) :=
  match batch with
  | [] => Ok []
  | record :: rest =>
      o <- runIngestionAgent caps record batchNumber index ;;
      os <- ingestAll caps batchNumber (S index) rest ;;
      Ok (o :: os)
  end.

(** An entry of [resultMap]: set only when the agent was selected. *)
Definition runIfSelected {A : Type} (selected : bool) (call : Result A)
  : Result (option A) :=
  if selected then (o <- call ;; Ok (Some o)) else Ok None.

(** [x ?? d]. *)
Definition orDefault {A : Type} (x : option A) (d : A) : A :=
  match x with
  | Some a => a
  | None => d
  end.

(** What the [try] block of runBatch has in hand when it reaches
    [applyOutputs]. *)
Record PipelineOutput := {
  po_ingestionOutputs : list IngestionOutput;
  po_triage : TriageOutput;
  po_knowledge : KnowledgeOutput;
  po_stakeholder : StakeholderOutput;
  po_memory : MemoryOutput;
  po_critic : CriticOutput;
  po_coordinator : CoordinatorOutput
}.

(** The agent calls of the [try] block.  The three selected analysis
    agents run under [Promise.all]; their results do not depend on each
    other, and the block throws if one of them throws. *)
Definition pipeline (caps : Capabilities) (batchNumber : nat)
  (batch : list EmailRecord) (st : State) : Result PipelineOutput :=
  ingestionOutputs <- ingestAll caps batchNumber 0 batch ;;
  triage <- runTriageAgent caps ingestionOutputs batchNumber ;;
  let selected := runAgents triage in
  let existingTopics := Map_values (topicIndex st) in
  let existingDecisions := firstn 10 (decisionLog st) in
  rKnowledge <- runIfSelected (ra_knowledge selected)
                  (runKnowledgeAgent caps ingestionOutputs batchNumber) ;;
  rStakeholder <- runIfSelected (ra_stakeholder selected)
                    (runStakeholderAgent caps ingestionOutputs batchNumber) ;;
  rMemory <- runIfSelected (ra_memory selected)
               (runMemoryAgent caps existingTopics existingDecisions batchNumber) ;;
  let knowledge := orDefault rKnowledge emptyKnowledge in
  let stakeholder := orDefault rStakeholder emptyStakeholder in
  let memory := orDefault rMemory emptyMemory in
  critic <- (if ra_critic selected
             then runCriticAgent caps knowledge stakeholder memory batchNumber
             else Ok emptyCritic) ;;
  coordinator <- runCoordinatorAgent caps knowledge stakeholder memory critic
                   triage batchNumber ;;
  Ok {| po_ingestionOutputs := ingestionOutputs; po_triage := triage;
        po_knowledge := knowledge; po_stakeholder := stakeholder;
        po_memory := memory; po_critic := critic;
        po_coordinator := coordinator |}.

(* ------------------------------------------------------------------ *)
(** ** runBatch and startProcessing, cut at their awaits *)

(** The locals of a suspended runBatch call. *)
Record BatchFrame := {
  batchNumber : nat;
  batch : list EmailRecord;
  batchTimestamp : Timestamp
}.

Record Machine := {
  state : State;
  reading : bool;              (* startProcessing awaits readFirstNRecords *)
  frame : option BatchFrame    (* runBatch awaits its agents *)
}.

Definition initialMachine : Machine :=
  {| state := initialState; reading := false; frame := None |}.

Definition setPhase (p : Phase) (s : ProcessingStatus) : ProcessingStatus :=
  {| ps_status := p; startedAt := startedAt s; completedAt := completedAt s;
     lastBatchAt := lastBatchAt s; queued := queued s;
     processed := processed s; results := results s; errors := errors s;
     batches := batches s; message := message s |}.

Definition setCompletedAt (t : Timestamp) (s : ProcessingStatus)
  : ProcessingStatus :=
  {| ps_status := ps_status s; startedAt := startedAt s; completedAt := Some t;
     lastBatchAt := lastBatchAt s; queued := queued s;
     processed := processed s; results := results s; errors := errors s;
     batches := batches s; message := message s |}.

(** [status.status = "completed"; status.completedAt = now; stopBatches()]. *)
Definition markCompleted (E : Env) (st : State) : State :=
  stopBatches
    (tickClock
       (withStatus (setCompletedAt (now E st) (setPhase completed (status st))) st)).

(** [queue.splice(0, BATCH_SIZE)]: the removed prefix and what is left.  A
    negative count, or one below 1, removes nothing. *)
Definition splice0 {A : Type} (x : JsNumber) (q : list A) : list A * list A :=
  (firstn (deleteCount x (length q)) q, skipn (deleteCount x (length q)) q).

(** runBatch from its entry to its first await. *)
Definition runBatch_enter (E : Env) (m : Machine) : Machine :=
  let st := state m in
  if batchInProgress st then m
  else
    match queue st with
    | [] => {| state := markCompleted E st; reading := reading m; frame := frame m |}
    | _ :: _ =>
        let st1 := withInProgress true st in
        let number := batches (status st1) + 1 in
        let taken := fst (splice0 (BATCH_SIZE E) (queue st1)) in
        let st2 := withQueue (snd (splice0 (BATCH_SIZE E) (queue st1))) st1 in
        let stamp := now E st2 in
        let st3 := tickClock st2 in
        let s := status st3 in
        let st4 :=
          withStatus
            {| ps_status := ps_status s; startedAt := startedAt s;
               completedAt := completedAt s; lastBatchAt := Some stamp;
               queued := length (queue st3); processed := processed s;
               results := results s; errors := errors s;
               batches := batches s; message := message s |} st3 in
        {| state := st4; reading := reading m;
           frame := Some {| batchNumber := number; batch := taken;
                            batchTimestamp := stamp |} |}
    end.

(** The end of the [try] block, after the last agent answered. *)
Definition batchSucceeded (E : Env) (f : BatchFrame) (out : PipelineOutput)
  (st : State) : State :=
  let selected := runAgents (po_triage out) in
  let st1 :=
    applyOutputs E (batchNumber f) (po_ingestionOutputs out) (po_knowledge out)
      (po_stakeholder out) (po_memory out) (po_critic out)
      (po_coordinator out) st in
  let st2 :=
    withSnapshot
      (buildAgentSnapshot (batchNumber f) (batchTimestamp f)
         (reasoning (po_triage out)) (selectedListOf selected)
         (skippedListOf selected) (po_knowledge out) (po_stakeholder out)
         (po_memory out) (po_critic out) (po_coordinator out)) st1 in
  let s := status st2 in
  withStatus
    {| ps_status := ps_status s; startedAt := startedAt s;
       completedAt := completedAt s; lastBatchAt := lastBatchAt s;
       queued := queued s; processed := processed s + length (batch f);
       results := length (knowledgeUpdates st2); errors := errors s;
       batches := batchNumber f; message := message s |} st2.

(** The [catch] block. *)
Definition batchFailed (st : State) : State :=
  let s := status st in
  withStatus
    {| ps_status := ps_status s; startedAt := startedAt s;
       completedAt := completedAt s; lastBatchAt := lastBatchAt s;
       queued := queued s; processed := processed s; results := results s;
       errors := errors s + 1; batches := batches s; message := message s |} st.

(** runBatch from the answers of its agents to its end. *)
Definition runBatch_resume (E : Env) (caps : Capabilities) (m : Machine)
  : Machine :=
  match frame m with
  | None => m
  | Some f =>
      let st := state m in
      let st1 :=
        match pipeline caps (batchNumber f) (batch f) st with
        | Ok out => batchSucceeded E f out st
        | Err _ => batchFailed st
        end in
      let st2 := withInProgress false st1 in
      let st3 :=
        match queue st2 with
        | [] => markCompleted E st2
        | _ :: _ => st2
        end in
      {| state := st3; reading := reading m; frame := None |}
  end.

(** The callback of [setInterval]. *)
Definition timerTick (E : Env) (m : Machine) : Machine :=
  let st := state m in
  if batchTimer st then
    if negb (batchInProgress st) then
      match ps_status (status st) with
      | running => runBatch_enter E m
      | _ => m
      end
    else m
  else m.

(** startProcessing from its entry to [await readFirstNRecords]: the
    status it returns at once, if any, and the machine. *)
Definition startProcessing_call (E : Env) (m : Machine)
  : Machine * option ProcessingStatus :=
  let st := state m in
  match ps_status (status st) with
  | running => (m, Some (getStatus st))
  | _ =>
      let st1 := resetState st in
      let st2 := withStatus (setPhase running (status st1)) st1 in
      let s := status st2 in
      let st3 :=
        tickClock
          (withStatus
             {| ps_status := ps_status s; startedAt := Some (now E st2);
                completedAt := completedAt s; lastBatchAt := lastBatchAt s;
                queued := queued s; processed := processed s;
                results := results s; errors := errors s;
                batches := batches s; message := message s |} st2) in
      ({| state := st3; reading := true; frame := frame m |}, None)
  end.

(** startProcessing from the settling of the read to [await runBatch()],
    or through its [catch] block. *)
Definition startProcessing_loaded (E : Env) (events : list StreamEvent)
  (m : Machine) : Machine :=
  if reading m then
    match readFirstNRecords events (RECORD_LIMIT E) with
    | Pending => m
    | Resolved rs =>
        let st1 := withQueue rs (state m) in
        let s := status st1 in
        let st2 :=
          withStatus
            {| ps_status := ps_status s; startedAt := startedAt s;
               completedAt := completedAt s; lastBatchAt := lastBatchAt s;
               queued := length (queue st1); processed := processed s;
               results := results s; errors := errors s;
               batches := batches s; message := message s |} st1 in
        runBatch_enter E
          {| state := scheduleBatches st2; reading := false; frame := frame m |}
    | Rejected e =>
        let s := status (state m) in
        let st1 :=
          withStatus
            {| ps_status := error; startedAt := startedAt s;
               completedAt := completedAt s; lastBatchAt := lastBatchAt s;
               queued := queued s; processed := processed s;
               results := results s; errors := errors s;
               batches := batches s; message := Some e |} (state m) in
        {| state := stopBatches st1; reading := false; frame := frame m |}
    end
  else m.

(** One call of startProcessing that nothing interleaves with: the
    machine when the call returns, and the status it returns ([None] while
    the read never settles). *)
Definition startProcessing (E : Env) (events : list StreamEvent)
  (caps : Capabilities) (m : Machine) : Machine * option ProcessingStatus :=
  match startProcessing_call E m with
  | (m1, Some s) => (m1, Some s)
  | (m1, None) =>
      let m2 := startProcessing_loaded E events m1 in
      if reading m2 then (m2, None)
      else
        let m3 := runBatch_resume E caps m2 in
        (m3, Some (getStatus (state m3)))
  end.

(** What can happen to the process. *)
Inductive Event :=
| EvStart                                  (* POST /api/start *)
| EvLoaded (events : list StreamEvent)     (* the read settles *)
| EvTick                                   (* the interval fires *)
| EvBatchDone (caps : Capabilities).       (* the agents of a batch answer *)

Definition step (E : Env) (m : Machine) (ev : Event) : Machine :=
  match ev with
  | EvStart => fst (startProcessing_call E m)
  | EvLoaded events => startProcessing_loaded E events m
  | EvTick => timerTick E m
  | EvBatchDone caps => runBatch_resume E caps m
  end.

Definition exec (E : Env) (evs : list Event) (m : Machine) : Machine :=
  fold_left (step E) evs m.

(** Events that keep a run going; [EvStart] and [EvLoaded] begin one. *)
Definition inRun (ev : Event) : bool :=
  match ev with
  | EvTick | EvBatchDone _ => true
  | _ => false
  end.

(* ------------------------------------------------------------------ *)
(** ** Observers of a run

    Values read off a run without changing it: what each event did, listed
    in the order of the events. *)

Fixpoint observe {A : Type} (E : Env) (obs : Machine -> Event -> list A)
  (evs : list Event) (m : Machine) : list A :=
  match evs with
  | [] => []
  | ev :: evs' => obs m ev ++ observe E obs evs' (step E m ev)
  end.

(** The frame an event starts, if it starts a batch. *)
Definition startedBy (E : Env) (m : Machine) (ev : Event) : list BatchFrame :=
  match frame m, frame (step E m ev) with
  | None, Some f => [f]
  | _, _ => []
  end.

(** The records of the batch in flight when [ev] makes its [try] block
    throw. *)
Definition lostBy (m : Machine) (ev : Event) : list EmailRecord :=
  match ev, frame m with
  | EvBatchDone caps, Some f =>
      match pipeline caps (batchNumber f) (batch f) (state m) with
      | Ok _ => []
      | Err _ => batch f
      end
  | _, _ => []
  end.


Definition batchesStarted (E : Env) := observe E (startedBy E).
Definition lostRecords (E : Env) := observe E lostBy.

Definition inFlight (m : Machine) : nat :=
  match frame m with
  | Some f => length (batch f)
  | None => 0
  end.




(* ------------------------------------------------------------------ *)
(** ** Sample inputs *)

Definition sampleEnv : Env :=
  {| env_CSV_RECORD_LIMIT := Unset; env_BATCH_SIZE := Unset;
     clock := fun n => ("2024-01-01T00:00:0" ++ showNat n ++ "Z")%string |}.

Definition sampleRecord (n : nat) : EmailRecord :=
  {| er_file := ("mail/" ++ showNat n)%string;
     er_message := ("body " ++ showNat n)%string |}.

Definition sampleRecords (n : nat) : list EmailRecord :=
  map sampleRecord (seq 1 n).

(** A source of [rows] that is read to its end. *)
Definition sourceOf (rows : list EmailRecord) : list StreamEvent :=
  map rowEvent rows ++ [ParserEnd; StreamClose].

Definition sampleMessage : IngestionOutput :=
  {| io_from := "ann"; io_to := ["bob"; "ann"]; io_timestamp := "t";
     io_body := "b" |}.

Definition sampleStakeholder : Stakeholder :=
  {| sh_email := "cy"; sh_importance := high; sh_reason := "sponsor" |}.

(** The environment with CSV_RECORD_LIMIT=2.5 and BATCH_SIZE=0.5. *)
Definition fractionalEnv : Env :=
  {| env_CSV_RECORD_LIMIT := Num (Finite 2.5); env_BATCH_SIZE := Num (Finite 0.5);
     clock := clock sampleEnv |}.

(** The environment with BATCH_SIZE=-1. *)
Definition negativeEnv : Env :=
  {| env_CSV_RECORD_LIMIT := Unset; env_BATCH_SIZE := Num (Finite (-1));
     clock := clock sampleEnv |}.

(** The first batch of a run over the sample records. *)
Definition sampleFrame : BatchFrame :=
  {| batchNumber := 1; batch := sampleRecords 10;
     batchTimestamp := "2024-01-01T00:00:01Z" |}.

Definition sampleBrief : CoordinatorOutput :=
  {| executiveBrief := "brief"; notify := []; priorityItems := [] |}.

(** Agents that always answer: every message is from ann to bob and to
    ann herself, and triage selects the stages of [selected]. *)
Definition sampleCaps (selected : RunAgents) : Capabilities :=
  {| runIngestionAgent := fun _ _ _ => Ok sampleMessage;
     runTriageAgent := fun _ _ =>
       Ok {| runAgents := selected; reasoning := "because" |};
     runKnowledgeAgent := fun _ _ =>
       Ok {| ko_topics := ["budget"]; ko_decisions := ["ship"]; ko_facts := [] |};
     runStakeholderAgent := fun _ _ =>
       Ok {| stakeholders := [sampleStakeholder] |};
     runMemoryAgent := fun _ _ _ =>
       Ok {| updates :=
               [ {| mu_topic := "budget"; changeType := ct_new;
                    mu_summary := "first" |};
                 {| mu_topic := "budget"; changeType := ct_update;
                    mu_summary := "second" |} ] |};
     runCriticAgent := fun _ _ _ _ =>
       Ok {| co_conflicts :=
               [ {| cc_topic := "hiring"; cc_description := "unclear";
                    cc_severity := low |} ] |};
     runCoordinatorAgent := fun _ _ _ _ _ _ => Ok sampleBrief |}.

Definition allStages : RunAgents :=
  {| ra_knowledge := true; ra_stakeholder := true; ra_memory := true;
     ra_critic := true |}.

Definition noStages : RunAgents :=
  {| ra_knowledge := false; ra_stakeholder := false; ra_memory := false;
     ra_critic := false |}.

(** Agents whose triage call throws. *)
Definition failingCaps : Capabilities :=
  {| runIngestionAgent := runIngestionAgent (sampleCaps allStages);
     runTriageAgent := fun _ _ => Err "triage unavailable";
     runKnowledgeAgent := runKnowledgeAgent (sampleCaps allStages);
     runStakeholderAgent := runStakeholderAgent (sampleCaps allStages);
     runMemoryAgent := runMemoryAgent (sampleCaps allStages);
     runCriticAgent := runCriticAgent (sampleCaps allStages);
     runCoordinatorAgent := runCoordinatorAgent (sampleCaps allStages) |}.

(** What a batch of ten gives when triage selects no stage. *)
Definition samplePlainOutput : PipelineOutput :=
  {| po_ingestionOutputs := map (fun _ => sampleMessage) (sampleRecords 10);
     po_triage := {| runAgents := noStages; reasoning := "because" |};
     po_knowledge := emptyKnowledge; po_stakeholder := emptyStakeholder;
     po_memory := emptyMemory; po_critic := emptyCritic;
     po_coordinator := sampleBrief |}.

(** A run over [n] sample records: start, load, then the given events. *)
Definition sampleRun (n : nat) (evs : list Event) : Machine :=
  exec sampleEnv (EvStart :: EvLoaded (sourceOf (sampleRecords n)) :: evs)
    initialMachine.

(* ------------------------------------------------------------------ *)
(** ** Vocabulary of the statements *)

(** The log entry the conflict loop writes for [c]. *)
Definition conflictOf (c : CriticConflict) : Conflict :=
  {| c_topic := cc_topic c; c_description := cc_description c |}.

(** Whether the audit lists a conflict on topic [k]. *)
Definition flagged (k : string) (cs : list CriticConflict) : bool :=
  existsb (fun c => String.eqb (cc_topic c) k) cs.

(** A people-index entry nobody has been counted for. *)
Definition zeroEntry (addr : string) (role : option string) : PersonIndexEntry :=
  {| email := addr; name := None; inferredRole := role; messageCount := 0;
     topics := [] |}.

(** The importance the last stakeholder entry for [addr] declares. *)
Definition declare (addr : string) (acc : option string) (s : Stakeholder)
  : option string :=
  if String.eqb (sh_email s) addr then Some (levelString (sh_importance s))
  else acc.

Definition declaredRole (addr : string) (ss : list Stakeholder) : option string :=
  fold_left (declare addr) ss None.

(** No run is going and no call is suspended. *)
Definition atRest (m : Machine) : Prop :=
  ps_status (status (state m)) <> running
  /\ frame m = None
  /\ batchInProgress (state m) = false.

(** What holds between the events of a run once the records are loaded:
    either a batch is in flight, or the queue is empty and the run is
    completed, or records wait for the next tick of the timer. *)
Definition wellFormed (m : Machine) : Prop :=
  let st := state m in
  reading m = false
  /\ queued (status st) = length (queue st)
  /\ match frame m with
     | Some f =>
         batchInProgress st = true
         /\ ps_status (status st) = running
         /\ batchTimer st = true
         /\ batchNumber f = batches (status st) + 1
     | None =>
         batchInProgress st = false
         /\ ((ps_status (status st) = completed /\ queue st = []
              /\ batchTimer st = false)
             \/ (ps_status (status st) = running /\ queue st <> []
                 /\ batchTimer st = true))
     end.

(** The three situations a machine can be in: at rest before a first run
    or after a rejected read; reading the records; or in a loaded run. *)
Definition coherent (m : Machine) : Prop :=
  (reading m = false /\ frame m = None /\ batchInProgress (state m) = false
   /\ batchTimer (state m) = false
   /\ (ps_status (status (state m)) = idle
       \/ ps_status (status (state m)) = error))
  \/ (reading m = true /\ frame m = None /\ batchInProgress (state m) = false
      /\ batchTimer (state m) = false
      /\ ps_status (status (state m)) = running)
  \/ wellFormed m.

(** Agents none of whose calls throws. *)
Definition reliable (caps : Capabilities) : Prop :=
  (forall r n i, exists o, runIngestionAgent caps r n i = Ok o)
  /\ (forall outs n, exists o, runTriageAgent caps outs n = Ok o)
  /\ (forall outs n, exists o, runKnowledgeAgent caps outs n = Ok o)
  /\ (forall outs n, exists o, runStakeholderAgent caps outs n = Ok o)
  /\ (forall ts ds n, exists o, runMemoryAgent caps ts ds n = Ok o)
  /\ (forall k s m n, exists o, runCriticAgent caps k s m n = Ok o)
  /\ (forall k s m c t n, exists o, runCoordinatorAgent caps k s m c t n = Ok o).

(** An agent call that the batch issues throws. *)
Inductive callFails (caps : Capabilities) (number : nat)
  (records : list EmailRecord) (st : State) : Prop :=
| ingestion_fails (i : nat) (record : EmailRecord) (e : string) :
    nth_error records i = Some record ->
    runIngestionAgent caps record number i = Err e ->
    callFails caps number records st
| triage_fails (outs : list IngestionOutput) (e : string) :
    ingestAll caps number 0 records = Ok outs ->
    runTriageAgent caps outs number = Err e ->
    callFails caps number records st
| knowledge_fails (outs : list IngestionOutput) (t : TriageOutput) (e : string) :
    ingestAll caps number 0 records = Ok outs ->
    runTriageAgent caps outs number = Ok t ->
    ra_knowledge (runAgents t) = true ->
    runKnowledgeAgent caps outs number = Err e ->
    callFails caps number records st
| stakeholder_fails (outs : list IngestionOutput) (t : TriageOutput) (e : string) :
    ingestAll caps number 0 records = Ok outs ->
    runTriageAgent caps outs number = Ok t ->
    ra_stakeholder (runAgents t) = true ->
    runStakeholderAgent caps outs number = Err e ->
    callFails caps number records st
| memory_fails (outs : list IngestionOutput) (t : TriageOutput) (e : string) :
    ingestAll caps number 0 records = Ok outs ->
    runTriageAgent caps outs number = Ok t ->
    ra_memory (runAgents t) = true ->
    runMemoryAgent caps (Map_values (topicIndex st))
      (firstn 10 (decisionLog st)) number = Err e ->
    callFails caps number records st
| critic_fails (outs : list IngestionOutput) (t : TriageOutput)
    (rk : option KnowledgeOutput) (rs : option StakeholderOutput)
    (rm : option MemoryOutput) (e : string) :
    ingestAll caps number 0 records = Ok outs ->
    runTriageAgent caps outs number = Ok t ->
    runIfSelected (ra_knowledge (runAgents t))
      (runKnowledgeAgent caps outs number) = Ok rk ->
    runIfSelected (ra_stakeholder (runAgents t))
      (runStakeholderAgent caps outs number) = Ok rs ->
    runIfSelected (ra_memory (runAgents t))
      (runMemoryAgent caps (Map_values (topicIndex st))
         (firstn 10 (decisionLog st)) number) = Ok rm ->
    ra_critic (runAgents t) = true ->
    runCriticAgent caps (orDefault rk emptyKnowledge)
      (orDefault rs emptyStakeholder) (orDefault rm emptyMemory) number
      = Err e ->
    callFails caps number records st
| coordinator_fails (outs : list IngestionOutput) (t : TriageOutput)
    (rk : option KnowledgeOutput) (rs : option StakeholderOutput)
    (rm : option MemoryOutput) (c : CriticOutput) (e : string) :
    ingestAll caps number 0 records = Ok outs ->
    runTriageAgent caps outs number = Ok t ->
    runIfSelected (ra_knowledge (runAgents t))
      (runKnowledgeAgent caps outs number) = Ok rk ->
    runIfSelected (ra_stakeholder (runAgents t))
      (runStakeholderAgent caps outs number) = Ok rs ->
    runIfSelected (ra_memory (runAgents t))
      (runMemoryAgent caps (Map_values (topicIndex st))
         (firstn 10 (decisionLog st)) number) = Ok rm ->
    (if ra_critic (runAgents t)
     then runCriticAgent caps (orDefault rk emptyKnowledge)
            (orDefault rs emptyStakeholder) (orDefault rm emptyMemory) number
     else Ok emptyCritic) = Ok c ->
    runCoordinatorAgent caps (orDefault rk emptyKnowledge)
      (orDefault rs emptyStakeholder) (orDefault rm emptyMemory) c t number
      = Err e ->
    callFails caps number records st.

(** The state runBatch leaves behind, given what its [try] block made of
    the state. *)
Definition afterTry (E : Env) (st1 : State) : State :=
  match queue (withInProgress false st1) with
  | [] => markCompleted E (withInProgress false st1)
  | _ :: _ => withInProgress false st1
  end.

(** The status the latest snapshot lists for the agent called [n]. *)
Definition listedStatus (n : AgentName) (st : State) : option AgentStatus :=
  match latestAgentSnapshot st with
  | Some s => snapshotStatus n s
  | None => None
  end.

(** The sizes and numbers of a list of frames. *)
Definition frameSummary (fs : list BatchFrame) : list (nat * nat) :=
  map (fun f => (batchNumber f, length (batch f))) fs.

(* ------------------------------------------------------------------ *)
(** ** Vocabulary of the further properties *)

(** The order [getPeople] sorts by: larger counts first. *)
Definition byCountDesc (a b : PersonIndexEntry) : Prop :=
  messageCount b <= messageCount a.

(** The entries of [l] whose count is [c], in the order of [l]. *)
Definition withCount (c : nat) (l : list PersonIndexEntry)
  : list PersonIndexEntry :=
  filter (fun e => messageCount e =? c) l.

(** The reader after the parser handed over [rows] and nothing else. *)
Definition afterRows (limit : JsNumber) (rows : list RawRow) : Reader :=
  fold_left (deliver limit) (map rawEvent rows) readerInit.

Definition agentEqb (a b : AgentName) : bool :=
  match a, b with
  | Ingestion, Ingestion | Triage, Triage | Knowledge, Knowledge
  | StakeholderAgent, StakeholderAgent | Memory, Memory
  | Critic, Critic | Coordinator, Coordinator => true
  | _, _ => false
  end.

(** The output the latest snapshot keeps for the agent called [n]. *)
Definition listedOutput (n : AgentName) (st : State) : option AgentPayload :=
  match latestAgentSnapshot st with
  | Some s => option_map ari_output (find (fun a => agentEqb (ari_name a) n) (agents s))
  | None => None
  end.

Definition nonEmpty {A : Type} (l : list A) : bool :=
  match l with
  | [] => false
  | _ :: _ => true
  end.

(** getUpdates. *)
Record IntelligenceUpdates := {
  iu_knowledgeUpdates : list MemoryUpdate;
  iu_decisions : list string;
  iu_recommendations : option CoordinatorOutput;
  iu_informationFlow : list InformationFlow
}.

Definition getUpdates (st : State) : IntelligenceUpdates :=
  {| iu_knowledgeUpdates := knowledgeUpdates st;
     iu_decisions := decisionLog st;
     iu_recommendations := recommendations st;
     iu_informationFlow := informationFlow st |}.

(** Two states hold the same indexes, logs and recommendations. *)
Definition sameStore (a b : State) : Prop :=
  peopleIndex a = peopleIndex b /\ topicIndex a = topicIndex b
  /\ conflicts a = conflicts b /\ knowledgeUpdates a = knowledgeUpdates b
  /\ decisionLog a = decisionLog b /\ informationFlow a = informationFlow b
  /\ recommendations a = recommendations b.

(** The entry a first sighting in a parsed message creates. *)
Definition sightedEntry (addr : string) : PersonIndexEntry :=
  {| email := addr; name := None; inferredRole := None; messageCount := 1;
     topics := [] |}.

Definition bumpCount (e : PersonIndexEntry) : PersonIndexEntry :=
  {| email := email e; name := name e; inferredRole := inferredRole e;
     messageCount := messageCount e + 1; topics := topics e |}.

Definition withRole (r : option string) (e : PersonIndexEntry)
  : PersonIndexEntry :=
  {| email := email e; name := name e; inferredRole := r;
     messageCount := messageCount e; topics := topics e |}.

(** The entry the topics loop creates. *)
Definition placeholderEntry (k : string) (t : Timestamp) : TopicIndexEntry :=
  {| topic := k; latestSummary := "Awaiting memory classification.";
     confidence := 0.5%Q; isNew := true; isConflicting := false;
     lastUpdatedAt := t |}.

(** The confidences the code assigns. *)
Definition knownConfidence (c : Q) : Prop :=
  c = 0.4%Q \/ c = 0.5%Q \/ c = 0.6%Q \/ c = 0.75%Q.

(** Every entry of [m] sits under the key [key] reads off it, and no key
    occurs twice. *)
Definition keyedBy {V : Type} (key : V -> string) (m : JsMap V) : Prop :=
  NoDup (map fst m) /\ Forall (fun kv => key (snd kv) = fst kv) m.

(** From [a] to [b] nothing was taken away: every address is still there
    with a count at least as large, every topic is still there, and each
    log of [b] is the log of [a] with newer entries in front. *)
Definition grows (a b : State) : Prop :=
  (forall k e, Map_get k (peopleIndex a) = Some e ->
     exists e', Map_get k (peopleIndex b) = Some e'
                /\ messageCount e <= messageCount e')
  /\ (forall k, Map_has k (topicIndex a) = true ->
               Map_has k (topicIndex b) = true)
  /\ (exists newer, conflicts b = newer ++ conflicts a)
  /\ (exists newer, knowledgeUpdates b = newer ++ knowledgeUpdates a)
  /\ (exists newer, decisionLog b = newer ++ decisionLog a)
  /\ (exists newer, informationFlow b = newer ++ informationFlow a).

(** How the batch that [ev] closes ended: [true] when its [try] block went
    through, [false] when it threw. *)
Definition closedBy (m : Machine) (ev : Event) : list bool :=
  match ev, frame m with
  | EvBatchDone caps, Some f =>
      match pipeline caps (batchNumber f) (batch f) (state m) with
      | Ok _ => [true]
      | Err _ => [false]
      end
  | _, _ => []
  end.

Definition batchesClosed (E : Env) := observe E closedBy.

(** The counters agree with what they count. *)
Definition booked (st : State) : Prop :=
  results (status st) = length (knowledgeUpdates st)
  /\ match latestAgentSnapshot st with
     | Some s => snap_batchNumber s = batches (status st)
                 /\ 1 <= batches (status st)
     | None => batches (status st) = 0
     end.

(** The batch in flight carries the number after [batches]. *)
Definition numbered (m : Machine) : Prop :=
  match frame m with
  | Some f => batchNumber f = batches (status (state m)) + 1
  | None => True
  end.

(** One tick of the timer and the answers of the batch it starts, for each
    of the given agents in turn. *)
Definition rounds (cs : list Capabilities) : list Event :=
  flat_map (fun c => [EvTick; EvBatchDone c]) cs.

(** [n <= x] for a length [n]; [z <= x] and [x < z] for an integer [z]. *)
Definition fits (n : nat) (x : JsNumber) : Prop :=
  match x with
  | Finite q => (inject_Z (Z.of_nat n) <= q)%Q
  | PosInfinity => True
  | NegInfinity => False
  end.

Definition atLeast (x : JsNumber) (z : Z) : Prop :=
  match x with
  | Finite q => (inject_Z z <= q)%Q
  | PosInfinity => True
  | NegInfinity => False
  end.

Definition below (x : JsNumber) (z : Z) : Prop :=
  match x with
  | Finite q => (q < inject_Z z)%Q
  | PosInfinity => False
  | NegInfinity => True
  end.

(** The batches among [closed] that went through. *)
Definition wentThrough (closed : list bool) : nat :=
  length (filter (fun ok => ok) closed).

(** The last event of [us] for the key [k], with its position in [us]. *)
Fixpoint lastUpdate (k : string) (us : list MemoryUpdate)
  : option (nat * MemoryUpdate) :=
  match us with
  | [] => None
  | u :: rest =>
      match lastUpdate k rest with
      | Some (i, v) => Some (S i, v)
      | None => if String.eqb (mu_topic u) k then Some (0, u) else None
      end
  end.

(** [e] with [isConflicting] set when [b] holds. *)
Definition markIf (b : bool) (e : TopicIndexEntry) : TopicIndexEntry :=
  if b then markConflicting e else e.

(* ================================================================== *)
(** * Properties *)

(* ------------------------------------------------------------------ *)
(** ** JsMap *)

Section JsMapFacts.
Context {V : Type}.
Implicit Types (k : string) (v : V) (m : JsMap V).

Lemma Map_get_set k k' v m :
  Map_get k' (Map_set k v m) = if String.eqb k k' then Some v else Map_get k' m.
Proof.
  induction m as [|[k0 v0] m IH]; simpl.
  - reflexivity.
  - destruct (String.eqb_spec k0 k) as [->|Hne]; simpl.
    + destruct (String.eqb k k'); reflexivity.
    + destruct (String.eqb_spec k0 k') as [->|Hne'].
      * destruct (String.eqb_spec k k'); [congruence|reflexivity].
      * exact IH.
Qed.

Lemma Map_get_set_same k v m : Map_get k (Map_set k v m) = Some v.
Proof. rewrite Map_get_set, String.eqb_refl. reflexivity. Qed.

Lemma Map_get_set_other k k' v m :
  k <> k' -> Map_get k' (Map_set k v m) = Map_get k' m.
Proof.
  intros Hne. rewrite Map_get_set.
  destruct (String.eqb_spec k k'); [contradiction|reflexivity].
Qed.

Lemma Map_set_set k v v' m : Map_set k v' (Map_set k v m) = Map_set k v' m.
Proof.
  induction m as [|[k0 v0] m IH]; simpl.
  - rewrite String.eqb_refl. reflexivity.
  - destruct (String.eqb_spec k0 k) as [->|Hne]; simpl.
    + rewrite String.eqb_refl. reflexivity.
    + destruct (String.eqb_spec k0 k); [contradiction|]. now rewrite IH.
Qed.

(** [set] on a present key does not move, add or drop a key. *)
Lemma Map_set_keys k v v0 m :
  Map_get k m = Some v0 -> map fst (Map_set k v m) = map fst m.
Proof.
  induction m as [|[k0 w] m IH]; simpl; [discriminate|].
  destruct (String.eqb_spec k0 k) as [->|Hne]; simpl; intros H.
  - reflexivity.
  - now rewrite IH.
Qed.

Lemma Map_get_In k v m : Map_get k m = Some v -> In v (Map_values m).
Proof.
  unfold Map_values. induction m as [|[k0 w] m IH]; simpl; [discriminate|].
  destruct (String.eqb k0 k); intros H.
  - injection H as ->. now left.
  - right. now apply IH.
Qed.

End JsMapFacts.

(* ------------------------------------------------------------------ *)
(** ** The record reader *)

(** The comparisons of [onData], in terms of the rows the reader keeps. *)
Lemma lengthBelow_rowsKept n limit :
  lengthBelow n limit
  = match rowsKept limit with
    | Some k => n <? k
    | None => true
    end.
Proof.
  destruct limit as [q| |]; [|reflexivity|reflexivity].
  cbn [lengthBelow rowsKept].
  destruct (Qle_bool q (inject_Z (Z.of_nat n))) eqn:Hle; cbn [negb]; symmetry.
  - apply Qle_bool_iff in Hle. apply Qceiling_resp_le in Hle.
    rewrite Qceiling_Z in Hle. apply Nat.ltb_ge. lia.
  - assert (Hlt : (inject_Z (Z.of_nat n) < q)%Q).
    { apply Qnot_le_lt. intros H. apply Qle_bool_iff in H. congruence. }
    assert (Hc : (Z.of_nat n < Qceiling q)%Z).
    { rewrite Zlt_Qlt. eapply Qlt_le_trans; [exact Hlt|apply Qle_ceiling]. }
    apply Nat.ltb_lt. lia.
Qed.

Lemma lengthReaches_lengthBelow n limit :
  lengthReaches n limit = negb (lengthBelow n limit).
Proof.
  destruct limit as [q| |]; cbn [lengthReaches lengthBelow];
    [now rewrite negb_involutive|reflexivity|reflexivity].
Qed.

(** An integer limit keeps as many rows as it says. *)
Lemma rowsKept_integer (z : Z) : rowsKept (Finite (inject_Z z)) = Some (Z.to_nat z).
Proof. cbn [rowsKept]. now rewrite Qceiling_Z. Qed.

Section ReaderFacts.
Variable limit : JsNumber.

(** What is left of the bound once [have] rows are held. *)
Let room (have : nat) : option nat :=
  option_map (fun k => k - have) (rowsKept limit).

(** A reader that still listens and has not settled takes rows up to
    the bound and ignores the others. *)
Lemma deliver_rows (rows : list RawRow) :
  forall r,
    rd_listening r = true ->
    let r' := fold_left (deliver limit) (map rawEvent rows) r in
    rd_results r'
      = rd_results r ++ upTo (room (length (rd_results r))) (map recordOf rows)
    /\ rd_listening r' = true
    /\ rd_resolved r' = rd_resolved r
    /\ rd_promise r' = rd_promise r.
Proof.
  induction rows as [|row rows IH]; intros r Hl; cbn [map fold_left].
  - cbv zeta. unfold room. destruct (rowsKept limit); cbn [option_map upTo];
      rewrite ?firstn_nil, app_nil_r; auto.
  - assert (Hd : deliver limit r (rawEvent row)
                 = onData limit (fst row) (snd row) r)
      by (unfold deliver, rawEvent; rewrite Hl; reflexivity).
    rewrite Hd.
    destruct (IH (onData limit (fst row) (snd row) r) Hl)
      as (Hres & Hl' & Hr' & Hp').
    cbv zeta. rewrite Hres, Hl', Hr', Hp'. clear Hres Hl' Hr' Hp'.
    unfold onData. cbn [rd_results rd_resolved rd_promise].
    repeat split.
    rewrite lengthBelow_rowsKept. unfold room.
    destruct (rowsKept limit) as [k|]; cbn [option_map upTo].
    + destruct (Nat.ltb_spec (length (rd_results r)) k) as [Hlt|Hge].
      * replace (k - length (rd_results r))
          with (S (k - length (rd_results r ++ [recordOf row])))
          by (rewrite length_app; cbn [length]; lia).
        cbn [firstn]. rewrite <- app_assoc. reflexivity.
      * replace (k - length (rd_results r)) with 0 by lia.
        reflexivity.
    + rewrite <- app_assoc. reflexivity.
Qed.

(** A settled promise keeps its value whatever is delivered later. *)
Lemma settled_stays (events : list StreamEvent) :
  forall r, rd_promise r <> Pending ->
    rd_promise (fold_left (deliver limit) events r) = rd_promise r.
Proof.
  induction events as [|ev events IH]; intros r Hs; simpl; [reflexivity|].
  assert (Hsame : rd_promise (deliver limit r ev) = rd_promise r).
  { unfold deliver. destruct (rd_listening r); [|reflexivity].
    destruct ev; simpl; try reflexivity;
      try (unfold finalize; destruct (rd_resolved r); simpl);
      destruct (rd_promise r); simpl; congruence. }
  rewrite IH; congruence.
Qed.

Lemma read_rows_then (rows : list RawRow) (ev : StreamEvent)
  (rest : list StreamEvent) :
  readFirstNRecords (map rawEvent rows ++ ev :: rest) limit
  = match ev with
    | ParserEnd | StreamClose =>
        Resolved (upTo (rowsKept limit) (map recordOf rows))
    | StreamError e | ParserError e => Rejected e
    | ParserData _ _ =>
        readFirstNRecords (map rawEvent rows ++ ev :: rest) limit
    end.
Proof.
  unfold readFirstNRecords. rewrite fold_left_app.
  destruct (deliver_rows rows readerInit eq_refl) as (Hres & Hl & Hr & Hp).
  assert (Hroom : room (length (rd_results readerInit)) = rowsKept limit).
  { unfold room. cbn [readerInit rd_results length].
    destruct (rowsKept limit); cbn [option_map]; [now rewrite Nat.sub_0_r|reflexivity]. }
  rewrite Hroom in Hres. cbn [readerInit rd_results rd_resolved rd_promise app] in Hres, Hr, Hp.
  set (r1 := fold_left (deliver limit) (map rawEvent rows) readerInit) in *.
  change (fold_left (deliver limit) (ev :: rest) r1)
    with (fold_left (deliver limit) rest (deliver limit r1 ev)).
  destruct ev; try reflexivity;
    (rewrite settled_stays;
     unfold deliver; rewrite Hl; simpl;
     try (unfold finalize; rewrite Hr; simpl); rewrite Hp; simpl;
     [try rewrite Hres; reflexivity | discriminate]).
Qed.



End ReaderFacts.



(* ------------------------------------------------------------------ *)
(** ** startProcessing while a run is going *)

(** C4. Calling startProcessing while the phase is [running] changes
    nothing: the call returns the current status at once, and the machine
    (queue, people and topic indexes, conflicts, logs, counters, timer) is
    the one before the call. *)
Theorem startProcessing_running_noop :
  forall (E : Env) (events : list StreamEvent) (caps : Capabilities)
         (m : Machine),
    ps_status (status (state m)) = running ->
    startProcessing_call E m = (m, Some (status (state m)))
    /\ startProcessing E events caps m = (m, Some (status (state m)))
    /\ step E m EvStart = m.
Proof.
  intros E events caps m Hrun.
  assert (Hcall : startProcessing_call E m = (m, Some (status (state m))))
    by (unfold startProcessing_call; rewrite Hrun; reflexivity).
  repeat split.
  - exact Hcall.
  - unfold startProcessing. rewrite Hcall. reflexivity.
  - simpl. rewrite Hcall. reflexivity.
Qed.

Lemma startProcessing_running_noop_witness :
  ps_status (status (state (sampleRun 23 []))) = running
  /\ startProcessing sampleEnv [] failingCaps (sampleRun 23 [])
     = (sampleRun 23 [], Some (status (state (sampleRun 23 [])))).
Proof.
  split; [reflexivity|].
  apply (startProcessing_running_noop sampleEnv [] failingCaps (sampleRun 23 [])).
  reflexivity.
Defined.

(* ------------------------------------------------------------------ *)
(** ** The memory loop *)

Lemma applyMemory_app E us u acc :
  applyMemory E (us ++ [u]) acc = applyMemoryUpdate E (applyMemory E us acc) u.
Proof. unfold applyMemory. rewrite fold_left_app. reflexivity. Qed.

Lemma applyMemory_cons E u us acc :
  applyMemory E (u :: us) acc = applyMemory E us (applyMemoryUpdate E acc u).
Proof. reflexivity. Qed.

Lemma applyMemory_log E us :
  forall acc, snd (applyMemory E us acc) = rev us ++ snd acc.
Proof.
  induction us as [|u us IH]; intros acc; [reflexivity|].
  rewrite applyMemory_cons, IH. simpl. now rewrite <- app_assoc.
Qed.

Lemma applyMemory_reads E us :
  forall acc, snd (fst (applyMemory E us acc)) = snd (fst acc) + length us.
Proof.
  induction us as [|u us IH]; intros acc; [simpl; lia|].
  rewrite applyMemory_cons, IH. simpl. lia.
Qed.

(* ------------------------------------------------------------------ *)
(** ** The conflict loop *)

Lemma applyConflict_get c acc k :
  Map_get k (snd (applyConflict acc c))
  = match Map_get k (snd acc) with
    | Some e => Some (if String.eqb (cc_topic c) k then markConflicting e else e)
    | None => None
    end.
Proof.
  unfold applyConflict.
  destruct (Map_get (cc_topic c) (snd acc)) as [e0|] eqn:Hget; simpl.
  - rewrite Map_get_set.
    destruct (String.eqb_spec (cc_topic c) k) as [<-|Hne].
    + now rewrite Hget.
    + now destruct (Map_get k (snd acc)).
  - destruct (String.eqb_spec (cc_topic c) k) as [<-|Hne].
    + now rewrite Hget.
    + now destruct (Map_get k (snd acc)).
Qed.

Lemma applyConflict_keys c acc :
  map fst (snd (applyConflict acc c)) = map fst (snd acc).
Proof.
  unfold applyConflict.
  destruct (Map_get (cc_topic c) (snd acc)) as [e0|] eqn:Hget; simpl.
  - eapply Map_set_keys, Hget.
  - reflexivity.
Qed.

Lemma applyConflicts_cons c cs acc :
  applyConflicts (c :: cs) acc = applyConflicts cs (applyConflict acc c).
Proof. reflexivity. Qed.

Lemma applyConflicts_log cs :
  forall acc, fst (applyConflicts cs acc) = rev (map conflictOf cs) ++ fst acc.
Proof.
  induction cs as [|c cs IH]; intros acc; [reflexivity|].
  rewrite applyConflicts_cons, IH. simpl. rewrite <- app_assoc.
  unfold applyConflict. now destruct (Map_get (cc_topic c) (snd acc)).
Qed.

Lemma applyConflicts_keys cs :
  forall acc, map fst (snd (applyConflicts cs acc)) = map fst (snd acc).
Proof.
  induction cs as [|c cs IH]; intros acc; [reflexivity|].
  rewrite applyConflicts_cons, IH. apply applyConflict_keys.
Qed.

Lemma markConflicting_idem e : markConflicting (markConflicting e) = markConflicting e.
Proof. reflexivity. Qed.

Lemma applyConflicts_get cs k :
  forall acc,
    Map_get k (snd (applyConflicts cs acc))
    = match Map_get k (snd acc) with
      | Some e => Some (if flagged k cs then markConflicting e else e)
      | None => None
      end.
Proof.
  induction cs as [|c cs IH]; intros acc.
  - simpl. now destruct (Map_get k (snd acc)).
  - rewrite applyConflicts_cons, IH, applyConflict_get. simpl.
    destruct (Map_get k (snd acc)) as [e|]; [|reflexivity].
    destruct (String.eqb (cc_topic c) k); simpl; [|reflexivity].
    now destruct (flagged k cs).
Qed.

(* ------------------------------------------------------------------ *)
(** ** Knowledge-change events in applyOutputs *)

Lemma lastUpdate_key k us i u :
  lastUpdate k us = Some (i, u) -> mu_topic u = k.
Proof.
  revert i. induction us as [|v us IH]; intros i H; cbn [lastUpdate] in H;
    [discriminate|].
  destruct (lastUpdate k us) as [[j w]|].
  - injection H as _ <-. now apply (IH j).
  - destruct (String.eqb_spec (mu_topic v) k) as [Hk|]; [|discriminate].
    now injection H as _ <-.
Qed.

Lemma lastUpdate_app k us u :
  lastUpdate k (us ++ [u])
  = if String.eqb (mu_topic u) k then Some (length us, u)
    else lastUpdate k us.
Proof.
  induction us as [|v us IH]; cbn [app lastUpdate length].
  - now destruct (String.eqb (mu_topic u) k).
  - rewrite IH. destruct (String.eqb (mu_topic u) k); [reflexivity|].
    reflexivity.
Qed.

(** The entry of a key after the memory loop: the one of the last event
    for the key, stamped at that event's clock reading. *)
Lemma applyMemory_get E k us :
  forall idx reads log,
    Map_get k (fst (fst (applyMemory E us ((idx, reads), log))))
    = match lastUpdate k us with
      | Some (i, u) => Some (memoryEntry u (clock E (reads + i)))
      | None => Map_get k idx
      end.
Proof.
  induction us as [|v us IH]; intros idx reads log; [reflexivity|].
  rewrite applyMemory_cons. unfold applyMemoryUpdate. cbn [fst snd].
  rewrite IH. cbn [lastUpdate].
  destruct (lastUpdate k us) as [[i u]|].
  - now rewrite Nat.add_succ_comm.
  - rewrite Map_get_set.
    destruct (String.eqb (mu_topic v) k); [|reflexivity].
    now rewrite Nat.add_0_r.
Qed.

(** C5. What applyOutputs does with the knowledge-change events [us] of
    the memory stage, on the state of the processor.  Every event goes to
    the front of the change log, in turn, and reads the clock once.  After
    the batch the entry of a key [k] in the topic index is built from the
    last event for [k] alone (its summary, confidence 0.4 for a conflict,
    0.75 for new, 0.6 for an update, [isNew] and [isConflicting] from the
    change type, the clock reading of that event), whatever the entry
    was and whatever earlier events of the batch said; the audit of the
    same batch may still raise [isConflicting] (C6).  A key without event
    has the entry of the batch without memory events.  So an event [n1]
    applied after [us] creates or overwrites the entry of its topic, and
    a second event [n2] for the same topic leaves the index as if [n1]
    had not been applied. *)
Theorem memory_update_overwrites :
  forall (E : Env) (number : nat) (outs : list IngestionOutput)
         (knowledge : KnowledgeOutput) (stakeholder : StakeholderOutput)
         (us : list MemoryUpdate) (critic : CriticOutput)
         (coordinator : CoordinatorOutput) (st : State)
         (n1 : MemoryUpdate) (c2 : ChangeType) (s2 : string) (k : string),
    let after := fun events =>
      applyOutputs E number outs knowledge stakeholder
        {| updates := events |} critic coordinator st in
    let reads :=
      snd (applyTopics E (ko_topics knowledge) (topicIndex st, clockReads st)) in
    let entryOf := fun (u : MemoryUpdate) (i : nat) =>
      {| topic := mu_topic u; latestSummary := mu_summary u;
         confidence := match changeType u with
                       | ct_conflict => 0.4%Q
                       | ct_new => 0.75%Q
                       | ct_update => 0.6%Q
                       end;
         isNew := match changeType u with ct_new => true | _ => false end;
         isConflicting :=
           match changeType u with ct_conflict => true | _ => false end
           || flagged (mu_topic u) (co_conflicts critic);
         lastUpdatedAt := clock E (reads + i) |} in
    let n2 := {| mu_topic := mu_topic n1; changeType := c2; mu_summary := s2 |} in
    knowledgeUpdates (after us) = rev us ++ knowledgeUpdates st
    /\ clockReads (after us) = reads + length us
    /\ Map_get k (topicIndex (after us))
       = match lastUpdate k us with
         | Some (i, u) => Some (entryOf u i)
         | None => Map_get k (topicIndex (after []))
         end
    /\ knowledgeUpdates (after (us ++ [n1])) = n1 :: knowledgeUpdates (after us)
    /\ Map_get k (topicIndex (after (us ++ [n1])))
       = (if String.eqb (mu_topic n1) k then Some (entryOf n1 (length us))
          else Map_get k (topicIndex (after us)))
    /\ Map_get k (topicIndex (after (us ++ [n1; n2])))
       = (if String.eqb (mu_topic n1) k then Some (entryOf n2 (length us + 1))
          else Map_get k (topicIndex (after us)))
    /\ knowledgeUpdates (after (us ++ [n1; n2]))
       = n2 :: n1 :: knowledgeUpdates (after us).
Proof.
  intros E number outs knowledge stakeholder us critic coordinator st
         n1 c2 s2 k. cbv beta zeta.
  set (afterTopics :=
         applyTopics E (ko_topics knowledge) (topicIndex st, clockReads st)).
  assert (Hlog : forall events,
             knowledgeUpdates
               (applyOutputs E number outs knowledge stakeholder
                  {| updates := events |} critic coordinator st)
             = rev events ++ knowledgeUpdates st).
  { intros events. unfold applyOutputs. cbn [knowledgeUpdates updates].
    now rewrite applyMemory_log. }
  assert (Hget : forall events,
             Map_get k
               (topicIndex
                  (applyOutputs E number outs knowledge stakeholder
                     {| updates := events |} critic coordinator st))
             = match lastUpdate k events with
               | Some (i, u) =>
                   Some (markIf (flagged k (co_conflicts critic))
                           (memoryEntry u (clock E (snd afterTopics + i))))
               | None =>
                   option_map (markIf (flagged k (co_conflicts critic)))
                     (Map_get k (fst afterTopics))
               end).
  { intros events. unfold applyOutputs. cbn [topicIndex updates].
    rewrite applyConflicts_get. cbn [snd]. fold afterTopics.
    rewrite (surjective_pairing afterTopics) at 1.
    rewrite applyMemory_get.
    destruct (lastUpdate k events) as [[i u]|]; [reflexivity|].
    now destruct (Map_get k (fst afterTopics)). }
  assert (Hentry : forall u i,
             mu_topic u = k ->
             markIf (flagged k (co_conflicts critic))
               (memoryEntry u (clock E (snd afterTopics + i)))
             = {| topic := mu_topic u; latestSummary := mu_summary u;
                  confidence := match changeType u with
                                | ct_conflict => 0.4%Q
                                | ct_new => 0.75%Q
                                | ct_update => 0.6%Q
                                end;
                  isNew := match changeType u with ct_new => true | _ => false end;
                  isConflicting :=
                    match changeType u with ct_conflict => true | _ => false end
                    || flagged (mu_topic u) (co_conflicts critic);
                  lastUpdatedAt := clock E (snd afterTopics + i) |}).
  { intros u i Hk. rewrite <- Hk. unfold markIf, memoryEntry, markConflicting.
    destruct (flagged (mu_topic u) (co_conflicts critic));
      destruct (changeType u); reflexivity. }
  split; [apply Hlog|].
  split.
  { unfold applyOutputs. cbn [clockReads updates].
    rewrite applyMemory_reads. reflexivity. }
  split.
  { rewrite (Hget us), (Hget []). cbn [lastUpdate].
    destruct (lastUpdate k us) as [[i u]|] eqn:Hlast; [|reflexivity].
    now rewrite (Hentry u i (lastUpdate_key k us i u Hlast)). }
  split.
  { rewrite !Hlog, rev_app_distr. reflexivity. }
  split.
  { rewrite (Hget (us ++ [n1])), (Hget us), lastUpdate_app.
    destruct (String.eqb_spec (mu_topic n1) k) as [Hk|Hne];
      [now rewrite (Hentry n1 _ Hk)|].
    reflexivity. }
  split.
  { set (n2 := {| mu_topic := mu_topic n1; changeType := c2;
                  mu_summary := s2 |}).
    change (us ++ [n1; n2]) with (us ++ [n1] ++ [n2]).
    rewrite app_assoc, (Hget ((us ++ [n1]) ++ [n2])), (Hget us).
    rewrite !lastUpdate_app, length_app. cbn [length].
    change (mu_topic n2) with (mu_topic n1).
    destruct (String.eqb_spec (mu_topic n1) k) as [Hk|Hne];
      [now rewrite (Hentry n2 _ Hk)|].
    reflexivity. }
  rewrite !Hlog, rev_app_distr. reflexivity.
Qed.

(* ------------------------------------------------------------------ *)
(** ** Conflicts in applyOutputs *)

Lemma applyConflicts_app cs c acc :
  applyConflicts (cs ++ [c]) acc = applyConflict (applyConflicts cs acc) c.
Proof. unfold applyConflicts. rewrite fold_left_app. reflexivity. Qed.

(** Conflicts on topics without entry leave the index as it is. *)
Lemma applyConflicts_absent cs :
  forall acc : ConflictAcc,
    existsb (fun c => Map_has (cc_topic c) (snd acc)) cs = false ->
    snd (applyConflicts cs acc) = snd acc.
Proof.
  induction cs as [|c cs IH]; intros acc H; [reflexivity|].
  cbn [existsb] in H. apply orb_false_iff in H as (Hc & Hcs).
  assert (Hstep : snd (applyConflict acc c) = snd acc).
  { unfold applyConflict. unfold Map_has in Hc.
    now destruct (Map_get (cc_topic c) (snd acc)). }
  rewrite applyConflicts_cons, IH; rewrite Hstep; [reflexivity|exact Hcs].
Qed.

Lemma flagged_In c cs : In c cs -> flagged (cc_topic c) cs = true.
Proof.
  intros H. unfold flagged. apply existsb_exists.
  exists c. split; [exact H|apply String.eqb_refl].
Qed.

(** C6. What applyOutputs does with the conflicts [cs] the audit reports,
    on the state of the processor, compared with the same batch without
    conflicts.  The conflicts go to the front of the conflict log, one
    after the other.  In the topic index the entry of a topic with a
    conflict, if there is one, gets [isConflicting = true] and keeps its
    other fields; every other entry is as without the conflicts, and no
    key is added, removed or moved: when no conflict is on a topic with an
    entry, the index is the same.  Nothing else of the state depends on
    the conflicts.  The same holds conflict by conflict ([c] after [cs]),
    and for a batch in which only the audit reports something the index
    is compared with the one before the batch. *)
Theorem conflict_logged_topic_not_created :
  forall (E : Env) (number : nat) (outs : list IngestionOutput)
         (knowledge : KnowledgeOutput) (stakeholder : StakeholderOutput)
         (memory : MemoryOutput) (cs : list CriticConflict)
         (c : CriticConflict) (coordinator : CoordinatorOutput) (st : State)
         (k : string),
    let after := fun found =>
      applyOutputs E number outs knowledge stakeholder memory
        {| co_conflicts := found |} coordinator st in
    let auditOnly :=
      applyOutputs E number outs emptyKnowledge stakeholder emptyMemory
        {| co_conflicts := cs |} coordinator st in
    let raise := fun e =>
      {| topic := topic e; latestSummary := latestSummary e;
         confidence := confidence e; isNew := isNew e;
         isConflicting := true; lastUpdatedAt := lastUpdatedAt e |} in
    conflicts (after cs)
      = rev (map (fun x => {| c_topic := cc_topic x;
                              c_description := cc_description x |}) cs)
        ++ conflicts st
    /\ Map_get k (topicIndex (after cs))
       = match Map_get k (topicIndex (after [])) with
         | Some e => Some (if flagged k cs then raise e else e)
         | None => None
         end
    /\ map fst (topicIndex (after cs)) = map fst (topicIndex (after []))
    /\ Forall
         (fun x =>
            In {| c_topic := cc_topic x; c_description := cc_description x |}
              (conflicts (after cs))
            /\ Map_get (cc_topic x) (topicIndex (after cs))
               = option_map raise (Map_get (cc_topic x) (topicIndex (after []))))
         cs
    /\ (if existsb (fun x => Map_has (cc_topic x) (topicIndex (after []))) cs
        then True
        else topicIndex (after cs) = topicIndex (after []))
    /\ (peopleIndex (after cs) = peopleIndex (after [])
        /\ knowledgeUpdates (after cs) = knowledgeUpdates (after [])
        /\ decisionLog (after cs) = decisionLog (after [])
        /\ informationFlow (after cs) = informationFlow (after [])
        /\ recommendations (after cs) = recommendations (after [])
        /\ latestAgentSnapshot (after cs) = latestAgentSnapshot (after [])
        /\ status (after cs) = status (after [])
        /\ queue (after cs) = queue (after [])
        /\ clockReads (after cs) = clockReads (after []))
    /\ (conflicts (after (cs ++ [c]))
          = {| c_topic := cc_topic c; c_description := cc_description c |}
            :: conflicts (after cs)
        /\ Map_get k (topicIndex (after (cs ++ [c])))
           = match Map_get k (topicIndex (after cs)) with
             | Some e =>
                 Some (if String.eqb (cc_topic c) k then raise e else e)
             | None => None
             end
        /\ map fst (topicIndex (after (cs ++ [c])))
           = map fst (topicIndex (after cs))
        /\ match Map_get (cc_topic c) (topicIndex (after cs)) with
           | Some _ => True
           | None => topicIndex (after (cs ++ [c])) = topicIndex (after cs)
           end)
    /\ (conflicts auditOnly
          = rev (map (fun x => {| c_topic := cc_topic x;
                                  c_description := cc_description x |}) cs)
            ++ conflicts st
        /\ Map_get k (topicIndex auditOnly)
           = match Map_get k (topicIndex st) with
             | Some e => Some (if flagged k cs then raise e else e)
             | None => None
             end
        /\ map fst (topicIndex auditOnly) = map fst (topicIndex st)
        /\ (if existsb (fun x => Map_has (cc_topic x) (topicIndex st)) cs
            then True
            else topicIndex auditOnly = topicIndex st)).
Proof.
  intros E number outs knowledge stakeholder memory cs c coordinator st k.
  cbv beta zeta.
  set (idx := fst (fst (applyMemory E (updates memory)
                          (applyTopics E (ko_topics knowledge)
                             (topicIndex st, clockReads st),
                           knowledgeUpdates st)))).
  assert (Hidx : forall found,
             topicIndex
               (applyOutputs E number outs knowledge stakeholder memory
                  {| co_conflicts := found |} coordinator st)
             = snd (applyConflicts found (conflicts st, idx))) by reflexivity.
  assert (Hlog : forall found,
             conflicts
               (applyOutputs E number outs knowledge stakeholder memory
                  {| co_conflicts := found |} coordinator st)
             = fst (applyConflicts found (conflicts st, idx))) by reflexivity.
  assert (Hget : Map_get k (snd (applyConflicts cs (conflicts st, idx)))
                 = match Map_get k idx with
                   | Some e => Some (if flagged k cs then markConflicting e else e)
                   | None => None
                   end)
    by apply (applyConflicts_get cs k (conflicts st, idx)).
  rewrite !Hidx, !Hlog. cbn [applyConflicts fold_left snd fst].
  fold (applyConflicts cs (conflicts st, idx)).
  split; [apply (applyConflicts_log cs (conflicts st, idx))|].
  split; [exact Hget|].
  split; [apply (applyConflicts_keys cs (conflicts st, idx))|].
  split.
  { apply Forall_forall. intros x Hx. split.
    - rewrite (applyConflicts_log cs (conflicts st, idx)).
      apply in_or_app. left. apply -> in_rev.
      apply (in_map conflictOf cs x Hx).
    - rewrite (applyConflicts_get cs (cc_topic x) (conflicts st, idx)).
      cbn [snd]. rewrite (flagged_In x cs Hx).
      now destruct (Map_get (cc_topic x) idx). }
  split.
  { destruct (existsb (fun x => Map_has (cc_topic x) idx) cs) eqn:Hex;
      [exact I|].
    apply (applyConflicts_absent cs (conflicts st, idx) Hex). }
  split; [repeat split|].
  split.
  { rewrite applyConflicts_app.
    set (acc := applyConflicts cs (conflicts st, idx)).
    split; [unfold applyConflict; now destruct (Map_get (cc_topic c) (snd acc))|].
    split; [apply (applyConflict_get c acc k)|].
    split; [apply (applyConflict_keys c acc)|].
    unfold applyConflict. now destruct (Map_get (cc_topic c) (snd acc)). }
  unfold applyOutputs. cbn [conflicts topicIndex co_conflicts updates ko_topics
                            emptyKnowledge emptyMemory applyTopics applyMemory
                            fold_left fst snd].
  split; [apply (applyConflicts_log cs (conflicts st, topicIndex st))|].
  split; [apply (applyConflicts_get cs k (conflicts st, topicIndex st))|].
  split; [apply (applyConflicts_keys cs (conflicts st, topicIndex st))|].
  destruct (existsb (fun x => Map_has (cc_topic x) (topicIndex st)) cs) eqn:Hex;
    [exact I|].
  apply (applyConflicts_absent cs (conflicts st, topicIndex st) Hex).
Qed.

(* ------------------------------------------------------------------ *)
(** ** The people index *)


Lemma countParticipant_other idx addr k :
  addr <> k -> Map_get k (countParticipant idx addr) = Map_get k idx.
Proof.
  intros Hne. unfold countParticipant.
  destruct (String.eqb addr ""); [reflexivity|].
  destruct (Map_get addr idx); now rewrite Map_get_set_other.
Qed.


Lemma countParticipants_other k ps :
  ~ In k ps ->
  forall idx, Map_get k (fold_left countParticipant ps idx) = Map_get k idx.
Proof.
  induction ps as [|p ps IH]; intros Hnin idx; simpl; [reflexivity|].
  rewrite IH by (intros H; apply Hnin; now right).
  apply countParticipant_other. intros ->. apply Hnin. now left.
Qed.

Lemma applyIngestion_cons o outs idx :
  applyIngestion (o :: outs) idx = applyIngestion outs (countMessage idx o).
Proof. reflexivity. Qed.


Lemma applyIngestion_other k outs :
  ~ In k (flat_map participants outs) ->
  forall idx, Map_get k (applyIngestion outs idx) = Map_get k idx.
Proof.
  induction outs as [|o outs IH]; intros Hnin idx; [reflexivity|].
  change (flat_map participants (o :: outs))
    with (participants o ++ flat_map participants outs) in Hnin.
  rewrite in_app_iff in Hnin.
  rewrite applyIngestion_cons, IH by tauto.
  unfold countMessage. apply countParticipants_other. tauto.
Qed.


Lemma applyStakeholders_cons s ss idx :
  applyStakeholders (s :: ss) idx = applyStakeholders ss (applyStakeholder idx s).
Proof. reflexivity. Qed.


(** A zero-count entry stays one under the stakeholder loop; its role is
    the one declared last. *)
Lemma applyStakeholders_present addr ss :
  forall idx role,
    Map_get addr idx = Some (zeroEntry addr role) ->
    Map_get addr (applyStakeholders ss idx)
    = Some (zeroEntry addr (fold_left (declare addr) ss role)).
Proof.
  induction ss as [|s ss IH]; intros idx role H; [exact H|].
  rewrite applyStakeholders_cons. simpl fold_left. apply IH.
  unfold applyStakeholder, declare.
  destruct (String.eqb_spec (sh_email s) addr) as [->|Hne].
  - rewrite H, Map_get_set_same. reflexivity.
  - destruct (Map_get (sh_email s) idx); now rewrite Map_get_set_other.
Qed.

(** An address the loop meets for the first time gets a zero-count
    entry. *)
Lemma applyStakeholders_absent addr s ss :
  In s ss -> sh_email s = addr ->
  forall idx,
    Map_get addr idx = None ->
    Map_get addr (applyStakeholders ss idx)
    = Some (zeroEntry addr (declaredRole addr ss)).
Proof.
  unfold declaredRole.
  induction ss as [|s' ss IH]; intros Hin Hs idx Hnone; [contradiction|].
  rewrite applyStakeholders_cons. simpl fold_left. unfold declare at 2.
  destruct (String.eqb_spec (sh_email s') addr) as [Heq|Hne].
  - apply applyStakeholders_present.
    unfold applyStakeholder. rewrite Heq, Hnone, Map_get_set_same. reflexivity.
  - destruct Hin as [->|Hin]; [contradiction|].
    apply IH; [assumption|assumption|].
    unfold applyStakeholder.
    destruct (Map_get (sh_email s') idx); now rewrite Map_get_set_other.
Qed.

Lemma declare_agreed addr (l : Level) ss :
  Forall (fun s' => sh_email s' = addr -> sh_importance s' = l) ss ->
  forall role,
    fold_left (declare addr) ss role = role
    \/ fold_left (declare addr) ss role = Some (levelString l).
Proof.
  induction 1 as [|s' ss Hs' _ IH]; intros role; [now left|].
  simpl.
  destruct (String.eqb_spec (sh_email s') addr) as [Heq|Hne].
  - assert (Hd : declare addr role s' = Some (levelString l))
      by (unfold declare; rewrite <- (Hs' Heq), Heq, String.eqb_refl;
          reflexivity).
    rewrite Hd. right.
    destruct (IH (Some (levelString l))) as [H1|H1]; exact H1.
  - assert (Hd : declare addr role s' = role).
    { unfold declare. destruct (String.eqb_spec (sh_email s') addr);
        [contradiction|reflexivity]. }
    rewrite Hd. apply IH.
Qed.

Lemma declare_keeps addr ss :
  forall role,
    (exists l, role = Some (levelString l)) ->
    exists l, fold_left (declare addr) ss role = Some (levelString l).
Proof.
  induction ss as [|s' ss IH]; intros role H; [exact H|].
  simpl. apply IH. unfold declare.
  destruct (String.eqb (sh_email s') addr); [eexists; reflexivity|exact H].
Qed.

Lemma declare_listed addr s ss :
  In s ss -> sh_email s = addr ->
  forall role, exists l, fold_left (declare addr) ss role = Some (levelString l).
Proof.
  induction ss as [|s' ss IH]; intros Hin Hs role; [contradiction|].
  simpl. destruct Hin as [->|Hin]; [|now apply IH].
  apply declare_keeps. unfold declare.
  rewrite Hs, String.eqb_refl. eexists; reflexivity.
Qed.

Lemma insertByCount_In x y l : In y (insertByCount x l) <-> y = x \/ In y l.
Proof.
  induction l as [|z l IH]; simpl.
  - intuition congruence.
  - destruct (messageCount x <? messageCount z); simpl; rewrite ?IH;
      intuition congruence.
Qed.

Lemma sortByCount_In y l : In y (sortByCount l) <-> In y l.
Proof.
  induction l as [|x l IH]; simpl; [tauto|].
  rewrite insertByCount_In, IH. intuition congruence.
Qed.

(** C10. A stakeholder whose address the people index does not hold and
    that no parsed message of the batch lists gets, when the outputs are
    applied, an entry with [messageCount = 0], no name, no topics, and as
    inferred role the importance the stakeholder stage declared for the
    address (the last one, should the stage list the address more than
    once: the loop creates the entry at the first listing, with that
    listing's importance, and later listings overwrite the role only).
    getPeople returns the entry. *)
Theorem stakeholder_only_entry_has_count_zero :
  forall (E : Env) (number : nat) (outs : list IngestionOutput)
         (knowledge : KnowledgeOutput) (stakeholder : StakeholderOutput)
         (memory : MemoryOutput) (critic : CriticOutput)
         (coordinator : CoordinatorOutput) (st : State) (s : Stakeholder),
    In s (stakeholders stakeholder) ->
    Map_get (sh_email s) (peopleIndex st) = None ->
    ~ In (sh_email s) (flat_map participants outs) ->
    let st' := applyOutputs E number outs knowledge stakeholder memory critic
                 coordinator st in
    let role := declaredRole (sh_email s) (stakeholders stakeholder) in
    let e := {| email := sh_email s; name := None; inferredRole := role;
                messageCount := 0; topics := [] |} in
    Map_get (sh_email s) (peopleIndex st') = Some e
    /\ In e (getPeople st')
    /\ (exists l, role = Some (levelString l))
    /\ (Forall (fun s' => sh_email s' = sh_email s ->
                          sh_importance s' = sh_importance s)
               (stakeholders stakeholder) ->
        role = Some (levelString (sh_importance s)))
    /\ Map_get (sh_email s)
         (applyStakeholder (applyIngestion outs (peopleIndex st)) s)
       = Some {| email := sh_email s; name := None;
                 inferredRole := Some (levelString (sh_importance s));
                 messageCount := 0; topics := [] |}.
Proof.
  intros E number outs knowledge stakeholder memory critic coordinator st s
         Hin Habs Hnot st' role e.
  assert (Hafter : Map_get (sh_email s) (applyIngestion outs (peopleIndex st))
                   = None)
    by (rewrite applyIngestion_other; assumption).
  assert (Hget : Map_get (sh_email s) (peopleIndex st') = Some e).
  { unfold st', applyOutputs; simpl.
    now apply (applyStakeholders_absent (sh_email s) s). }
  assert (Hsome : exists l, role = Some (levelString l))
    by (apply (declare_listed (sh_email s) s); [assumption|reflexivity]).
  repeat split.
  - exact Hget.
  - unfold getPeople. apply sortByCount_In. eapply Map_get_In, Hget.
  - exact Hsome.
  - intros Hall. destruct Hsome as [l Hl].
    destruct (declare_agreed _ _ _ Hall None) as [Hn|Hs]; [|exact Hs].
    unfold role, declaredRole in Hl. congruence.
  - unfold applyStakeholder. rewrite Hafter, Map_get_set_same. reflexivity.
Qed.

Lemma stakeholder_only_entry_has_count_zero_witness :
  In sampleStakeholder [sampleStakeholder]
  /\ Map_get "cy" (peopleIndex initialState) = None
  /\ ~ In "cy" (flat_map participants [sampleMessage])
  /\ Map_get "cy"
       (peopleIndex
          (applyOutputs sampleEnv 1 [sampleMessage] emptyKnowledge
             {| stakeholders := [sampleStakeholder] |} emptyMemory emptyCritic
             sampleBrief initialState))
     = Some {| email := "cy"; name := None; inferredRole := Some "high";
               messageCount := 0; topics := [] |}.
Proof.
  assert (Hin : In sampleStakeholder [sampleStakeholder]) by (now left).
  assert (Hnot : ~ In "cy" (flat_map participants [sampleMessage]))
    by (simpl; intros [H|[H|[H|[]]]]; discriminate).
  split; [exact Hin|]. split; [reflexivity|]. split; [exact Hnot|].
  exact (proj1 (stakeholder_only_entry_has_count_zero sampleEnv 1
                  [sampleMessage] emptyKnowledge
                  {| stakeholders := [sampleStakeholder] |} emptyMemory
                  emptyCritic sampleBrief initialState sampleStakeholder
                  Hin eq_refl Hnot)).
Defined.

(* ------------------------------------------------------------------ *)
(** ** The agent calls of a batch *)

Lemma ingestAll_fails caps number records :
  forall start i record e,
    nth_error records i = Some record ->
    runIngestionAgent caps record number (start + i) = Err e ->
    exists e', ingestAll caps number start records = Err e'.
Proof.
  induction records as [|r records IH]; intros start i record e Hnth Hcall.
  - destruct i; discriminate.
  - destruct i as [|i]; simpl in Hnth.
    + injection Hnth as ->. rewrite Nat.add_0_r in Hcall.
      simpl. rewrite Hcall. simpl. eauto.
    + simpl. destruct (runIngestionAgent caps r number start); simpl; [|eauto].
      destruct (IH (S start) i record e Hnth) as [e' He'].
      * replace (S start + i) with (start + S i) by lia. exact Hcall.
      * rewrite He'. simpl. eauto.
Qed.

Lemma ingestAll_reliable caps number records :
  reliable caps ->
  forall start, exists outs, ingestAll caps number start records = Ok outs.
Proof.
  intros [Hing _]. induction records as [|r records IH]; intros start; simpl.
  - eauto.
  - destruct (Hing r number start) as [o ->]. simpl.
    destruct (IH (S start)) as [outs ->]. simpl. eauto.
Qed.

Lemma reliable_pipeline caps number records st :
  reliable caps -> exists out, pipeline caps number records st = Ok out.
Proof.
  intros Hrel.
  destruct (ingestAll_reliable caps number records Hrel 0) as [outs Houts].
  destruct Hrel as (_ & Htri & Hkn & Hsh & Hmem & Hcr & Hco).
  unfold pipeline. rewrite Houts. cbn [bind].
  destruct (Htri outs number) as [t ->]. cbn [bind].
  destruct (Hkn outs number) as [k Hk].
  destruct (Hsh outs number) as [s Hs].
  destruct (Hmem (Map_values (topicIndex st)) (firstn 10 (decisionLog st)) number)
    as [mo Hm].
  unfold runIfSelected. rewrite Hk, Hs, Hm.
  destruct (ra_knowledge (runAgents t)), (ra_stakeholder (runAgents t)),
    (ra_memory (runAgents t)); cbn [bind orDefault];
    match goal with
    | |- context [runCriticAgent caps ?a ?b ?c number] =>
        destruct (Hcr a b c number) as [co Hcc]; rewrite Hcc
    end;
    destruct (ra_critic (runAgents t)); cbn [bind];
    match goal with
    | |- context [runCoordinatorAgent caps ?a ?b ?c ?d ?t number] =>
        destruct (Hco a b c d t number) as [cd Hcd]; rewrite Hcd
    end; cbn [bind]; eauto.
Qed.

(** What a successful [try] block went through. *)
Lemma pipeline_Ok_inv caps number records st out :
  pipeline caps number records st = Ok out ->
  exists rk rs rm,
    ingestAll caps number 0 records = Ok (po_ingestionOutputs out)
    /\ runTriageAgent caps (po_ingestionOutputs out) number = Ok (po_triage out)
    /\ runIfSelected (ra_knowledge (runAgents (po_triage out)))
         (runKnowledgeAgent caps (po_ingestionOutputs out) number) = Ok rk
    /\ runIfSelected (ra_stakeholder (runAgents (po_triage out)))
         (runStakeholderAgent caps (po_ingestionOutputs out) number) = Ok rs
    /\ runIfSelected (ra_memory (runAgents (po_triage out)))
         (runMemoryAgent caps (Map_values (topicIndex st))
            (firstn 10 (decisionLog st)) number) = Ok rm
    /\ po_knowledge out = orDefault rk emptyKnowledge
    /\ po_stakeholder out = orDefault rs emptyStakeholder
    /\ po_memory out = orDefault rm emptyMemory
    /\ (if ra_critic (runAgents (po_triage out))
        then runCriticAgent caps (po_knowledge out) (po_stakeholder out)
               (po_memory out) number
        else Ok emptyCritic) = Ok (po_critic out)
    /\ runCoordinatorAgent caps (po_knowledge out) (po_stakeholder out)
         (po_memory out) (po_critic out) (po_triage out) number
       = Ok (po_coordinator out).
Proof.
  unfold pipeline. intros H.
  destruct (ingestAll caps number 0 records) as [outs|] eqn:Hing;
    simpl in H; [|discriminate].
  destruct (runTriageAgent caps outs number) as [t|] eqn:Htri;
    simpl in H; [|discriminate].
  destruct (runIfSelected (ra_knowledge (runAgents t)) _) as [rk|] eqn:Hk;
    simpl in H; [|discriminate].
  destruct (runIfSelected (ra_stakeholder (runAgents t)) _) as [rs|] eqn:Hs;
    simpl in H; [|discriminate].
  destruct (runIfSelected (ra_memory (runAgents t)) _) as [rm|] eqn:Hm;
    simpl in H; [|discriminate].
  match type of H with
  | bind ?c _ = _ => destruct c as [cr|] eqn:Hc; simpl in H; [|discriminate]
  end.
  destruct (runCoordinatorAgent caps _ _ _ cr t number) as [cd|] eqn:Hd;
    simpl in H; [|discriminate].
  injection H as <-. simpl. exists rk, rs, rm. repeat split; assumption.
Qed.

Lemma callFails_pipeline caps number records st :
  callFails caps number records st ->
  exists e, pipeline caps number records st = Err e.
Proof.
  intros H. unfold pipeline.
  destruct H as [i record e Hnth Hcall
                |outs e Hing Htri
                |outs t e Hing Htri Hsel Hcall
                |outs t e Hing Htri Hsel Hcall
                |outs t e Hing Htri Hsel Hcall
                |outs t rk rs rm e Hing Htri Hk Hs Hm Hsel Hcall
                |outs t rk rs rm c e Hing Htri Hk Hs Hm Hc Hcall].
  - destruct (ingestAll_fails caps number records 0 i record e Hnth Hcall)
      as [e' ->]. cbn [bind]. eauto.
  - rewrite Hing. cbn [bind]. rewrite Htri. cbn [bind]. eauto.
  - rewrite Hing. cbn [bind]. rewrite Htri. cbn [bind].
    unfold runIfSelected at 1. rewrite Hsel, Hcall. cbn [bind]. eauto.
  - rewrite Hing. cbn [bind]. rewrite Htri. cbn [bind].
    destruct (runIfSelected (ra_knowledge (runAgents t)) _); cbn [bind]; [|eauto].
    unfold runIfSelected at 1. rewrite Hsel, Hcall. cbn [bind]. eauto.
  - rewrite Hing. cbn [bind]. rewrite Htri. cbn [bind].
    destruct (runIfSelected (ra_knowledge (runAgents t)) _); cbn [bind]; [|eauto].
    destruct (runIfSelected (ra_stakeholder (runAgents t)) _); cbn [bind]; [|eauto].
    unfold runIfSelected at 1. rewrite Hsel, Hcall. cbn [bind]. eauto.
  - rewrite Hing. cbn [bind]. rewrite Htri. cbn [bind]. rewrite Hk. cbn [bind].
    rewrite Hs. cbn [bind]. rewrite Hm. cbn [bind]. rewrite Hsel, Hcall. cbn [bind]. eauto.
  - rewrite Hing. cbn [bind]. rewrite Htri. cbn [bind]. rewrite Hk. cbn [bind].
    rewrite Hs. cbn [bind]. rewrite Hm. cbn [bind]. rewrite Hc. cbn [bind].
    rewrite Hcall. cbn [bind]. eauto.
Qed.

(* ------------------------------------------------------------------ *)
(** ** The segments of runBatch *)

Lemma splice0_app {A : Type} (x : JsNumber) (q : list A) :
  fst (splice0 x q) ++ snd (splice0 x q) = q.
Proof. unfold splice0; cbn [fst snd]. apply firstn_skipn. Qed.

Lemma length_splice0 {A : Type} (x : JsNumber) (q : list A) :
  length (fst (splice0 x q)) + length (snd (splice0 x q)) = length q.
Proof. now rewrite <- length_app, splice0_app. Qed.

Lemma deleteCount_le x len : deleteCount x len <= len.
Proof. destruct x; cbn [deleteCount]; lia. Qed.

Lemma length_fst_splice0 {A : Type} (x : JsNumber) (q : list A) :
  length (fst (splice0 x q)) = deleteCount x (length q).
Proof.
  unfold splice0; cbn [fst]. rewrite length_firstn.
  pose proof (deleteCount_le x (length q)). lia.
Qed.

Lemma truncate_integer (z : Z) : truncate (inject_Z z) = z.
Proof.
  unfold truncate. destruct (Qle_bool 0 (inject_Z z));
    [apply Qfloor_Z|apply Qceiling_Z].
Qed.

(** An integer count: [splice] takes that many elements, or all. *)
Lemma splice0_integer {A : Type} (z : Z) (q : list A) :
  splice0 (Finite (inject_Z z)) q
  = (firstn (Z.to_nat z) q, skipn (Z.to_nat z) q).
Proof.
  unfold splice0. cbn [deleteCount]. rewrite truncate_integer.
  replace (Z.to_nat (Z.max 0 z)) with (Z.to_nat z) by lia.
  destruct (Nat.le_gt_cases (Z.to_nat z) (length q)) as [Hle|Hgt].
  - now rewrite Nat.min_l.
  - rewrite Nat.min_r by lia.
    rewrite firstn_all, skipn_all.
    now rewrite firstn_all2, skipn_all2 by lia.
Qed.

(** Entering runBatch with records waiting. *)
Lemma runBatch_enter_batch E m r q :
  batchInProgress (state m) = false ->
  queue (state m) = r :: q ->
  let st := state m in
  let m' := runBatch_enter E m in
  let st' := state m' in
  frame m'
    = Some {| batchNumber := batches (status st) + 1;
              batch := fst (splice0 (BATCH_SIZE E) (queue st));
              batchTimestamp := clock E (clockReads st) |}
  /\ queue st' = snd (splice0 (BATCH_SIZE E) (queue st))
  /\ queued (status st') = length (queue st')
  /\ processed (status st') = processed (status st)
  /\ errors (status st') = errors (status st)
  /\ batches (status st') = batches (status st)
  /\ ps_status (status st') = ps_status (status st)
  /\ lastBatchAt (status st') = Some (clock E (clockReads st))
  /\ batchTimer st' = batchTimer st
  /\ batchInProgress st' = true
  /\ reading m' = reading m
  /\ peopleIndex st' = peopleIndex st
  /\ topicIndex st' = topicIndex st.
Proof.
  intros Hfree Hq. cbv zeta. unfold runBatch_enter.
  rewrite Hfree, Hq. simpl. rewrite Hq. repeat split.
Qed.

(** Entering runBatch with nothing left. *)
Lemma runBatch_enter_empty E m :
  batchInProgress (state m) = false ->
  queue (state m) = [] ->
  runBatch_enter E m
  = {| state := markCompleted E (state m); reading := reading m;
       frame := frame m |}.
Proof.
  intros Hfree Hq. unfold runBatch_enter. now rewrite Hfree, Hq.
Qed.

Lemma runBatch_resume_failed E caps m f e :
  frame m = Some f ->
  pipeline caps (batchNumber f) (batch f) (state m) = Err e ->
  runBatch_resume E caps m
  = {| state := afterTry E (batchFailed (state m)); reading := reading m;
       frame := None |}.
Proof.
  intros Hf Hp. unfold runBatch_resume. now rewrite Hf, Hp.
Qed.

Lemma runBatch_resume_succeeded E caps m f out :
  frame m = Some f ->
  pipeline caps (batchNumber f) (batch f) (state m) = Ok out ->
  runBatch_resume E caps m
  = {| state := afterTry E (batchSucceeded E f out (state m));
       reading := reading m; frame := None |}.
Proof.
  intros Hf Hp. unfold runBatch_resume. now rewrite Hf, Hp.
Qed.

(** What closing a batch does to the scheduling fields, whatever the
    [try] block did to the rest. *)
Lemma afterTry_fields E st1 :
  let st' := afterTry E st1 in
  queue st' = queue st1
  /\ batchInProgress st' = false
  /\ queued (status st') = queued (status st1)
  /\ processed (status st') = processed (status st1)
  /\ errors (status st') = errors (status st1)
  /\ batches (status st') = batches (status st1)
  /\ results (status st') = results (status st1)
  /\ peopleIndex st' = peopleIndex st1
  /\ topicIndex st' = topicIndex st1
  /\ conflicts st' = conflicts st1
  /\ knowledgeUpdates st' = knowledgeUpdates st1
  /\ decisionLog st' = decisionLog st1
  /\ informationFlow st' = informationFlow st1
  /\ recommendations st' = recommendations st1
  /\ latestAgentSnapshot st' = latestAgentSnapshot st1
  /\ match queue st1 with
     | [] => ps_status (status st') = completed /\ batchTimer st' = false
     | _ :: _ => ps_status (status st') = ps_status (status st1)
                 /\ batchTimer st' = batchTimer st1
     end.
Proof.
  unfold afterTry. simpl. destruct (queue st1) eqn:Hq; simpl;
    rewrite ?Hq; repeat split.
Qed.

(* ------------------------------------------------------------------ *)
(** ** Runs *)

Lemma batchFailed_fields st :
  let st' := batchFailed st in
  queue st' = queue st
  /\ queued (status st') = queued (status st)
  /\ processed (status st') = processed (status st)
  /\ errors (status st') = errors (status st) + 1
  /\ batches (status st') = batches (status st)
  /\ results (status st') = results (status st)
  /\ ps_status (status st') = ps_status (status st)
  /\ batchTimer st' = batchTimer st
  /\ peopleIndex st' = peopleIndex st
  /\ topicIndex st' = topicIndex st
  /\ conflicts st' = conflicts st
  /\ knowledgeUpdates st' = knowledgeUpdates st
  /\ decisionLog st' = decisionLog st
  /\ informationFlow st' = informationFlow st
  /\ recommendations st' = recommendations st
  /\ latestAgentSnapshot st' = latestAgentSnapshot st.
Proof. simpl. repeat split. Qed.

Lemma batchSucceeded_fields E f out st :
  let st' := batchSucceeded E f out st in
  queue st' = queue st
  /\ queued (status st') = queued (status st)
  /\ processed (status st') = processed (status st) + length (batch f)
  /\ errors (status st') = errors (status st)
  /\ batches (status st') = batchNumber f
  /\ ps_status (status st') = ps_status (status st)
  /\ batchTimer st' = batchTimer st
  /\ peopleIndex st'
     = applyStakeholders (stakeholders (po_stakeholder out))
         (applyIngestion (po_ingestionOutputs out) (peopleIndex st)).
Proof. simpl. repeat split. Qed.

(** The scheduling facts of a machine after a batch closed. *)
Lemma wellFormed_afterTry E m f st1 :
  wellFormed m -> frame m = Some f ->
  queue st1 = queue (state m) ->
  queued (status st1) = queued (status (state m)) ->
  ps_status (status st1) = ps_status (status (state m)) ->
  batchTimer st1 = batchTimer (state m) ->
  wellFormed {| state := afterTry E st1; reading := reading m; frame := None |}.
Proof.
  intros (Hread & Hqd & Hfr) Hf Hq Hqd1 Hph Htm.
  rewrite Hf in Hfr. destruct Hfr as (_ & Hrun & Htimer & _).
  destruct (afterTry_fields E st1)
    as (Aq & Ain & Aqd & _ & _ & _ & _ & _ & _ & _ & _ & _ & _ & _ & _ & Aph).
  unfold wellFormed; simpl. rewrite Aq, Aqd, Ain.
  split; [exact Hread|]. split; [congruence|]. split; [reflexivity|].
  destruct (queue st1) eqn:Hq1; destruct Aph as [Ap At].
  - left. auto.
  - right. repeat split; [congruence|discriminate|congruence].
Qed.

Lemma wellFormed_resume E caps m :
  wellFormed m -> wellFormed (runBatch_resume E caps m).
Proof.
  intros Hwf. destruct (frame m) as [f|] eqn:Hf.
  - destruct (pipeline caps (batchNumber f) (batch f) (state m)) as [out|e] eqn:Hp.
    + rewrite (runBatch_resume_succeeded E caps m f out Hf Hp).
      destruct (batchSucceeded_fields E f out (state m))
        as (Bq & Bqd & _ & _ & _ & Bph & Btm & _).
      now apply (wellFormed_afterTry E m f).
    + rewrite (runBatch_resume_failed E caps m f e Hf Hp).
      destruct (batchFailed_fields (state m))
        as (Bq & Bqd & _ & _ & _ & _ & Bph & Btm & _).
      now apply (wellFormed_afterTry E m f).
  - unfold runBatch_resume. now rewrite Hf.
Qed.

Lemma wellFormed_enter E m :
  reading m = false -> frame m = None ->
  batchInProgress (state m) = false ->
  ps_status (status (state m)) = running ->
  batchTimer (state m) = true ->
  queued (status (state m)) = length (queue (state m)) ->
  wellFormed (runBatch_enter E m).
Proof.
  intros Hread Hf Hfree Hrun Htimer Hqd.
  destruct (queue (state m)) as [|r q] eqn:Hq.
  - rewrite runBatch_enter_empty by assumption.
    unfold wellFormed; simpl. rewrite Hf, Hq, Hfree. auto 10.
  - destruct (runBatch_enter_batch E m r q Hfree Hq)
      as (Ef & Eq & Eqd & _ & _ & Eb & Eph & _ & Etm & Ein & Erd & _).
    unfold wellFormed. rewrite Ef, Erd, Eqd, Ein, Eph, Etm, Eb. simpl. auto 10.
Qed.

Lemma wellFormed_tick E m : wellFormed m -> wellFormed (timerTick E m).
Proof.
  intros Hwf. unfold timerTick.
  destruct (batchTimer (state m)) eqn:Htimer; [|exact Hwf].
  destruct (batchInProgress (state m)) eqn:Hin; simpl; [exact Hwf|].
  destruct (ps_status (status (state m))) eqn:Hph; try exact Hwf.
  destruct Hwf as (Hread & Hqd & Hfr).
  destruct (frame m) as [f|] eqn:Hf; [destruct Hfr; congruence|].
  now apply wellFormed_enter.
Qed.

Lemma wellFormed_step E m ev :
  inRun ev = true -> wellFormed m -> wellFormed (step E m ev).
Proof.
  destruct ev; simpl; try discriminate; intros _ Hwf.
  - now apply wellFormed_tick.
  - now apply wellFormed_resume.
Qed.

Lemma wellFormed_exec E evs :
  forallb inRun evs = true ->
  forall m, wellFormed m -> wellFormed (exec E evs m).
Proof.
  induction evs as [|ev evs IH]; intros Hall m Hwf; [exact Hwf|].
  simpl in Hall. apply andb_prop in Hall as [Hev Hall].
  apply (IH Hall). now apply wellFormed_step.
Qed.

(** The machine that startProcessing leaves when it begins a run. *)
Lemma started_machine E m :
  atRest m ->
  let m1 := fst (startProcessing_call E m) in
  reading m1 = true /\ frame m1 = None
  /\ batchInProgress (state m1) = false
  /\ ps_status (status (state m1)) = running
  /\ queue (state m1) = []
  /\ processed (status (state m1)) = 0
  /\ errors (status (state m1)) = 0
  /\ batches (status (state m1)) = 0
  /\ peopleIndex (state m1) = []
  /\ topicIndex (state m1) = [].
Proof.
  intros (Hph & Hf & Hin). unfold startProcessing_call.
  destruct (ps_status (status (state m))); try contradiction;
    simpl; repeat split; assumption.
Qed.

(** The machine after the records of a run are loaded. *)
Lemma loaded_machine E m events rs :
  atRest m ->
  readFirstNRecords events (RECORD_LIMIT E) = Resolved rs ->
  let m2 := exec E [EvStart; EvLoaded events] m in
  wellFormed m2
  /\ queued (status (state m2)) + processed (status (state m2)) + inFlight m2
     = length rs
  /\ errors (status (state m2)) = 0
  /\ batches (status (state m2)) = 0
  /\ peopleIndex (state m2) = [].
Proof.
  intros Hrest Hread. cbv zeta.
  destruct (started_machine E m Hrest)
    as (Srd & Sf & Sin & Sph & Sq & Spr & Ser & Sb & Spe & Sto).
  change (exec E [EvStart; EvLoaded events] m)
    with (startProcessing_loaded E events (fst (startProcessing_call E m))).
  set (m1 := fst (startProcessing_call E m)) in *.
  unfold startProcessing_loaded. rewrite Srd, Hread.
  set (m1' := {| state := _; reading := false; frame := frame m1 |}).
  assert (Hq' : queue (state m1') = rs) by reflexivity.
  assert (Hfree : batchInProgress (state m1') = false) by exact Sin.
  split.
  - apply wellFormed_enter; try reflexivity; try assumption.
  - destruct rs as [|r q].
    + rewrite runBatch_enter_empty by assumption.
      unfold inFlight; simpl. rewrite Sf, Spr, Ser, Sb, Spe. auto.
    + destruct (runBatch_enter_batch E m1' r q Hfree Hq')
        as (Ef & Eq & Eqd & Epr & Eer & Eb & _ & _ & _ & _ & _ & Epe & _).
      unfold inFlight. rewrite Ef, Eqd, Eq, Epr, Eer, Eb, Epe. cbn [batch].
      rewrite Hq'. repeat split; try assumption.
      change (processed (status (state m1'))) with (processed (status (state m1))).
      rewrite Spr.
      pose proof (length_splice0 (BATCH_SIZE E) (r :: q)) as Hlen. lia.
Qed.

Lemma accounting_tick E m :
  wellFormed m ->
  let s := status (state m) in
  let s' := status (state (timerTick E m)) in
  queued s' + processed s' + inFlight (timerTick E m)
  = queued s + processed s + inFlight m.
Proof.
  intros (Hread & Hqd & Hfr). cbv zeta. unfold timerTick.
  destruct (batchTimer (state m)); [|reflexivity].
  destruct (batchInProgress (state m)) eqn:Hin; simpl; [reflexivity|].
  destruct (ps_status (status (state m))); try reflexivity.
  destruct (frame m) as [f|] eqn:Hf; [destruct Hfr; congruence|].
  destruct (queue (state m)) as [|r q] eqn:Hq.
  - rewrite runBatch_enter_empty by assumption.
    unfold inFlight; simpl. now rewrite Hf.
  - destruct (runBatch_enter_batch E m r q Hin Hq)
      as (Ef & Eq & Eqd & Epr & _).
    unfold inFlight. rewrite Ef, Eqd, Eq, Epr, Hf, Hqd. cbn [batch].
    pose proof (length_splice0 (BATCH_SIZE E) (queue (state m))) as Hlen.
    rewrite Hq in *. lia.
Qed.

Lemma accounting_resume E caps m :
  let s := status (state m) in
  let m' := runBatch_resume E caps m in
  let s' := status (state m') in
  queued s' + processed s' + inFlight m' + length (lostBy m (EvBatchDone caps))
  = queued s + processed s + inFlight m.
Proof.
  cbv zeta. unfold lostBy, inFlight at 2.
  destruct (frame m) as [f|] eqn:Hf.
  - destruct (pipeline caps (batchNumber f) (batch f) (state m)) as [out|e] eqn:Hp.
    + rewrite (runBatch_resume_succeeded E caps m f out Hf Hp).
      destruct (afterTry_fields E (batchSucceeded E f out (state m)))
        as (_ & _ & Aqd & Apr & _).
      destruct (batchSucceeded_fields E f out (state m))
        as (_ & Bqd & Bpr & _).
      unfold inFlight; simpl state; simpl frame.
      rewrite Aqd, Apr, Bqd, Bpr. simpl. lia.
    + rewrite (runBatch_resume_failed E caps m f e Hf Hp).
      destruct (afterTry_fields E (batchFailed (state m)))
        as (_ & _ & Aqd & Apr & _).
      destruct (batchFailed_fields (state m)) as (_ & Bqd & Bpr & _).
      unfold inFlight; simpl state; simpl frame.
      rewrite Aqd, Apr, Bqd, Bpr. simpl. lia.
  - unfold runBatch_resume, inFlight. rewrite Hf. simpl. rewrite Hf. lia.
Qed.

Lemma accounting_exec E evs :
  forallb inRun evs = true ->
  forall m, wellFormed m ->
    let s := status (state m) in
    let m' := exec E evs m in
    let s' := status (state m') in
    queued s' + processed s' + inFlight m' + length (lostRecords E evs m)
    = queued s + processed s + inFlight m.
Proof.
  induction evs as [|ev evs IH]; intros Hall m Hwf; cbv zeta.
  - simpl. lia.
  - simpl in Hall. apply andb_prop in Hall as [Hev Hall].
    change (exec E (ev :: evs) m) with (exec E evs (step E m ev)).
    change (lostRecords E (ev :: evs) m)
      with (lostBy m ev ++ lostRecords E evs (step E m ev)).
    rewrite length_app.
    pose proof (IH Hall (step E m ev) (wellFormed_step E m ev Hev Hwf)) as Hrest.
    cbv zeta in Hrest.
    assert (Hstep :
      queued (status (state (step E m ev)))
      + processed (status (state (step E m ev))) + inFlight (step E m ev)
      + length (lostBy m ev)
      = queued (status (state m)) + processed (status (state m)) + inFlight m).
    { destruct ev; try discriminate.
      - simpl step. unfold lostBy. simpl length.
        rewrite Nat.add_0_r. apply accounting_tick, Hwf.
      - apply accounting_resume. }
    lia.
Qed.

(** C1, as the code has it. Once the records of a run are loaded, at
    every point between two events of the run (in particular while a batch
    is in flight and after a batch failed): [queued] is the length of the
    queue, and [queued + processed], plus the records of the batch in
    flight, plus the records of the batches that failed, is the number of
    records loaded.  So [queued + processed] is the number loaded whenever
    no batch is in flight and no batch has failed. *)
Theorem queued_processed_accounting :
  forall (E : Env) (m0 : Machine) (events : list StreamEvent)
         (rs : list EmailRecord) (evs : list Event),
    atRest m0 ->
    readFirstNRecords events (RECORD_LIMIT E) = Resolved rs ->
    forallb inRun evs = true ->
    let run := EvStart :: EvLoaded events :: evs in
    let m := exec E run m0 in
    let s := status (state m) in
    queued s = length (queue (state m))
    /\ queued s + processed s + inFlight m + length (lostRecords E run m0)
       = length rs
    /\ (frame m = None -> lostRecords E run m0 = [] ->
        queued s + processed s = length rs).
Proof.
  intros E m0 events rs evs Hrest Hread Hall. cbv zeta.
  destruct (loaded_machine E m0 events rs Hrest Hread) as (Hwf & Hsum & _).
  change (exec E (EvStart :: EvLoaded events :: evs) m0)
    with (exec E evs (exec E [EvStart; EvLoaded events] m0)).
  assert (Hlost : lostRecords E (EvStart :: EvLoaded events :: evs) m0
                  = lostRecords E evs (exec E [EvStart; EvLoaded events] m0))
    by reflexivity.
  rewrite Hlost.
  set (m2 := exec E [EvStart; EvLoaded events] m0) in *.
  pose proof (accounting_exec E evs Hall m2 Hwf) as Hacc. cbv zeta in Hacc.
  pose proof (wellFormed_exec E evs Hall m2 Hwf) as (_ & Hqd & _).
  split; [exact Hqd|]. split; [lia|].
  intros Hnone Hnolost. rewrite Hnolost in Hacc. unfold inFlight in Hacc at 1.
  rewrite Hnone in Hacc. simpl in Hacc. lia.
Qed.

Lemma queued_processed_accounting_witness :
  atRest initialMachine
  /\ readFirstNRecords (sourceOf (sampleRecords 23)) (RECORD_LIMIT sampleEnv)
     = Resolved (sampleRecords 23)
  /\ forallb inRun [EvBatchDone failingCaps; EvTick] = true
  /\ (let run := EvStart :: EvLoaded (sourceOf (sampleRecords 23))
                   :: [EvBatchDone failingCaps; EvTick] in
      let m := exec sampleEnv run initialMachine in
      let s := status (state m) in
      queued s = length (queue (state m))
      /\ queued s + processed s + inFlight m
         + length (lostRecords sampleEnv run initialMachine)
         = length (sampleRecords 23)
      /\ (frame m = None -> lostRecords sampleEnv run initialMachine = [] ->
          queued s + processed s = length (sampleRecords 23))).
Proof.
  assert (Hrest : atRest initialMachine)
    by (split; [discriminate|split; reflexivity]).
  assert (Hread : readFirstNRecords (sourceOf (sampleRecords 23))
                    (RECORD_LIMIT sampleEnv) = Resolved (sampleRecords 23))
    by (vm_compute; reflexivity).
  split; [exact Hrest|]. split; [exact Hread|]. split; [reflexivity|].
  exact (queued_processed_accounting sampleEnv initialMachine
           (sourceOf (sampleRecords 23)) (sampleRecords 23)
           [EvBatchDone failingCaps; EvTick] Hrest Hread eq_refl).
Defined.

(** C1 as stated fails: of 23 records loaded, 10 are in flight in the
    first batch (13 queued, 0 processed), and when that batch fails they
    are counted in neither [queued] nor [processed]. *)
Lemma queued_plus_processed_counterexample :
  readFirstNRecords (sourceOf (sampleRecords 23)) (RECORD_LIMIT sampleEnv)
    = Resolved (sampleRecords 23)
  /\ length (sampleRecords 23) = 23
  /\ queued (status (state (sampleRun 23 []))) = 13
  /\ processed (status (state (sampleRun 23 []))) = 0
  /\ queued (status (state (sampleRun 23 [EvBatchDone failingCaps]))) = 13
  /\ processed (status (state (sampleRun 23 [EvBatchDone failingCaps]))) = 0
  /\ errors (status (state (sampleRun 23 [EvBatchDone failingCaps]))) = 1
  /\ queued (status (state (sampleRun 23 [EvBatchDone failingCaps])))
     + processed (status (state (sampleRun 23 [EvBatchDone failingCaps])))
     <> length (sampleRecords 23).
Proof.
  vm_compute. repeat split; discriminate.
Qed.

(* ------------------------------------------------------------------ *)
(** ** Message counts over a run *)













(* ------------------------------------------------------------------ *)
(** ** A batch that fails *)

Lemma wellFormed_phase m :
  wellFormed m ->
  ps_status (status (state m)) <> error
  /\ (frame m = None -> queue (state m) = [] ->
      ps_status (status (state m)) = completed).
Proof.
  intros (_ & _ & Hfr). destruct (frame m) as [f|].
  - destruct Hfr as (_ & Hrun & _). split; [congruence|discriminate].
  - destruct Hfr as (_ & [(Hc & _)|(Hr & Hq & _)]).
    + split; [congruence|auto].
    + split; [congruence|]. intros _ Hq'. contradiction.
Qed.

(** After a rejected read nothing moves until the next start. *)
Lemma rejected_run_is_over E evs :
  forallb inRun evs = true ->
  forall m, batchTimer (state m) = false -> frame m = None ->
    exec E evs m = m.
Proof.
  induction evs as [|ev evs IH]; intros Hall m Htimer Hf; [reflexivity|].
  simpl in Hall. apply andb_prop in Hall as [Hev Hall].
  assert (Hstep : step E m ev = m).
  { destruct ev; try discriminate; simpl.
    - unfold timerTick. now rewrite Htimer.
    - unfold runBatch_resume. now rewrite Hf. }
  change (exec E (ev :: evs) m) with (exec E evs (step E m ev)).
  rewrite Hstep. now apply IH.
Qed.

(** C3. When an agent call of a batch throws (the call itself or the
    validation of its answer), the batch leaves the people index, the
    topic index, the conflicts, the three logs, the recommendations and
    the snapshot as they were; [errors] grows by one, nothing is counted as
    processed and the records of the batch stay consumed.  The scheduler
    goes on: with records left the phase stays [running], the timer stays
    set and the next tick starts the next batch (under the same batch
    number); with none left the phase is [completed].  Whatever follows in
    the run, the phase is never [error], and it is [completed] whenever the
    queue is empty and no batch is in flight.  A rejected read, by
    contrast, ends the run: phase [error], the message recorded, the timer
    stopped, and no later tick or answer changes anything. *)
Theorem failed_batch_aborts_cleanly :
  forall (E : Env) (caps : Capabilities) (m : Machine) (f : BatchFrame)
         (evs : list Event),
    wellFormed m ->
    frame m = Some f ->
    callFails caps (batchNumber f) (batch f) (state m) ->
    forallb inRun evs = true ->
    let st := state m in
    let m' := runBatch_resume E caps m in
    let st' := state m' in
    (peopleIndex st' = peopleIndex st /\ topicIndex st' = topicIndex st
     /\ conflicts st' = conflicts st
     /\ knowledgeUpdates st' = knowledgeUpdates st
     /\ decisionLog st' = decisionLog st
     /\ informationFlow st' = informationFlow st
     /\ recommendations st' = recommendations st
     /\ latestAgentSnapshot st' = latestAgentSnapshot st)
    /\ (errors (status st') = errors (status st) + 1
        /\ processed (status st') = processed (status st)
        /\ batches (status st') = batches (status st)
        /\ results (status st') = results (status st)
        /\ queue st' = queue st)
    /\ (frame m' = None /\ batchInProgress st' = false)
    /\ match queue st with
       | [] => ps_status (status st') = completed /\ batchTimer st' = false
       | _ :: _ =>
           ps_status (status st') = running /\ batchTimer st' = true
           /\ option_map (fun f' => (batchNumber f', batch f'))
                (frame (timerTick E m'))
              = Some (batchNumber f,
                      fst (splice0 (BATCH_SIZE E) (queue st)))
       end
    /\ (let mN := exec E evs m' in
        ps_status (status (state mN)) <> error
        /\ (frame mN = None -> queue (state mN) = [] ->
            ps_status (status (state mN)) = completed))
    /\ (forall (mr : Machine) (events : list StreamEvent) (e0 : string),
          reading mr = true -> frame mr = None ->
          readFirstNRecords events (RECORD_LIMIT E) = Rejected e0 ->
          let mf := startProcessing_loaded E events mr in
          ps_status (status (state mf)) = error
          /\ message (status (state mf)) = Some e0
          /\ batchTimer (state mf) = false
          /\ exec E evs mf = mf).
Proof.
  intros E caps m f evs Hwf Hf Hfail Hall. cbv zeta.
  destruct (callFails_pipeline _ _ _ _ Hfail) as [e Hp].
  pose proof (wellFormed_resume E caps m Hwf) as Hwf'.
  rewrite (runBatch_resume_failed E caps m f e Hf Hp) in *.
  set (m' := {| state := afterTry E (batchFailed (state m));
                reading := reading m; frame := None |}) in *.
  destruct (afterTry_fields E (batchFailed (state m)))
    as (Aq & Ain & Aqd & Apr & Aer & Ab & Ars & Ape & Ato & Aco & Aku & Ade
        & Aif & Are & Asn & Aph).
  destruct (batchFailed_fields (state m))
    as (Bq & Bqd & Bpr & Ber & Bb & Brs & Bph & Btm & Bpe & Bto & Bco & Bku
        & Bde & Bif & Bre & Bsn).
  destruct Hwf as (Hread & Hqd & Hfr). rewrite Hf in Hfr.
  destruct Hfr as (Hin & Hrun & Htimer & Hnum).
  simpl state.
  split; [repeat split; congruence|].
  split; [repeat split; congruence|].
  split; [split; [reflexivity|exact Ain]|].
  split.
  - rewrite Bq in Aph. destruct (queue (state m)) as [|r q] eqn:Hq.
    + exact Aph.
    + destruct Aph as [Ap At].
      split; [congruence|]. split; [congruence|].
      unfold timerTick. simpl state.
      replace (batchTimer (afterTry E (batchFailed (state m)))) with true
        by congruence.
      rewrite Ain. simpl negb.
      replace (ps_status (status (afterTry E (batchFailed (state m)))))
        with running by congruence.
      assert (Hq' : queue (state m') = r :: q) by (simpl; congruence).
      destruct (runBatch_enter_batch E m' r q Ain Hq') as (Ef & _).
      rewrite Ef. simpl option_map.
      assert (H1 : batches (status (afterTry E (batchFailed (state m))))
                   = batches (status (state m))) by congruence.
      assert (H2 : queue (afterTry E (batchFailed (state m))) = r :: q)
        by congruence.
      rewrite H1, H2, Hnum. reflexivity.
  - split.
    + apply wellFormed_phase, wellFormed_exec; assumption.
    + intros mr events e0 Hrd Hfr Hrej. unfold startProcessing_loaded.
      rewrite Hrd, Hrej. simpl. repeat split.
      now apply rejected_run_is_over.
Qed.

Lemma failed_batch_aborts_cleanly_witness :
  wellFormed (sampleRun 23 [])
  /\ frame (sampleRun 23 []) = Some sampleFrame
  /\ callFails failingCaps 1 (sampleRecords 10) (state (sampleRun 23 []))
  /\ forallb inRun [EvTick] = true
  /\ errors (status (state (runBatch_resume sampleEnv failingCaps
                              (sampleRun 23 []))))
     = errors (status (state (sampleRun 23 []))) + 1.
Proof.
  assert (Hwf : wellFormed (sampleRun 23 [])).
  { unfold wellFormed. vm_compute. repeat split. }
  assert (Hf : frame (sampleRun 23 []) = Some sampleFrame)
    by (vm_compute; reflexivity).
  assert (Hfail : callFails failingCaps (batchNumber sampleFrame)
                    (batch sampleFrame) (state (sampleRun 23 []))).
  { apply (triage_fails _ _ _ _ (map (fun _ => sampleMessage) (sampleRecords 10))
             "triage unavailable"); reflexivity. }
  split; [exact Hwf|]. split; [exact Hf|]. split; [exact Hfail|].
  split; [reflexivity|].
  exact (proj1 (proj1 (proj2 (failed_batch_aborts_cleanly sampleEnv failingCaps
                                (sampleRun 23 []) sampleFrame [EvTick]
                                Hwf Hf Hfail eq_refl)))).
Defined.

(* ------------------------------------------------------------------ *)
(** ** Stages that triage did not select *)

Lemma includes_selected (sel : RunAgents) :
  includes "knowledge" (selectedListOf sel) = ra_knowledge sel
  /\ includes "stakeholder" (selectedListOf sel) = ra_stakeholder sel
  /\ includes "memory" (selectedListOf sel) = ra_memory sel
  /\ includes "critic" (selectedListOf sel) = ra_critic sel.
Proof. destruct sel as [[] [] [] []]; repeat split. Qed.

Lemma runIfSelected_skipped {A : Type} (call : Result A) (r : option A) :
  runIfSelected false call = Ok r -> r = None.
Proof. unfold runIfSelected. congruence. Qed.

Lemma listedStatus_succeeded E f out st :
  let sel := selectedListOf (runAgents (po_triage out)) in
  let st' := batchSucceeded E f out st in
  listedStatus Knowledge st' = Some (stageStatus sel "knowledge")
  /\ listedStatus StakeholderAgent st' = Some (stageStatus sel "stakeholder")
  /\ listedStatus Memory st' = Some (stageStatus sel "memory")
  /\ listedStatus Critic st' = Some (criticStatus sel (po_critic out))
  /\ listedStatus Coordinator st' = Some ran
  /\ listedStatus Ingestion st' = Some ran
  /\ listedStatus Triage st' = Some ran.
Proof. cbv zeta. repeat split. Qed.

Lemma batchSucceeded_store E f out st :
  let st' := batchSucceeded E f out st in
  let afterTopics :=
    applyTopics E (ko_topics (po_knowledge out)) (topicIndex st, clockReads st) in
  let afterMemory :=
    applyMemory E (updates (po_memory out)) (afterTopics, knowledgeUpdates st) in
  let afterCritic :=
    applyConflicts (co_conflicts (po_critic out))
      (conflicts st, fst (fst afterMemory)) in
  decisionLog st' = ko_decisions (po_knowledge out) ++ decisionLog st
  /\ knowledgeUpdates st' = snd afterMemory
  /\ conflicts st' = fst afterCritic
  /\ topicIndex st' = snd afterCritic
  /\ peopleIndex st'
     = applyStakeholders (stakeholders (po_stakeholder out))
         (applyIngestion (po_ingestionOutputs out) (peopleIndex st))
  /\ recommendations st' = Some (po_coordinator out).
Proof. cbv zeta. repeat split. Qed.

(** C7. When a batch goes through and triage did not select a stage,
    the snapshot of the batch lists the stage as [skipped], the stage
    contributes its empty default, and the step of applyOutputs that
    consumes its output changes nothing: no topic is added and the decision
    log is as before (knowledge); the people index is the one the parsed
    messages alone give (stakeholder); the topic index is not rewritten and
    the knowledge-update log is as before (memory); the conflict log is as
    before and no topic is flagged (critic).  With no stage selected the
    topic index, the conflicts and both logs are untouched, and the
    coordinator is still listed as [ran]. *)
Theorem skipped_stage_contributes_nothing :
  forall (E : Env) (caps : Capabilities) (f : BatchFrame) (st : State)
         (out : PipelineOutput),
    pipeline caps (batchNumber f) (batch f) st = Ok out ->
    let sel := runAgents (po_triage out) in
    let st' := batchSucceeded E f out st in
    let afterTopics :=
      applyTopics E (ko_topics (po_knowledge out)) (topicIndex st, clockReads st) in
    let afterMemory :=
      applyMemory E (updates (po_memory out)) (afterTopics, knowledgeUpdates st) in
    (ra_knowledge sel = false ->
       listedStatus Knowledge st' = Some skipped
       /\ po_knowledge out = emptyKnowledge
       /\ afterTopics = (topicIndex st, clockReads st)
       /\ decisionLog st' = decisionLog st)
    /\ (ra_stakeholder sel = false ->
       listedStatus StakeholderAgent st' = Some skipped
       /\ po_stakeholder out = emptyStakeholder
       /\ peopleIndex st'
          = applyIngestion (po_ingestionOutputs out) (peopleIndex st))
    /\ (ra_memory sel = false ->
       listedStatus Memory st' = Some skipped
       /\ po_memory out = emptyMemory
       /\ afterMemory = (afterTopics, knowledgeUpdates st)
       /\ knowledgeUpdates st' = knowledgeUpdates st)
    /\ (ra_critic sel = false ->
       listedStatus Critic st' = Some skipped
       /\ po_critic out = emptyCritic
       /\ conflicts st' = conflicts st
       /\ topicIndex st' = fst (fst afterMemory))
    /\ (sel = noStages ->
       topicIndex st' = topicIndex st
       /\ conflicts st' = conflicts st
       /\ knowledgeUpdates st' = knowledgeUpdates st
       /\ decisionLog st' = decisionLog st
       /\ listedStatus Coordinator st' = Some ran
       /\ recommendations st' = Some (po_coordinator out)).
Proof.
  intros E caps f st out Hp. cbv zeta.
  destruct (pipeline_Ok_inv _ _ _ _ _ Hp)
    as (rk & rs & rm & _ & _ & Hk & Hs & Hm & Ek & Es & Em & Hc & _).
  destruct (listedStatus_succeeded E f out st)
    as (Lk & Ls & Lm & Lc & Lco & _).
  destruct (includes_selected (runAgents (po_triage out)))
    as (Ik & Is & Im & Ic).
  assert (Kn : ra_knowledge (runAgents (po_triage out)) = false ->
               po_knowledge out = emptyKnowledge).
  { intros Hsel. rewrite Hsel in Hk. apply runIfSelected_skipped in Hk.
    now rewrite Ek, Hk. }
  assert (Sh : ra_stakeholder (runAgents (po_triage out)) = false ->
               po_stakeholder out = emptyStakeholder).
  { intros Hsel. rewrite Hsel in Hs. apply runIfSelected_skipped in Hs.
    now rewrite Es, Hs. }
  assert (Me : ra_memory (runAgents (po_triage out)) = false ->
               po_memory out = emptyMemory).
  { intros Hsel. rewrite Hsel in Hm. apply runIfSelected_skipped in Hm.
    now rewrite Em, Hm. }
  assert (Cr : ra_critic (runAgents (po_triage out)) = false ->
               po_critic out = emptyCritic).
  { intros Hsel. rewrite Hsel in Hc. congruence. }
  destruct (batchSucceeded_store E f out st)
    as (Bde & Bku & Bco & Bto & Bpe & Bre).
  cbv zeta in Bku, Bco, Bto.
  split; [|split; [|split; [|split]]].
  - intros Hsel. rewrite Lk, Bde. unfold stageStatus. rewrite Ik, Hsel.
    rewrite (Kn Hsel). repeat split.
  - intros Hsel. rewrite Ls, Bpe. unfold stageStatus. rewrite Is, Hsel.
    rewrite (Sh Hsel). repeat split.
  - intros Hsel. rewrite Lm, Bku. unfold stageStatus. rewrite Im, Hsel.
    rewrite (Me Hsel). repeat split.
  - intros Hsel. rewrite Lc, Bco, Bto. unfold criticStatus. rewrite Ic, Hsel.
    rewrite (Cr Hsel). repeat split.
  - intros Hno. rewrite Lco, Bde, Bku, Bco, Bto, Bre.
    assert (Hk0 : ra_knowledge (runAgents (po_triage out)) = false)
      by (now rewrite Hno).
    assert (Hm0 : ra_memory (runAgents (po_triage out)) = false)
      by (now rewrite Hno).
    assert (Hc0 : ra_critic (runAgents (po_triage out)) = false)
      by (now rewrite Hno).
    rewrite (Kn Hk0), (Me Hm0), (Cr Hc0). repeat split.
Qed.

Lemma skipped_stage_contributes_nothing_witness :
  pipeline (sampleCaps noStages) (batchNumber sampleFrame) (batch sampleFrame)
    (state (sampleRun 23 []))
  = Ok samplePlainOutput
  /\ ra_knowledge (runAgents (po_triage samplePlainOutput)) = false
  /\ listedStatus Knowledge
       (batchSucceeded sampleEnv sampleFrame samplePlainOutput
          (state (sampleRun 23 [])))
     = Some skipped.
Proof.
  assert (Hp : pipeline (sampleCaps noStages) (batchNumber sampleFrame)
                 (batch sampleFrame) (state (sampleRun 23 []))
               = Ok samplePlainOutput)
    by (vm_compute; reflexivity).
  split; [exact Hp|]. split; [reflexivity|].
  exact (proj1 (proj1 (skipped_stage_contributes_nothing sampleEnv
                         (sampleCaps noStages) sampleFrame
                         (state (sampleRun 23 [])) samplePlainOutput Hp)
                  eq_refl)).
Defined.

(* ------------------------------------------------------------------ *)
(** ** Batches of a run *)

Lemma observe_app {A : Type} E (obs : Machine -> Event -> list A) evs1 evs2 :
  forall m,
    observe E obs (evs1 ++ evs2) m
    = observe E obs evs1 m ++ observe E obs evs2 (exec E evs1 m).
Proof.
  induction evs1 as [|ev evs1 IH]; intros m; [reflexivity|].
  simpl. rewrite IH, app_assoc. reflexivity.
Qed.

Lemma exec_app E evs1 evs2 m :
  exec E (evs1 ++ evs2) m = exec E evs2 (exec E evs1 m).
Proof. unfold exec. apply fold_left_app. Qed.

(** A tick of the timer with records waiting and no batch in flight. *)
Lemma tick_starts E m r q :
  wellFormed m -> frame m = None -> queue (state m) = r :: q ->
  timerTick E m = runBatch_enter E m
  /\ batchInProgress (state m) = false.
Proof.
  intros (_ & _ & Hfr) Hf Hq. rewrite Hf in Hfr.
  destruct Hfr as (Hin & [(_ & Hq0 & _)|(Hrun & _ & Htimer)]); [congruence|].
  unfold timerTick. now rewrite Htimer, Hin, Hrun.
Qed.

(** A batch that goes through. *)
Lemma resume_ok E caps m f :
  wellFormed m -> frame m = Some f -> reliable caps ->
  let m' := runBatch_resume E caps m in
  wellFormed m' /\ frame m' = None
  /\ queue (state m') = queue (state m)
  /\ processed (status (state m'))
     = processed (status (state m)) + length (batch f)
  /\ batches (status (state m')) = batchNumber f
  /\ errors (status (state m')) = errors (status (state m)).
Proof.
  intros Hwf Hf Hrel. cbv zeta.
  pose proof (wellFormed_resume E caps m Hwf) as Hwf'.
  destruct (reliable_pipeline caps (batchNumber f) (batch f) (state m) Hrel)
    as [out Hp].
  rewrite (runBatch_resume_succeeded E caps m f out Hf Hp) in *.
  destruct (afterTry_fields E (batchSucceeded E f out (state m)))
    as (Aq & _ & _ & Apr & Aer & Ab & _).
  destruct (batchSucceeded_fields E f out (state m))
    as (Bq & _ & Bpr & Ber & Bb & _).
  split; [exact Hwf'|]. simpl state. simpl frame.
  repeat split; congruence.
Qed.

(** One tick and the batch it starts, with agents that answer. *)
Lemma round_ok E caps m r q :
  wellFormed m -> frame m = None -> queue (state m) = r :: q ->
  reliable caps ->
  let taken := fst (splice0 (BATCH_SIZE E) (r :: q)) in
  let m' := exec E [EvTick; EvBatchDone caps] m in
  wellFormed m' /\ frame m' = None
  /\ queue (state m') = snd (splice0 (BATCH_SIZE E) (r :: q))
  /\ processed (status (state m'))
     = processed (status (state m)) + length taken
  /\ batches (status (state m')) = batches (status (state m)) + 1
  /\ errors (status (state m')) = errors (status (state m))
  /\ frameSummary (batchesStarted E [EvTick; EvBatchDone caps] m)
     = [(batches (status (state m)) + 1, length taken)].
Proof.
  intros Hwf Hf Hq Hrel. cbv zeta.
  destruct (tick_starts E m r q Hwf Hf Hq) as (Htick & Hin).
  destruct (runBatch_enter_batch E m r q Hin Hq)
    as (Ef & Eq & _ & Epr & Eer & Eb & _).
  pose proof (wellFormed_tick E m Hwf) as Hwf1.
  change (exec E [EvTick; EvBatchDone caps] m)
    with (runBatch_resume E caps (timerTick E m)).
  assert (Hstarted :
    batchesStarted E [EvTick; EvBatchDone caps] m
    = startedBy E m EvTick
      ++ startedBy E (timerTick E m) (EvBatchDone caps) ++ [])
    by reflexivity.
  rewrite Hstarted. unfold startedBy. simpl step.
  rewrite Htick in *. rewrite Hf, Ef.
  destruct (resume_ok E caps (runBatch_enter E m) _ Hwf1 Ef Hrel)
    as (Hwf2 & Rf & Rq & Rpr & Rb & Rer).
  rewrite Rf. split; [exact Hwf2|].
  unfold frameSummary. cbn [map app batchNumber batch].
  cbn [batchNumber batch] in Rpr, Rb.
  rewrite Hq in *. repeat split; congruence.
Qed.

(** A source read to its end gives its records, up to the limit. *)
Lemma read_whole_source limit recs :
  readFirstNRecords (sourceOf recs) limit = Resolved (upTo (rowsKept limit) recs).
Proof.
  assert (Hrec : map (fun r => recordOf (Some (er_file r), Some (er_message r)))
                   recs = recs).
  { induction recs as [|[file msg] recs IH]; [reflexivity|].
    simpl. unfold recordOf. simpl. f_equal. exact IH. }
  unfold sourceOf.
  pose proof (read_rows_then limit
                (map (fun r => (Some (er_file r), Some (er_message r))) recs)
                ParserEnd [StreamClose]) as H.
  rewrite !map_map in H. simpl in H. rewrite Hrec in H. exact H.
Qed.

(** Start and load, then the first batch with agents that answer. *)
Lemma first_round_ok E caps m0 events r q :
  atRest m0 ->
  readFirstNRecords events (RECORD_LIMIT E) = Resolved (r :: q) ->
  reliable caps ->
  let taken := fst (splice0 (BATCH_SIZE E) (r :: q)) in
  let m' := exec E [EvStart; EvLoaded events; EvBatchDone caps] m0 in
  wellFormed m' /\ frame m' = None
  /\ queue (state m') = snd (splice0 (BATCH_SIZE E) (r :: q))
  /\ processed (status (state m')) = length taken
  /\ batches (status (state m')) = 1
  /\ errors (status (state m')) = 0
  /\ frameSummary
       (batchesStarted E [EvStart; EvLoaded events; EvBatchDone caps] m0)
     = [(1, length taken)].
Proof.
  intros Hrest Hread Hrel. cbv zeta.
  destruct (started_machine E m0 Hrest)
    as (Srd & Sf & Sin & Sph & Sq & Spr & Ser & Sb & _).
  destruct (loaded_machine E m0 events (r :: q) Hrest Hread)
    as (Hwf & _).
  assert (Hstarted :
    batchesStarted E [EvStart; EvLoaded events; EvBatchDone caps] m0
    = startedBy E m0 EvStart
      ++ startedBy E (step E m0 EvStart) (EvLoaded events)
      ++ startedBy E (exec E [EvStart; EvLoaded events] m0) (EvBatchDone caps)
      ++ [])
    by reflexivity.
  rewrite Hstarted. clear Hstarted.
  change (exec E [EvStart; EvLoaded events; EvBatchDone caps] m0)
    with (runBatch_resume E caps (exec E [EvStart; EvLoaded events] m0)).
  unfold startedBy.
  change (step E (exec E [EvStart; EvLoaded events] m0) (EvBatchDone caps))
    with (runBatch_resume E caps (exec E [EvStart; EvLoaded events] m0)).
  change (step E (step E m0 EvStart) (EvLoaded events))
    with (exec E [EvStart; EvLoaded events] m0).
  change (step E m0 EvStart) with (fst (startProcessing_call E m0)).
  destruct Hrest as (_ & Hf0 & _). rewrite Hf0, Sf.
  set (m2 := exec E [EvStart; EvLoaded events] m0) in *.
  assert (Hm2 : m2 = runBatch_enter E
                  {| state :=
                       scheduleBatches
                         (withStatus
                            (let s := status
                                        (withQueue (r :: q)
                                           (state (fst (startProcessing_call E m0)))) in
                             {| ps_status := ps_status s;
                                startedAt := startedAt s;
                                completedAt := completedAt s;
                                lastBatchAt := lastBatchAt s;
                                queued := length (r :: q);
                                processed := processed s;
                                results := results s; errors := errors s;
                                batches := batches s; message := message s |})
                            (withQueue (r :: q)
                               (state (fst (startProcessing_call E m0)))));
                     reading := false;
                     frame := frame (fst (startProcessing_call E m0)) |}).
  { unfold m2. change (exec E [EvStart; EvLoaded events] m0)
      with (startProcessing_loaded E events (fst (startProcessing_call E m0))).
    unfold startProcessing_loaded. rewrite Srd, Hread. reflexivity. }
  match type of Hm2 with _ = runBatch_enter E ?M => set (m1' := M) in * end.
  assert (Hq' : queue (state m1') = r :: q) by reflexivity.
  assert (Hfree : batchInProgress (state m1') = false) by exact Sin.
  destruct (runBatch_enter_batch E m1' r q Hfree Hq')
    as (Ef & Eq & _ & Epr & Eer & Eb & _).
  rewrite <- Hm2 in *.
  destruct (resume_ok E caps m2 _ Hwf Ef Hrel)
    as (Hwf2 & Rf & Rq & Rpr & Rb & Rer).
  rewrite Ef, Rf. simpl frameSummary.
  change (batches (status (state m1'))) with
    (batches (status (state (fst (startProcessing_call E m0))))) in *.
  change (processed (status (state m1'))) with
    (processed (status (state (fst (startProcessing_call E m0))))) in *.
  change (errors (status (state m1'))) with
    (errors (status (state (fst (startProcessing_call E m0))))) in *.
  rewrite Hq' in *. rewrite Sb, Spr, Ser in *.
  simpl batchNumber in *. cbn [batch] in *.
  split; [exact Hwf2|]. repeat split; try congruence.
  rewrite Rpr, Epr. reflexivity.
Qed.

Lemma batchesStarted_app E evs1 evs2 m :
  batchesStarted E (evs1 ++ evs2) m
  = batchesStarted E evs1 m ++ batchesStarted E evs2 (exec E evs1 m).
Proof. apply observe_app. Qed.

Lemma frameSummary_app fs1 fs2 :
  frameSummary (fs1 ++ fs2) = frameSummary fs1 ++ frameSummary fs2.
Proof. apply map_app. Qed.

(** Scenario A: 23 records, batches of 10, agents that answer. *)
Lemma scenario_A E m0 recs c1 c2 c3 :
  atRest m0 -> length recs = 23 ->
  BATCH_SIZE E = Finite 10 -> RECORD_LIMIT E = Finite 100 ->
  reliable c1 -> reliable c2 -> reliable c3 ->
  let run := [EvStart; EvLoaded (sourceOf recs); EvBatchDone c1;
              EvTick; EvBatchDone c2; EvTick; EvBatchDone c3] in
  let m := exec E run m0 in
  frameSummary (batchesStarted E run m0) = [(1, 10); (2, 10); (3, 3)]
  /\ batches (status (state m)) = 3
  /\ ps_status (status (state m)) = completed
  /\ processed (status (state m)) = 23
  /\ queued (status (state m)) = 0
  /\ errors (status (state m)) = 0
  /\ frame m = None.
Proof.
  intros Hrest Hlen Hsize Hlimit H1 H2 H3. cbv zeta.
  assert (Hread : readFirstNRecords (sourceOf recs) (RECORD_LIMIT E)
                  = Resolved recs).
  { rewrite read_whole_source, Hlimit.
    change (Finite 100) with (Finite (inject_Z 100)).
    rewrite rowsKept_integer. cbn [upTo].
    rewrite firstn_all2; [reflexivity|].
    rewrite Hlen. change (Z.to_nat 100) with 100. lia. }
  assert (Hk : forall l : list EmailRecord,
             splice0 (BATCH_SIZE E) l = (firstn 10 l, skipn 10 l)).
  { intros l. rewrite Hsize. change (Finite 10) with (Finite (inject_Z 10)).
    now rewrite splice0_integer. }
  assert (Hrun :
    [EvStart; EvLoaded (sourceOf recs); EvBatchDone c1;
     EvTick; EvBatchDone c2; EvTick; EvBatchDone c3]
    = [EvStart; EvLoaded (sourceOf recs); EvBatchDone c1]
      ++ [EvTick; EvBatchDone c2] ++ [EvTick; EvBatchDone c3])
    by reflexivity.
  rewrite Hrun. clear Hrun.
  rewrite !exec_app, !batchesStarted_app, !frameSummary_app.
  set (ma := exec E [EvStart; EvLoaded (sourceOf recs); EvBatchDone c1] m0).
  set (mb := exec E [EvTick; EvBatchDone c2] ma).
  set (mc := exec E [EvTick; EvBatchDone c3] mb).
  destruct recs as [|r q]; [discriminate|].
  destruct (first_round_ok E c1 m0 (sourceOf (r :: q)) r q Hrest Hread H1)
    as (Wa & Fa & Qa & Pa & Ba & Ea & Sa).
  fold ma in Wa, Fa, Qa, Pa, Ba, Ea.
  rewrite Hk in Qa, Pa, Sa. cbn [fst snd] in Qa, Pa, Sa.
  rewrite length_firstn, Hlen in Pa, Sa.
  assert (La : length (queue (state ma)) = 13)
    by (rewrite Qa, length_skipn, Hlen; reflexivity).
  destruct (queue (state ma)) as [|ra qa] eqn:Hqa; [discriminate|].
  destruct (round_ok E c2 ma ra qa Wa Fa Hqa H2)
    as (Wb & Fb & Qb & Pb & Bb & Eb & Sb).
  fold mb in Wb, Fb, Qb, Pb, Bb, Eb.
  rewrite Hk in Qb, Pb, Sb. cbn [fst snd] in Qb, Pb, Sb.
  rewrite length_firstn, La in Pb, Sb.
  rewrite Ba in Bb, Sb. rewrite Pa in Pb. rewrite Ea in Eb.
  assert (Lb : length (queue (state mb)) = 3)
    by (rewrite Qb, length_skipn, La; reflexivity).
  destruct (queue (state mb)) as [|rb qb] eqn:Hqb; [discriminate|].
  destruct (round_ok E c3 mb rb qb Wb Fb Hqb H3)
    as (Wc & Fc & Qc & Pc & Bc & Ec & Sc).
  fold mc in Wc, Fc, Qc, Pc, Bc, Ec.
  rewrite Hk in Qc, Pc, Sc. cbn [fst snd] in Qc, Pc, Sc.
  rewrite length_firstn, Lb in Pc, Sc.
  rewrite Bb in Bc, Sc. rewrite Pb in Pc. rewrite Eb in Ec.
  assert (Lc : length (queue (state mc)) = 0)
    by (rewrite Qc, length_skipn, Lb; reflexivity).
  assert (Hqc : queue (state mc) = [])
    by (destruct (queue (state mc)); [reflexivity|discriminate]).
  destruct (wellFormed_phase mc Wc) as (_ & Hdone).
  destruct Wc as (_ & Hqd & _).
  rewrite Sa, Sb, Sc.
  split; [reflexivity|]. split; [exact Bc|]. split; [auto|].
  split; [exact Pc|].
  split; [rewrite Hqd, Hqc; reflexivity|].
  split; [exact Ec|exact Fc].
Qed.

(** What [splice] takes fits the count it was given. *)
Lemma deleteCount_fits x len :
  deleteCount x len = 0 \/ fits (deleteCount x len) x.
Proof.
  destruct x as [q| |]; cbn [deleteCount fits]; [|now right|now left].
  unfold truncate. destruct (Qle_bool 0 q) eqn:Hq.
  - right. pose proof (Qfloor_le q) as Hfl.
    eapply Qle_trans; [|exact Hfl]. rewrite <- Zle_Qle.
    apply Qle_bool_iff in Hq. apply Qfloor_resp_le in Hq.
    change (Qfloor 0) with 0%Z in Hq. lia.
  - left. assert (Hneg : (q < 0)%Q).
    { apply Qnot_le_lt. intros H. apply Qle_bool_iff in H. congruence. }
    assert (Hc : (Qceiling q <= 0)%Z).
    { pose proof (Qceiling_resp_le q 0 (Qlt_le_weak _ _ Hneg)) as H.
      exact H. }
    lia.
Qed.

(** A count of at least 1 takes something from a queue that holds
    something; a count below 1 takes nothing. *)
Lemma deleteCount_atLeast x len :
  atLeast x 1 -> 0 < len -> 0 < deleteCount x len.
Proof.
  destruct x as [q| |]; cbn [deleteCount atLeast]; [|lia|contradiction].
  intros Hq Hlen. unfold truncate.
  assert (H0 : Qle_bool 0 q = true).
  { apply Qle_bool_iff. eapply Qle_trans; [|exact Hq]. discriminate. }
  rewrite H0. apply Qfloor_resp_le in Hq. rewrite Qfloor_Z in Hq. lia.
Qed.

Lemma deleteCount_below x len : below x 1 -> deleteCount x len = 0.
Proof.
  destruct x as [q| |]; cbn [deleteCount below]; [|contradiction|reflexivity].
  intros Hq. unfold truncate.
  assert (Hz : (Z.max 0 (if Qle_bool 0 q then Qfloor q else Qceiling q) = 0)%Z).
  { destruct (Qle_bool 0 q) eqn:H0.
    - assert (H : (Qfloor q < 1)%Z).
      { rewrite Zlt_Qlt. eapply Qle_lt_trans; [apply Qfloor_le|exact Hq]. }
      lia.
    - assert (Hneg : (q < 0)%Q).
      { apply Qnot_le_lt. intros H. apply Qle_bool_iff in H. congruence. }
      pose proof (Qceiling_resp_le q 0 (Qlt_le_weak _ _ Hneg)) as H.
      change (Qceiling 0) with 0%Z in H. lia. }
  rewrite Hz. reflexivity.
Qed.

Lemma batchesClosed_app E evs1 evs2 m :
  batchesClosed E (evs1 ++ evs2) m
  = batchesClosed E evs1 m ++ batchesClosed E evs2 (exec E evs1 m).
Proof. apply observe_app. Qed.

(** What one event of a run does to the batches: nothing, or it starts
    the next batch, or it closes the batch in flight. *)
Lemma batches_step E m ev :
  wellFormed m -> inRun ev = true ->
  let m' := step E m ev in
  (m' = m /\ startedBy E m ev = [] /\ closedBy m ev = [])
  \/ (exists f,
         frame m = None /\ frame m' = Some f
         /\ startedBy E m ev = [f] /\ closedBy m ev = []
         /\ batch f = fst (splice0 (BATCH_SIZE E) (queue (state m)))
         /\ queue (state m') = snd (splice0 (BATCH_SIZE E) (queue (state m)))
         /\ batchNumber f = batches (status (state m)) + 1
         /\ batches (status (state m')) = batches (status (state m)))
  \/ (exists f ok,
         frame m = Some f /\ frame m' = None
         /\ startedBy E m ev = [] /\ closedBy m ev = [ok]
         /\ queue (state m') = queue (state m)
         /\ batches (status (state m'))
            = batches (status (state m)) + (if ok then 1 else 0)).
Proof.
  intros Hwf Hev. cbv zeta.
  assert (Hidle : forall m1, m1 = m -> closedBy m ev = [] ->
            m1 = m
            /\ match frame m, frame m1 with
               | None, Some f => [f]
               | _, _ => []
               end = []
            /\ closedBy m ev = []).
  { intros m1 -> Hc. split; [reflexivity|]. split; [|exact Hc].
    now destruct (frame m). }
  destruct Hwf as (Hread & Hqd & Hfr).
  destruct ev as [|events| |caps]; try discriminate.
  - unfold startedBy. cbn [step].
    destruct (frame m) as [f|] eqn:Hf.
    + left. destruct Hfr as (Hin & _).
      assert (Htick : timerTick E m = m).
      { unfold timerTick. rewrite Hin. now destruct (batchTimer (state m)). }
      rewrite Htick, ?Hf. now repeat split.
    + destruct Hfr as (Hin & [(Hc & Hq0 & Ht)|(Hrun & Hq & Htimer)]).
      * left. assert (Htick : timerTick E m = m).
        { unfold timerTick. now rewrite Ht. }
        rewrite Htick, ?Hf. now repeat split.
      * right. left.
        assert (Htick : timerTick E m = runBatch_enter E m).
        { unfold timerTick. now rewrite Htimer, Hin, Hrun. }
        rewrite Htick.
        destruct (queue (state m)) as [|r q] eqn:Hq'; [contradiction|].
        destruct (runBatch_enter_batch E m r q Hin Hq')
          as (Ef & Eq & _ & _ & _ & Eb & _).
        rewrite Hq' in Ef, Eq. rewrite Ef.
        eexists. split; [reflexivity|]. split; [reflexivity|].
        split; [reflexivity|]. split; [reflexivity|].
        split; [reflexivity|]. split; [exact Eq|].
        split; [reflexivity|exact Eb].
  - unfold startedBy, closedBy. cbn [step].
    destruct (frame m) as [f|] eqn:Hf.
    + right. right. destruct Hfr as (_ & _ & _ & Hnum).
      destruct (pipeline caps (batchNumber f) (batch f) (state m))
        as [out|e] eqn:Hp.
      * rewrite (runBatch_resume_succeeded E caps m f out Hf Hp).
        destruct (afterTry_fields E (batchSucceeded E f out (state m)))
          as (Aq & _ & _ & _ & _ & Ab & _).
        destruct (batchSucceeded_fields E f out (state m))
          as (Bq & _ & _ & _ & Bb & _).
        exists f, true. cbn [frame state].
        repeat split; try congruence; try (rewrite Ab, Bb, Hnum; reflexivity).
      * rewrite (runBatch_resume_failed E caps m f e Hf Hp).
        destruct (afterTry_fields E (batchFailed (state m)))
          as (Aq & _ & _ & _ & _ & Ab & _).
        destruct (batchFailed_fields (state m))
          as (Bq & _ & _ & _ & Bb & _).
        exists f, false. cbn [frame state].
        repeat split; try congruence; try (rewrite Ab, Bb; lia).
    + left.
      assert (Hres : runBatch_resume E caps m = m)
        by (unfold runBatch_resume; now rewrite Hf).
      rewrite Hres, ?Hf. now repeat split.
Qed.

Lemma wentThrough_app a b : wentThrough (a ++ b) = wentThrough a + wentThrough b.
Proof. unfold wentThrough. now rewrite filter_app, length_app. Qed.

Lemma skipn_length_app {A : Type} (a b : list A) : skipn (length a) (a ++ b) = b.
Proof. induction a as [|x a IH]; [reflexivity|exact IH]. Qed.

(** The batches of a run, in the order they started: each takes what
    [splice] takes from the records the earlier ones left, and carries the
    number of earlier batches that went through, plus one. *)
Lemma run_batches E m0 events rs :
  atRest m0 ->
  readFirstNRecords events (RECORD_LIMIT E) = Resolved rs ->
  forall evs,
    forallb inRun evs = true ->
    let run := EvStart :: EvLoaded events :: evs in
    let m := exec E run m0 in
    let started := batchesStarted E run m0 in
    let closed := batchesClosed E run m0 in
    wellFormed m
    /\ concat (map batch started) ++ queue (state m) = rs
    /\ length started
       = length closed + match frame m with Some _ => 1 | None => 0 end
    /\ batches (status (state m)) = wentThrough closed
    /\ match frame m with
       | Some f => nth_error started (length closed) = Some f
       | None => True
       end
    /\ (forall i f,
          nth_error started i = Some f ->
          batch f
          = fst (splice0 (BATCH_SIZE E)
                   (skipn (length (concat (map batch (firstn i started)))) rs))
          /\ batchNumber f = wentThrough (firstn i closed) + 1).
Proof.
  intros Hrest Hread evs. cbv zeta.
  induction evs as [|ev evs IH] using rev_ind; intros Hall.
  - destruct (loaded_machine E m0 events rs Hrest Hread) as (Hwf & _ & _ & Hb & _).
    destruct (started_machine E m0 Hrest) as (Srd & Sf & Sin & _).
    assert (Hs : batchesStarted E [EvStart; EvLoaded events] m0
                 = match frame (exec E [EvStart; EvLoaded events] m0) with
                   | Some f => [f]
                   | None => []
                   end).
    { unfold batchesStarted. cbn [observe]. unfold startedBy.
      change (step E m0 EvStart) with (fst (startProcessing_call E m0)).
      change (step E (fst (startProcessing_call E m0)) (EvLoaded events))
        with (exec E [EvStart; EvLoaded events] m0).
      destruct Hrest as (_ & Hf0 & _). rewrite Hf0, Sf.
      now destruct (frame (exec E [EvStart; EvLoaded events] m0)). }
    assert (Hc : batchesClosed E [EvStart; EvLoaded events] m0 = [])
      by reflexivity.
    rewrite Hs, Hc, Hb.
    assert (Hm : exec E [EvStart; EvLoaded events] m0
                 = startProcessing_loaded E events
                     (fst (startProcessing_call E m0))) by reflexivity.
    set (m := exec E [EvStart; EvLoaded events] m0) in *.
    split; [exact Hwf|].
    destruct rs as [|r q].
    + assert (Hfq : frame m = None /\ queue (state m) = []).
      { rewrite Hm. unfold startProcessing_loaded. rewrite Srd, Hread.
        rewrite runBatch_enter_empty; [|exact Sin|reflexivity].
        split; [exact Sf|reflexivity]. }
      destruct Hfq as (Hf & Hq). rewrite Hf, Hq.
      split; [reflexivity|]. split; [reflexivity|]. split; [reflexivity|].
      split; [exact I|].
      intros [|i] f Hn; discriminate.
    + assert (Hfq : frame m
                    = Some {| batchNumber := 1;
                              batch := fst (splice0 (BATCH_SIZE E) (r :: q));
                              batchTimestamp :=
                                clock E
                                  (clockReads
                                     (state (fst (startProcessing_call E m0)))) |}
                    /\ queue (state m) = snd (splice0 (BATCH_SIZE E) (r :: q))).
      { rewrite Hm. unfold startProcessing_loaded. rewrite Srd, Hread.
        match goal with
        | |- context [runBatch_enter E ?M] => set (m1' := M)
        end.
        assert (Hq' : queue (state m1') = r :: q) by reflexivity.
        assert (Hfree : batchInProgress (state m1') = false) by exact Sin.
        destruct (runBatch_enter_batch E m1' r q Hfree Hq') as (Ef & Eq & _).
        rewrite Ef, Eq, Hq'. split; [|reflexivity].
        destruct (started_machine E m0 Hrest)
          as (_ & _ & _ & _ & _ & _ & _ & Sb & _).
        change (batches (status (state m1')))
          with (batches (status (state (fst (startProcessing_call E m0))))).
        rewrite Sb. reflexivity. }
      destruct Hfq as (Hf & Hq). rewrite Hf, Hq.
      cbn [map concat batch length]. rewrite app_nil_r.
      split; [apply splice0_app|]. split; [reflexivity|].
      split; [reflexivity|]. split; [reflexivity|].
      intros [|i] f Hn; [|destruct i; discriminate].
      injection Hn as <-. cbn [firstn map concat length skipn batch batchNumber].
      split; reflexivity.
  - rewrite forallb_app in Hall. apply andb_true_iff in Hall as (Hall & Hev).
    cbn [forallb] in Hev. rewrite andb_true_r in Hev.
    destruct (IH Hall) as (Hwf & Hcat & Hlen & Hb & Hlast & Hnth). clear IH.
    change (EvStart :: EvLoaded events :: evs ++ [ev])
      with ((EvStart :: EvLoaded events :: evs) ++ [ev]).
    rewrite exec_app, batchesStarted_app, batchesClosed_app.
    set (run := EvStart :: EvLoaded events :: evs) in *.
    set (m := exec E run m0) in *.
    set (S0 := batchesStarted E run m0) in *.
    set (C0 := batchesClosed E run m0) in *.
    change (exec E [ev] m) with (step E m ev).
    change (batchesStarted E [ev] m) with (startedBy E m ev ++ []).
    change (batchesClosed E [ev] m) with (closedBy m ev ++ []).
    rewrite !app_nil_r.
    split; [now apply wellFormed_step|].
    destruct (batches_step E m ev Hwf Hev)
      as [(Hm & Hs & Hc)
         |[(f & Hf & Hf' & Hs & Hc & Hbatch & Hq & Hnum & Hbs)
          |(f & ok & Hf & Hf' & Hs & Hc & Hq & Hbs)]];
      rewrite Hs, Hc, ?app_nil_r.
    + rewrite Hm. repeat split; try assumption; apply Hnth; assumption.
    + rewrite Hf in Hlen. rewrite Nat.add_0_r in Hlen.
      assert (Hqueue : queue (state m)
                       = skipn (length (concat (map batch S0))) rs).
      { rewrite <- Hcat. now rewrite skipn_length_app. }
      rewrite Hf', Hq, Hbs.
      split.
      { rewrite map_app, concat_app. cbn [map concat]. rewrite app_nil_r.
        rewrite <- app_assoc, Hbatch, splice0_app. exact Hcat. }
      split; [rewrite length_app; cbn [length]; lia|]. split; [exact Hb|].
      split.
      { rewrite nth_error_app2 by lia.
        replace (length C0 - length S0) with 0 by lia. reflexivity. }
      intros i g Hn.
      destruct (Nat.lt_ge_cases i (length S0)) as [Hlt|Hge].
      * rewrite nth_error_app1 in Hn by exact Hlt.
        rewrite firstn_app.
        replace (i - length S0) with 0 by lia.
        cbn [firstn]. rewrite app_nil_r. now apply Hnth.
      * rewrite nth_error_app2 in Hn by exact Hge.
        destruct (i - length S0) as [|k] eqn:Hk;
          [|destruct k; discriminate].
        injection Hn as <-.
        assert (Hi : i = length S0) by lia. subst i.
        rewrite firstn_app, Nat.sub_diag, firstn_all. cbn [firstn].
        rewrite app_nil_r, <- Hqueue.
        split; [exact Hbatch|].
        rewrite Hlen, firstn_all, Hnum, Hb. reflexivity.
    + rewrite Hf in Hlen. rewrite Hf', Hq, Hbs, length_app, wentThrough_app.
      cbn [length]. split; [exact Hcat|]. split; [lia|].
      split.
      { rewrite Hb. unfold wentThrough at 3. destruct ok; reflexivity. }
      split; [exact I|].
      intros i g Hn.
      assert (Hi : i < length S0).
      { apply nth_error_Some. congruence. }
      rewrite firstn_app. replace (i - length C0) with 0 by lia.
      cbn [firstn]. rewrite app_nil_r. now apply Hnth.
Qed.

(** C8 as stated fails: the number of a batch is not its place in the
    sequence of batches.  When the first batch of a run over 23 records
    throws, the second batch is stamped 1 again. *)
Lemma batch_number_reused_counterexample :
  frameSummary
    (batchesStarted sampleEnv
       [EvStart; EvLoaded (sourceOf (sampleRecords 23));
        EvBatchDone failingCaps; EvTick; EvBatchDone (sampleCaps noStages);
        EvTick; EvBatchDone (sampleCaps noStages)] initialMachine)
  = [(1, 10); (1, 10); (2, 3)]
  /\ map batchNumber
       (batchesStarted sampleEnv
          [EvStart; EvLoaded (sourceOf (sampleRecords 23));
           EvBatchDone failingCaps; EvTick; EvBatchDone (sampleCaps noStages);
           EvTick; EvBatchDone (sampleCaps noStages)] initialMachine)
     <> [1; 2; 3].
Proof.
  vm_compute. split; [reflexivity|discriminate].
Qed.

Lemma wentThrough_all closed :
  forallb (fun ok => ok) closed = true -> wentThrough closed = length closed.
Proof.
  unfold wentThrough. induction closed as [|[|] closed IH]; cbn [forallb filter length andb];
    [reflexivity| |discriminate].
  intros H. now rewrite IH.
Qed.

Lemma wentThrough_firstn_S closed :
  forall i ok,
    nth_error closed i = Some ok ->
    wentThrough (firstn (S i) closed)
    = wentThrough (firstn i closed) + (if ok then 1 else 0).
Proof.
  induction closed as [|c closed IH]; intros [|i] ok H; cbn [nth_error] in H;
    try discriminate.
  - injection H as ->. cbn [firstn]. unfold wentThrough.
    destruct ok; reflexivity.
  - change (firstn (S (S i)) (c :: closed)) with ([c] ++ firstn (S i) closed).
    change (firstn (S i) (c :: closed)) with ([c] ++ firstn i closed).
    rewrite !wentThrough_app, (IH i ok H). lia.
Qed.

Lemma forallb_firstn {A : Type} (p : A -> bool) n l :
  forallb p l = true -> forallb p (firstn n l) = true.
Proof.
  revert n. induction l as [|x l IH]; intros [|n]; cbn [firstn forallb];
    try reflexivity.
  intros H. apply andb_true_iff in H as (Hx & Hl). now rewrite Hx, IH.
Qed.

(** C8. Every batch of a run takes what [queue.splice(0, BATCH_SIZE)]
    takes from the front of the queue: the batches started so far, in
    order, followed by the queue are the records that were loaded; each
    batch is cut from the records the earlier batches left and is empty or
    no longer than [BATCH_SIZE], which is 10 when the environment does not
    set it.  The first batch of the run is among them.  A batch is stamped
    the number of earlier batches of the run that went through, plus one:
    the numbers start at 1 and never decrease; the batch after one that
    went through carries the next number, the batch after one that threw
    carries the same number again; when no batch threw the numbers are 1,
    2, 3, ... in order.  [batches] is the number of batches that went
    through.  A run over 23 records with batches of 10 and agents that
    answer starts the batches 1, 2, 3 of sizes 10, 10, 3 and ends
    [completed] with [batches = 3], 23 processed and nothing queued. *)
Theorem batches_pop_front_in_order :
  forall (E : Env) (m0 : Machine) (events : list StreamEvent)
         (rs : list EmailRecord) (evs : list Event),
    atRest m0 ->
    readFirstNRecords events (RECORD_LIMIT E) = Resolved rs ->
    forallb inRun evs = true ->
    let run := EvStart :: EvLoaded events :: evs in
    let m := exec E run m0 in
    let started := batchesStarted E run m0 in
    let closed := batchesClosed E run m0 in
    concat (map batch started) ++ queue (state m) = rs
    /\ length started
       = length closed + match frame m with Some _ => 1 | None => 0 end
    /\ match frame m with
       | Some f => nth_error started (length closed) = Some f
       | None => True
       end
    /\ (forall i f,
          nth_error started i = Some f ->
          batch f
          = fst (splice0 (BATCH_SIZE E)
                   (skipn (length (concat (map batch (firstn i started)))) rs))
          /\ (length (batch f) = 0 \/ fits (length (batch f)) (BATCH_SIZE E))
          /\ batchNumber f = wentThrough (firstn i closed) + 1
          /\ 1 <= batchNumber f)
    /\ (forall i j f g,
          i <= j -> nth_error started i = Some f ->
          nth_error started j = Some g -> batchNumber f <= batchNumber g)
    /\ (forall i f g,
          nth_error started i = Some f -> nth_error started (S i) = Some g ->
          exists ok,
            nth_error closed i = Some ok
            /\ batchNumber g = batchNumber f + (if ok then 1 else 0))
    /\ (forallb (fun ok => ok) closed = true ->
        map batchNumber started = seq 1 (length started))
    /\ batches (status (state m)) = wentThrough closed
    /\ (env_BATCH_SIZE E = Unset -> BATCH_SIZE E = Finite 10)
    /\ (forall (recs : list EmailRecord) (c1 c2 c3 : Capabilities),
          length recs = 23 ->
          BATCH_SIZE E = Finite 10 -> RECORD_LIMIT E = Finite 100 ->
          reliable c1 -> reliable c2 -> reliable c3 ->
          let runA := [EvStart; EvLoaded (sourceOf recs); EvBatchDone c1;
                       EvTick; EvBatchDone c2; EvTick; EvBatchDone c3] in
          let mN := exec E runA m0 in
          frameSummary (batchesStarted E runA m0) = [(1, 10); (2, 10); (3, 3)]
          /\ batches (status (state mN)) = 3
          /\ ps_status (status (state mN)) = completed
          /\ processed (status (state mN)) = 23
          /\ queued (status (state mN)) = 0
          /\ errors (status (state mN)) = 0
          /\ frame mN = None).
Proof.
  intros E m0 events rs evs Hrest Hread Hall. cbv zeta.
  destruct (run_batches E m0 events rs Hrest Hread evs Hall)
    as (Hwf & Hcat & Hlen & Hb & Hlast & Hnth).
  set (run := EvStart :: EvLoaded events :: evs) in *.
  set (m := exec E run m0) in *.
  set (S0 := batchesStarted E run m0) in *.
  set (C0 := batchesClosed E run m0) in *.
  assert (Hin : forall i f, nth_error S0 i = Some f -> i <= length C0).
  { intros i f Hn.
    assert (i < length S0) by (apply nth_error_Some; congruence).
    destruct (frame m); lia. }
  assert (Hmono : forall i j,
             i <= j -> wentThrough (firstn i C0) <= wentThrough (firstn j C0)).
  { intros i j Hij.
    replace j with (i + (j - i)) by lia.
    rewrite <- (firstn_skipn i (firstn (i + (j - i)) C0)).
    rewrite firstn_firstn, Nat.min_l by lia.
    rewrite wentThrough_app. lia. }
  split; [exact Hcat|]. split; [exact Hlen|].
  split; [exact Hlast|].
  split.
  { intros i f Hn. destruct (Hnth i f Hn) as (Hbatch & Hnum).
    split; [exact Hbatch|]. split; [|split; [exact Hnum|lia]].
    rewrite Hbatch, length_fst_splice0. apply deleteCount_fits. }
  split.
  { intros i j f g Hij Hf Hg.
    destruct (Hnth i f Hf) as (_ & Nf). destruct (Hnth j g Hg) as (_ & Ng).
    rewrite Nf, Ng. pose proof (Hmono i j Hij). lia. }
  split.
  { intros i f g Hf Hg.
    destruct (Hnth i f Hf) as (_ & Nf). destruct (Hnth _ g Hg) as (_ & Ng).
    pose proof (Hin _ g Hg) as Hi.
    destruct (nth_error C0 i) as [ok|] eqn:Hok;
      [|apply nth_error_None in Hok; lia].
    exists ok. split; [reflexivity|].
    rewrite Nf, Ng, (wentThrough_firstn_S C0 i ok Hok). lia. }
  split.
  { intros Hok. apply nth_error_ext. intros i.
    rewrite nth_error_map.
    destruct (nth_error S0 i) as [f|] eqn:Hf; cbn [option_map].
    - destruct (Hnth i f Hf) as (_ & Nf). pose proof (Hin i f Hf) as Hi.
      assert (Hlt : i < length S0) by (apply nth_error_Some; congruence).
      rewrite nth_error_seq.
      destruct (Nat.ltb_spec i (length S0)) as [_|Hge]; [|lia].
      rewrite Nf, wentThrough_all by (now apply forallb_firstn).
      rewrite length_firstn. f_equal. lia.
    - apply nth_error_None in Hf. symmetry. apply nth_error_None.
      rewrite length_seq. exact Hf. }
  split; [exact Hb|].
  split.
  { intros Hunset. unfold BATCH_SIZE. rewrite Hunset. reflexivity. }
  intros recs c1 c2 c3. now apply scenario_A.
Qed.


Lemma batches_pop_front_in_order_witness :
  atRest initialMachine
  /\ readFirstNRecords (sourceOf (sampleRecords 23)) (RECORD_LIMIT sampleEnv)
     = Resolved (sampleRecords 23)
  /\ forallb inRun [EvBatchDone failingCaps; EvTick] = true
  /\ concat
       (map batch
          (batchesStarted sampleEnv
             (EvStart :: EvLoaded (sourceOf (sampleRecords 23))
                :: [EvBatchDone failingCaps; EvTick]) initialMachine))
     ++ queue
          (state
             (exec sampleEnv
                (EvStart :: EvLoaded (sourceOf (sampleRecords 23))
                   :: [EvBatchDone failingCaps; EvTick]) initialMachine))
     = sampleRecords 23.
Proof.
  assert (Hrest : atRest initialMachine)
    by (split; [discriminate|split; reflexivity]).
  assert (Hread : readFirstNRecords (sourceOf (sampleRecords 23))
                    (RECORD_LIMIT sampleEnv)
                  = Resolved (sampleRecords 23))
    by (vm_compute; reflexivity).
  split; [exact Hrest|]. split; [exact Hread|]. split; [reflexivity|].
  exact (proj1 (batches_pop_front_in_order sampleEnv initialMachine
                  (sourceOf (sampleRecords 23)) (sampleRecords 23)
                  [EvBatchDone failingCaps; EvTick] Hrest Hread eq_refl)).
Defined.

(* ------------------------------------------------------------------ *)
(** ** Every machine the process can reach

    The hypotheses [atRest] and [wellFormed] of the statements above hold
    of the machines that events produce from the initial one. *)

Lemma coherent_step E m ev : coherent m -> coherent (step E m ev).
Proof.
  intros [(Hrd & Hf & Hin & Htm & Hph)|[(Hrd & Hf & Hin & Htm & Hph)|Hwf]].
  - (* at rest *)
    destruct ev as [|events| |caps]; simpl.
    + right; left. unfold startProcessing_call.
      destruct Hph as [-> | ->]; simpl; auto.
    + left. unfold startProcessing_loaded. rewrite Hrd. auto 10.
    + left. unfold timerTick. rewrite Htm. auto 10.
    + left. unfold runBatch_resume. rewrite Hf. auto 10.
  - (* reading *)
    destruct ev as [|events| |caps]; simpl.
    + right; left. unfold startProcessing_call. rewrite Hph. simpl. auto.
    + unfold startProcessing_loaded. rewrite Hrd.
      destruct (readFirstNRecords events (RECORD_LIMIT E)) as [|rs|e].
      * right; left. auto.
      * right; right. apply wellFormed_enter; try assumption; reflexivity.
      * left. simpl. auto 10.
    + right; left. unfold timerTick. rewrite Htm. auto.
    + right; left. unfold runBatch_resume. rewrite Hf. auto.
  - (* in a loaded run *)
    destruct ev as [|events| |caps]; simpl.
    + destruct Hwf as (Hrd & Hqd & Hfr). unfold startProcessing_call.
      destruct (frame m) as [f|] eqn:Hf.
      * destruct Hfr as (Hin & Hrun & Htm & Hnum). rewrite Hrun. simpl.
        right; right. unfold wellFormed. rewrite Hf. auto 10.
      * destruct Hfr as (Hin & [(Hc & Hq & Htm)|(Hrun & Hq & Htm)]).
        -- rewrite Hc. simpl. right; left. auto.
        -- rewrite Hrun. simpl. right; right. unfold wellFormed.
           rewrite Hf. auto 10.
    + right; right. unfold startProcessing_loaded.
      pose proof Hwf as (Hrd & _). rewrite Hrd. exact Hwf.
    + right; right. now apply wellFormed_tick.
    + right; right. now apply wellFormed_resume.
Qed.

Lemma reachable_coherent E evs : coherent (exec E evs initialMachine).
Proof.
  assert (G : forall m, coherent m -> coherent (exec E evs m)).
  { induction evs as [|ev evs IH]; intros m Hm; [exact Hm|].
    apply IH, coherent_step, Hm. }
  apply G. left. simpl. auto 10.
Qed.

Lemma coherent_atRest m :
  coherent m -> ps_status (status (state m)) <> running -> atRest m.
Proof.
  intros [(Hrd & Hf & Hin & Htm & Hph)|[(Hrd & Hf & Hin & Htm & Hph)|Hwf]] Hnr.
  - split; [assumption|]. split; assumption.
  - contradiction.
  - destruct Hwf as (_ & _ & Hfr). destruct (frame m) as [f|] eqn:Hf.
    + destruct Hfr as (_ & Hrun & _). contradiction.
    + destruct Hfr as (Hin & _). split; [assumption|]. split; assumption.
Qed.

Lemma coherent_in_flight m f :
  coherent m -> frame m = Some f -> wellFormed m.
Proof.
  intros [(_ & Hf & _)|[(_ & Hf & _)|Hwf]] Hsome; congruence || assumption.
Qed.

(* ------------------------------------------------------------------ *)
(** ** The scenarios of the specification, on the sample inputs *)

(** Scenario B: no stage selected.  Counts still grow from parsing. *)
Example scenario_B_sample :
  let st := state (sampleRun 3 [EvBatchDone (sampleCaps noStages)]) in
  map (fun n => listedStatus n st)
    [Knowledge; StakeholderAgent; Memory; Critic; Coordinator]
  = [Some skipped; Some skipped; Some skipped; Some skipped; Some ran]
  /\ topicIndex st = [] /\ conflicts st = []
  /\ map (fun e => (email e, messageCount e)) (getPeople st)
     = [("ann", 6); ("bob", 3)].
Proof. vm_compute. repeat split. Qed.

(** Scenario C: a conflict on a topic the index does not hold. *)
Example scenario_C_sample :
  let acc := applyConflicts
               [ {| cc_topic := "hiring"; cc_description := "unclear";
                    cc_severity := low |} ]
               ([], [("budget", memoryEntry
                                  {| mu_topic := "budget"; changeType := ct_new;
                                     mu_summary := "first" |} "t0")]) in
  fst acc = [ {| c_topic := "hiring"; c_description := "unclear" |} ]
  /\ map fst (snd acc) = ["budget"]
  /\ map (fun kv => isConflicting (snd kv)) (snd acc) = [false].
Proof. vm_compute. repeat split. Qed.

(** Scenario D: the second of three batches fails. *)
Example scenario_D_sample :
  let evs := [EvBatchDone (sampleCaps noStages); EvTick;
              EvBatchDone failingCaps; EvTick;
              EvBatchDone (sampleCaps noStages)] in
  let s := status (state (sampleRun 23 evs)) in
  frameSummary
    (batchesStarted sampleEnv
       (EvStart :: EvLoaded (sourceOf (sampleRecords 23)) :: evs)
       initialMachine)
  = [(1, 10); (2, 10); (2, 3)]
  /\ (ps_status s, errors s, batches s, processed s, queued s)
     = (completed, 1, 2, 13, 0)
  /\ map (fun e => (email e, messageCount e))
       (getPeople (state (sampleRun 23 evs)))
     = [("ann", 26); ("bob", 13)].
Proof. vm_compute. repeat split. Qed.

(* ================================================================== *)
(** * Further properties of processor.ts *)

(* ------------------------------------------------------------------ *)
(** ** getPeople *)

Lemma insertByCount_sorted x l :
  StronglySorted byCountDesc l -> StronglySorted byCountDesc (insertByCount x l).
Proof.
  induction 1 as [|y l Hl IH Hy]; simpl.
  - constructor; constructor.
  - destruct (Nat.ltb_spec (messageCount x) (messageCount y)) as [Hlt|Hge].
    + constructor; [exact IH|].
      apply Forall_forall. intros z Hz. apply insertByCount_In in Hz.
      destruct Hz as [->|Hz]; [unfold byCountDesc; lia|].
      rewrite Forall_forall in Hy. now apply Hy.
    + constructor; [constructor; assumption|].
      constructor; [exact Hge|].
      rewrite Forall_forall in Hy |- *. intros z Hz.
      specialize (Hy z Hz). unfold byCountDesc in *. lia.
Qed.

Lemma insertByCount_perm x l : Permutation (insertByCount x l) (x :: l).
Proof.
  induction l as [|y l IH]; simpl; [reflexivity|].
  destruct (messageCount x <? messageCount y); [|reflexivity].
  rewrite IH. apply perm_swap.
Qed.

Lemma insertByCount_withCount c x l :
  withCount c (insertByCount x l) = withCount c (x :: l).
Proof.
  unfold withCount. induction l as [|y l IH]; [reflexivity|].
  simpl insertByCount.
  destruct (Nat.ltb_spec (messageCount x) (messageCount y)) as [Hlt|Hge];
    [|reflexivity].
  cbn [filter] in *. rewrite IH.
  destruct (Nat.eqb_spec (messageCount x) c) as [Hx|Hx];
    destruct (Nat.eqb_spec (messageCount y) c) as [Hy|Hy];
    try reflexivity.
  lia.
Qed.

Lemma getPeople_sorted_stable_aux (st : State) :
  StronglySorted byCountDesc (getPeople st)
  /\ Permutation (getPeople st) (Map_values (peopleIndex st))
  /\ forall c, withCount c (getPeople st)
               = withCount c (Map_values (peopleIndex st)).
Proof.
  unfold getPeople.
  induction (Map_values (peopleIndex st)) as [|x l (Hs & Hp & Hc)]; simpl.
  - repeat split; constructor.
  - split; [now apply insertByCount_sorted|].
    split; [rewrite insertByCount_perm; now constructor|].
    intros c. rewrite insertByCount_withCount. unfold withCount in *.
    cbn [filter]. now rewrite Hc.
Qed.

(** X1. getPeople returns the entries of the people index, each once,
    sorted by [messageCount] with the larger counts first; entries with the
    same count keep the order in which the index holds them (the order of
    first sighting). *)
Theorem getPeople_sorted_stable :
  forall (st : State) (c : nat),
    StronglySorted byCountDesc (getPeople st)
    /\ Permutation (getPeople st) (Map_values (peopleIndex st))
    /\ withCount c (getPeople st) = withCount c (Map_values (peopleIndex st)).
Proof.
  intros st c.
  destruct (getPeople_sorted_stable_aux st) as (Hs & Hp & Hc).
  repeat split; [exact Hs|exact Hp|apply Hc].
Qed.

(* ------------------------------------------------------------------ *)
(** ** readFirstNRecords: rows alone *)

Lemma lengthReaches_rowsKept n limit :
  lengthReaches n limit
  = match rowsKept limit with
    | Some k => k <=? n
    | None => false
    end.
Proof.
  rewrite lengthReaches_lengthBelow, lengthBelow_rowsKept.
  destruct (rowsKept limit) as [k|]; [|reflexivity].
  destruct (Nat.ltb_spec n k), (Nat.leb_spec k n); try reflexivity; lia.
Qed.

Lemma afterRows_state limit rows :
  forall r,
    rd_listening r = true ->
    let r' := fold_left (deliver limit) (map rawEvent rows) r in
    rd_destroyed r'
    = rd_destroyed r
      || (nonEmpty rows
          && lengthReaches (length (rd_results r) + length rows) limit).
Proof.
  induction rows as [|row rows IH]; intros r Hl; cbn [map fold_left].
  - cbv zeta. cbn [nonEmpty andb]. now rewrite orb_false_r.
  - assert (Hd : deliver limit r (rawEvent row)
                 = onData limit (fst row) (snd row) r)
      by (unfold deliver, rawEvent; rewrite Hl; reflexivity).
    cbv zeta. rewrite Hd.
    pose proof (IH (onData limit (fst row) (snd row) r) Hl) as IH'.
    cbv zeta in IH'. rewrite IH'. clear IH IH'.
    unfold onData. cbn [rd_results rd_destroyed nonEmpty andb].
    assert (Hrows : nonEmpty rows = negb (length rows =? 0))
      by (now destruct rows).
    rewrite Hrows, !lengthReaches_rowsKept, lengthBelow_rowsKept.
    destruct (rowsKept limit) as [k|].
    + destruct (Nat.ltb_spec (length (rd_results r)) k) as [Hlt|Hge];
        rewrite ?length_app; cbn [length];
        repeat match goal with
               | |- context [?a <=? ?b] => destruct (Nat.leb_spec a b)
               | |- context [?a =? 0] => destruct (Nat.eqb_spec a 0)
               end;
        cbn [negb andb]; rewrite ?orb_true_r, ?orb_false_r;
        try reflexivity; try lia.
    + now rewrite andb_false_r, !orb_false_r.
Qed.

(** X2. While the parser only hands over rows, the read stays pending (a
    source that neither ends, closes nor fails never settles the promise),
    the reader holds the first rows, as many as the limit rounded up (all
    of them for [Infinity]), and it has called [stream.destroy()] exactly
    when at least one row arrived and the rows that arrived are at least
    [limit]: at the row that reaches the limit, or at the first row when
    the limit is zero or negative. *)
Theorem rows_alone_pending_destroy_at_limit :
  forall (limit : JsNumber) (rows : list RawRow),
    readFirstNRecords (map rawEvent rows) limit = Pending
    /\ rd_results (afterRows limit rows)
       = upTo (rowsKept limit) (map recordOf rows)
    /\ rd_destroyed (afterRows limit rows)
       = nonEmpty rows && lengthReaches (length rows) limit
    /\ rd_destroyed (afterRows limit rows)
       = nonEmpty rows
         && match limit with
            | Finite q => Qle_bool q (inject_Z (Z.of_nat (length rows)))
            | PosInfinity => false
            | NegInfinity => true
            end.
Proof.
  intros limit rows. unfold readFirstNRecords, afterRows.
  destruct (deliver_rows limit rows readerInit eq_refl) as (Hres & _ & _ & Hp).
  split; [exact Hp|].
  assert (Hd : rd_destroyed
                 (fold_left (deliver limit) (map rawEvent rows) readerInit)
               = nonEmpty rows && lengthReaches (length rows) limit)
    by (now rewrite (afterRows_state limit rows readerInit eq_refl)).
  split; [|split; [exact Hd|rewrite Hd; now destruct limit]].
  rewrite Hres. cbn [readerInit rd_results length app].
  destruct (rowsKept limit); cbn [option_map upTo];
    [now rewrite Nat.sub_0_r|reflexivity].
Qed.

(* ------------------------------------------------------------------ *)
(** ** The snapshot of a batch *)

Lemma nonEmpty_length {A : Type} (l : list A) : (0 <? length l) = nonEmpty l.
Proof. now destruct l. Qed.

(** X3. The snapshot a batch leaves lists the seven agents in pipeline
    order under the batch's number, all stamped with the time the batch
    started.  Ingestion, Triage and Coordinator are always [ran]; an
    analysis stage is [ran] exactly when triage selected it; the critic is
    [conflict] exactly when it was selected and reported a conflict.  The
    decision kept for Triage, rebuilt from the list of selected names, is
    the triage decision itself, and each of the four stage names is in the
    selected list or in the skipped list according to its flag. *)
Theorem snapshot_lists_the_batch :
  forall (E : Env) (f : BatchFrame) (out : PipelineOutput) (st : State),
    let st' := batchSucceeded E f out st in
    let sel := runAgents (po_triage out) in
    option_map snap_batchNumber (latestAgentSnapshot st') = Some (batchNumber f)
    /\ option_map (fun s => map ari_name (agents s)) (latestAgentSnapshot st')
       = Some [Ingestion; Triage; Knowledge; StakeholderAgent; Memory; Critic;
               Coordinator]
    /\ option_map (fun s => map ari_timestamp (agents s)) (latestAgentSnapshot st')
       = Some (repeat (batchTimestamp f) 7)
    /\ map (fun n => listedStatus n st')
         [Ingestion; Triage; Knowledge; StakeholderAgent; Memory; Critic;
          Coordinator]
       = [Some ran; Some ran;
          Some (if ra_knowledge sel then ran else skipped);
          Some (if ra_stakeholder sel then ran else skipped);
          Some (if ra_memory sel then ran else skipped);
          Some (if ra_critic sel
                then (if nonEmpty (co_conflicts (po_critic out))
                      then conflict else ran)
                else skipped);
          Some ran]
    /\ listedOutput Triage st' = Some (TriagePayload (po_triage out))
    /\ option_map
         (fun s => map (fun n => (includes n (selectedAgents s),
                                  includes n (skippedAgents s)))
                     ["knowledge"; "stakeholder"; "memory"; "critic"])
         (latestAgentSnapshot st')
       = Some [(ra_knowledge sel, negb (ra_knowledge sel));
               (ra_stakeholder sel, negb (ra_stakeholder sel));
               (ra_memory sel, negb (ra_memory sel));
               (ra_critic sel, negb (ra_critic sel))].
Proof.
  intros E f out st. cbv zeta.
  destruct (listedStatus_succeeded E f out st)
    as (Lk & Ls & Lm & Lc & Lco & Li & Lt).
  destruct (includes_selected (runAgents (po_triage out)))
    as (Ik & Is & Im & Ic).
  split; [reflexivity|]. split; [reflexivity|]. split; [reflexivity|].
  split; [|split].
  - cbn [map]. rewrite Lk, Ls, Lm, Lc, Lco, Li, Lt.
    unfold stageStatus, criticStatus.
    rewrite Ik, Is, Im, Ic, nonEmpty_length. reflexivity.
  - unfold listedOutput, batchSucceeded, withStatus, withSnapshot.
    cbn [latestAgentSnapshot agents buildAgentSnapshot buildAgents find
         ari_name agentEqb option_map ari_output].
    rewrite Ik, Is, Im, Ic.
    destruct (po_triage out) as [[k s m c] why]. reflexivity.
  - unfold batchSucceeded, withStatus, withSnapshot.
    cbn [latestAgentSnapshot option_map selectedAgents skippedAgents
         buildAgentSnapshot].
    destruct (runAgents (po_triage out)) as [[] [] [] []]; reflexivity.
Qed.

(** X4. The timeline of the snapshot of a batch that went through opens
    with the Triage milestone and closes with the Coordinator milestone;
    between them Knowledge, Memory and Critic appear, in this order, each
    only if triage selected the stage and the stage reported something
    (a topic or a decision; an update; a conflict).  A stage that was
    skipped never has a milestone. *)
Theorem timeline_of_a_batch :
  forall (E : Env) (caps : Capabilities) (f : BatchFrame) (st : State),
    match pipeline caps (batchNumber f) (batch f) st with
    | Ok out =>
        let sel := runAgents (po_triage out) in
        option_map (fun s => map ti_label (timeline s))
          (latestAgentSnapshot (batchSucceeded E f out st))
        = Some (["Triage"]
                ++ (if ra_knowledge sel
                       && (nonEmpty (ko_topics (po_knowledge out))
                           || nonEmpty (ko_decisions (po_knowledge out)))
                    then ["Knowledge"] else [])
                ++ (if ra_memory sel && nonEmpty (updates (po_memory out))
                    then ["Memory"] else [])
                ++ (if ra_critic sel && nonEmpty (co_conflicts (po_critic out))
                    then ["Critic"] else [])
                ++ ["Coordinator"])
    | Err _ => True
    end.
Proof.
  intros E caps f st.
  destruct (pipeline caps (batchNumber f) (batch f) st) as [out|e] eqn:Hp;
    [|exact I].
  cbv zeta.
  destruct (pipeline_Ok_inv _ _ _ _ _ Hp)
    as (rk & rs & rm & _ & _ & Hk & _ & Hm & Ek & _ & Em & Hc & _).
  assert (Kn : ra_knowledge (runAgents (po_triage out)) = false ->
               po_knowledge out = emptyKnowledge).
  { intros Hsel. rewrite Hsel in Hk. apply runIfSelected_skipped in Hk.
    now rewrite Ek, Hk. }
  assert (Me : ra_memory (runAgents (po_triage out)) = false ->
               po_memory out = emptyMemory).
  { intros Hsel. rewrite Hsel in Hm. apply runIfSelected_skipped in Hm.
    now rewrite Em, Hm. }
  assert (Cr : ra_critic (runAgents (po_triage out)) = false ->
               po_critic out = emptyCritic).
  { intros Hsel. rewrite Hsel in Hc. congruence. }
  unfold batchSucceeded, withStatus, withSnapshot.
  cbn [latestAgentSnapshot option_map timeline buildAgentSnapshot].
  unfold buildTimeline. rewrite !nonEmpty_length, !map_app.
  destruct (ra_knowledge (runAgents (po_triage out)));
    [|rewrite (Kn eq_refl)];
    (destruct (ra_memory (runAgents (po_triage out)));
     [|rewrite (Me eq_refl)]);
    (destruct (ra_critic (runAgents (po_triage out)));
     [|rewrite (Cr eq_refl)]);
    cbn [andb emptyKnowledge emptyMemory emptyCritic ko_topics ko_decisions
         updates co_conflicts nonEmpty orb];
    repeat match goal with
           | |- context [if ?b then _ else _] => destruct b
           end; reflexivity.
Qed.

(* ------------------------------------------------------------------ *)
(** ** The loops of applyOutputs *)

Lemma Map_set_absent {V : Type} (k : string) (v : V) (m : JsMap V) :
  Map_get k m = None -> Map_set k v m = m ++ [(k, v)].
Proof.
  induction m as [|[k0 v0] m IH]; simpl; [reflexivity|].
  destruct (String.eqb k0 k); [discriminate|].
  intros H. now rewrite IH.
Qed.

Lemma Map_has_get {V : Type} (k : string) (m : JsMap V) :
  Map_has k m = false <-> Map_get k m = None.
Proof. unfold Map_has. destruct (Map_get k m); split; congruence. Qed.

Lemma applyTopics_cons E t ts acc :
  applyTopics E (t :: ts) acc = applyTopics E ts (addTopic E acc t).
Proof. reflexivity. Qed.

Lemma knowledge_topics_keep E ts :
  forall idx reads,
    exists added,
      fst (applyTopics E ts (idx, reads)) = idx ++ added
      /\ snd (applyTopics E ts (idx, reads)) = reads + length added.
Proof.
  induction ts as [|t ts IH]; intros idx reads.
  - exists []. simpl. now rewrite app_nil_r, Nat.add_0_r.
  - rewrite applyTopics_cons. unfold addTopic. cbn [fst snd].
    destruct (Map_has t idx) eqn:Hhas; [apply IH|].
    apply Map_has_get in Hhas.
    match goal with
    | |- context [Map_set t ?ph idx] =>
        destruct (IH (Map_set t ph idx) (S reads)) as (added & Hfst & Hsnd);
        exists ((t, ph) :: added);
        rewrite Hfst, Hsnd, (Map_set_absent t ph idx Hhas), <- app_assoc
    end.
    simpl. split; [reflexivity|lia].
Qed.

(** X5. The loop over the topics of the knowledge stage never touches an
    entry the topic index already holds: the index it leaves is the old
    one followed by the entries it added, and it reads the clock once per
    added entry.  A topic without entry that the stage names gets the
    placeholder (fixed summary, confidence 0.5, new, not conflicting),
    stamped with one of these clock readings, however often the stage
    names it; a topic the stage does not name gets nothing. *)
Theorem knowledge_topics_only_add_placeholders :
  forall (E : Env) (ts : list string) (idx : JsMap TopicIndexEntry)
         (reads : nat) (k : string),
    let acc' := applyTopics E ts (idx, reads) in
    (exists added,
        fst acc' = idx ++ added /\ snd acc' = reads + length added)
    /\ match Map_get k idx with
       | Some e => Map_get k (fst acc') = Some e
       | None =>
           if includes k ts
           then exists n,
               reads <= n < snd acc'
               /\ Map_get k (fst acc')
                  = Some {| topic := k;
                            latestSummary := "Awaiting memory classification.";
                            confidence := 0.5%Q; isNew := true;
                            isConflicting := false;
                            lastUpdatedAt := clock E n |}
           else Map_get k (fst acc') = None
       end.
Proof.
  intros E ts. induction ts as [|t ts IH]; intros idx reads k; cbv zeta.
  - simpl. split.
    + exists []. now rewrite app_nil_r, Nat.add_0_r.
    + now destruct (Map_get k idx).
  - rewrite applyTopics_cons. unfold addTopic. cbn [fst snd].
    destruct (Map_has t idx) eqn:Hhas.
    + destruct (IH idx reads k) as (Hadd & Hget). split; [exact Hadd|].
      destruct (Map_get k idx) as [e|] eqn:Hk; [exact Hget|].
      assert (Hkt : String.eqb k t = false).
      { destruct (String.eqb_spec k t) as [->|]; [|reflexivity].
        unfold Map_has in Hhas. rewrite Hk in Hhas. discriminate. }
      unfold includes in *. simpl existsb. now rewrite Hkt.
    + apply Map_has_get in Hhas.
      set (ph := {| topic := t;
                    latestSummary := "Awaiting memory classification.";
                    confidence := 0.5%Q; isNew := true;
                    isConflicting := false;
                    lastUpdatedAt := clock E reads |}).
      destruct (IH (Map_set t ph idx) (S reads) k)
        as ((added & Hfst & Hsnd) & Hget).
      split.
      * exists ((t, ph) :: added).
        rewrite Hfst, Hsnd, (Map_set_absent t ph idx Hhas), <- app_assoc.
        simpl. split; [reflexivity|lia].
      * rewrite Map_get_set in Hget.
        destruct (String.eqb_spec t k) as [Htk|Htk].
        -- subst k. rewrite Hhas.
           unfold includes. simpl existsb. rewrite String.eqb_refl. simpl.
           exists reads. split; [lia|exact Hget].
        -- destruct (Map_get k idx) as [e|]; [exact Hget|].
           unfold includes in *. simpl existsb.
           destruct (String.eqb_spec k t) as [Hkt|_]; [congruence|]. simpl.
           destruct (existsb (String.eqb k) ts); [|exact Hget].
           destruct Hget as (n & Hn & Hg). exists n. split; [lia|exact Hg].
Qed.

Lemma applyStakeholders_known addr ss :
  forall idx e,
    Map_get addr idx = Some e ->
    Map_get addr (applyStakeholders ss idx)
    = Some {| email := email e; name := name e;
              inferredRole := fold_left (declare addr) ss (inferredRole e);
              messageCount := messageCount e; topics := topics e |}.
Proof.
  induction ss as [|s ss IH]; intros idx e H.
  - simpl. rewrite H. now destruct e.
  - rewrite applyStakeholders_cons. simpl fold_left.
    unfold declare at 2.
    destruct (String.eqb_spec (sh_email s) addr) as [Heq|Hne].
    + rewrite (IH (applyStakeholder idx s)
                 {| email := email e; name := name e;
                    inferredRole := Some (levelString (sh_importance s));
                    messageCount := messageCount e; topics := topics e |});
        [reflexivity|].
      unfold applyStakeholder. rewrite Heq, H, Map_get_set_same. reflexivity.
    + apply IH. unfold applyStakeholder.
      destruct (Map_get (sh_email s) idx); now rewrite Map_get_set_other.
Qed.

(** X6. What the stakeholder loop leaves under an address.  An entry that
    was there keeps its email, name, count and topics, and its inferred
    role becomes the importance of the last stakeholder listing of the
    address (it is kept when the stage does not list the address).  An
    address without entry gets a zero-count entry if the stage lists it and
    nothing otherwise. *)
Theorem stakeholder_loop_overwrites_role_only :
  forall (ss : list Stakeholder) (idx : JsMap PersonIndexEntry) (addr : string),
    Map_get addr (applyStakeholders ss idx)
    = match Map_get addr idx with
      | Some e =>
          Some {| email := email e; name := name e;
                  inferredRole := fold_left (declare addr) ss (inferredRole e);
                  messageCount := messageCount e; topics := topics e |}
      | None =>
          if existsb (fun s => String.eqb (sh_email s) addr) ss
          then Some {| email := addr; name := None;
                       inferredRole := declaredRole addr ss;
                       messageCount := 0; topics := [] |}
          else None
      end.
Proof.
  intros ss idx addr.
  destruct (Map_get addr idx) as [e|] eqn:Hget.
  - now apply applyStakeholders_known.
  - revert idx Hget. unfold declaredRole.
    induction ss as [|s ss IH]; intros idx Hget; [exact Hget|].
    rewrite applyStakeholders_cons. simpl existsb. simpl fold_left.
    unfold declare at 2.
    destruct (String.eqb_spec (sh_email s) addr) as [Heq|Hne]; simpl.
    + rewrite (applyStakeholders_known addr ss (applyStakeholder idx s)
                 {| email := addr; name := None;
                    inferredRole := Some (levelString (sh_importance s));
                    messageCount := 0; topics := [] |});
        [reflexivity|].
      unfold applyStakeholder. rewrite Heq, Hget, Map_get_set_same.
      reflexivity.
    + apply IH. unfold applyStakeholder.
      destruct (Map_get (sh_email s) idx); now rewrite Map_get_set_other.
Qed.

(** X7. After the outputs of a batch are applied, the topic of the last
    knowledge-change event of the batch holds the entry built from that
    event, except that [isConflicting] is also true when the audit of the
    same batch reports a conflict on the topic: an event of type [new]
    together with such a conflict leaves an entry that is both new and
    conflicting. *)
Theorem topic_after_memory_and_audit :
  forall (E : Env) (number : nat) (outs : list IngestionOutput)
         (knowledge : KnowledgeOutput) (stakeholder : StakeholderOutput)
         (us : list MemoryUpdate) (u : MemoryUpdate) (critic : CriticOutput)
         (coordinator : CoordinatorOutput) (st : State),
    let st' := applyOutputs E number outs knowledge stakeholder
                 {| updates := us ++ [u] |} critic coordinator st in
    let reads := snd (applyTopics E (ko_topics knowledge)
                        (topicIndex st, clockReads st)) in
    Map_get (mu_topic u) (topicIndex st')
    = Some {| topic := mu_topic u; latestSummary := mu_summary u;
              confidence := match changeType u with
                            | ct_conflict => 0.4%Q
                            | ct_new => 0.75%Q
                            | ct_update => 0.6%Q
                            end;
              isNew := match changeType u with ct_new => true | _ => false end;
              isConflicting :=
                match changeType u with ct_conflict => true | _ => false end
                || flagged (mu_topic u) (co_conflicts critic);
              lastUpdatedAt := clock E (reads + length us) |}.
Proof.
  intros E number outs knowledge stakeholder us u critic coordinator st.
  cbv zeta. unfold applyOutputs. cbn [topicIndex updates].
  rewrite applyConflicts_get. cbn [snd].
  rewrite applyMemory_app. unfold applyMemoryUpdate at 1. cbn [fst snd].
  rewrite Map_get_set_same, applyMemory_reads. cbn [fst snd].
  unfold memoryEntry, markConflicting.
  destruct (flagged (mu_topic u) (co_conflicts critic));
    destruct (changeType u); reflexivity.
Qed.

(* ------------------------------------------------------------------ *)
(** ** What every reachable state satisfies *)

Section MapInvariants.
Context {V : Type}.
Implicit Types (k : string) (v : V) (m : JsMap V).

Lemma Map_get_pair k v m : Map_get k m = Some v -> In (k, v) m.
Proof.
  induction m as [|[k0 v0] m IH]; simpl; [discriminate|].
  destruct (String.eqb_spec k0 k) as [->|Hne]; intros H.
  - injection H as ->. now left.
  - right. now apply IH.
Qed.

Lemma Map_get_None_keys k m : Map_get k m = None -> ~ In k (map fst m).
Proof.
  induction m as [|[k0 v0] m IH]; simpl; [tauto|].
  destruct (String.eqb_spec k0 k) as [->|Hne]; [discriminate|].
  intros H [Heq|Hin]; [contradiction|]. now apply IH.
Qed.

Lemma Map_set_Forall (Q : string * V -> Prop) k v m :
  Forall Q m -> Q (k, v) -> Forall Q (Map_set k v m).
Proof.
  intros Hm Hq. induction Hm as [|[k0 v0] m H0 Hm IH]; simpl.
  - now constructor.
  - destruct (String.eqb k0 k); constructor; assumption.
Qed.

Lemma Map_set_NoDup k v m :
  NoDup (map fst m) -> NoDup (map fst (Map_set k v m)).
Proof.
  intros Hnd. destruct (Map_get k m) as [v0|] eqn:Hget.
  - now rewrite (Map_set_keys k v v0 m Hget).
  - rewrite (Map_set_absent k v m Hget), map_app. simpl.
    apply (Permutation_NoDup (l := k :: map fst m)).
    + apply Permutation_cons_append.
    + constructor; [now apply Map_get_None_keys|exact Hnd].
Qed.

Lemma Map_get_of_entry m :
  NoDup (map fst m) ->
  Forall (fun kv => Map_get (fst kv) m = Some (snd kv)) m.
Proof.
  induction m as [|[k0 v0] m IH]; intros Hnd; constructor.
  - simpl. now rewrite String.eqb_refl.
  - inversion Hnd as [|? ? Hnotin Hnd']; subst.
    specialize (IH Hnd'). rewrite Forall_forall in IH |- *.
    intros [k v] Hin. simpl.
    destruct (String.eqb_spec k0 k) as [->|Hne].
    + exfalso. apply Hnotin. apply (in_map fst) in Hin. exact Hin.
    + exact (IH (k, v) Hin).
Qed.

End MapInvariants.

Section PeopleLoops.
Variable Q : string * PersonIndexEntry -> Prop.
Hypothesis Q_sighted : forall addr, Q (addr, sightedEntry addr).
Hypothesis Q_listed : forall addr l, Q (addr, zeroEntry addr (Some (levelString l))).
Hypothesis Q_bump : forall addr e, Q (addr, e) -> Q (addr, bumpCount e).
Hypothesis Q_role : forall addr e r, Q (addr, e) -> Q (addr, withRole r e).

Lemma countParticipant_Forall idx addr :
  Forall Q idx -> Forall Q (countParticipant idx addr).
Proof.
  intros H. unfold countParticipant.
  destruct (String.eqb addr ""); [exact H|].
  destruct (Map_get addr idx) as [ex|] eqn:Hget.
  - apply Map_set_Forall; [exact H|].
    apply (Q_bump addr ex). rewrite Forall_forall in H.
    apply H, Map_get_pair, Hget.
  - apply Map_set_Forall; [exact H|apply Q_sighted].
Qed.

Lemma applyStakeholder_Forall idx s :
  Forall Q idx -> Forall Q (applyStakeholder idx s).
Proof.
  intros H. unfold applyStakeholder.
  destruct (Map_get (sh_email s) idx) as [ex|] eqn:Hget.
  - apply Map_set_Forall; [exact H|].
    apply (Q_role (sh_email s) ex). rewrite Forall_forall in H.
    apply H, Map_get_pair, Hget.
  - apply Map_set_Forall; [exact H|apply Q_listed].
Qed.

Lemma people_loops_Forall outs ss idx :
  Forall Q idx -> Forall Q (applyStakeholders ss (applyIngestion outs idx)).
Proof.
  intros H.
  assert (H1 : Forall Q (applyIngestion outs idx)).
  { revert idx H. induction outs as [|o outs IH]; intros idx H; [exact H|].
    rewrite applyIngestion_cons. apply IH. unfold countMessage.
    generalize (participants o). intros ps. revert idx H.
    induction ps as [|p ps IHp]; intros idx H; [exact H|].
    simpl. apply IHp, countParticipant_Forall, H. }
  revert H1. generalize (applyIngestion outs idx). clear idx H.
  induction ss as [|s ss IH]; intros idx H; [exact H|].
  rewrite applyStakeholders_cons. apply IH, applyStakeholder_Forall, H.
Qed.

End PeopleLoops.

Lemma people_loops_NoDup outs ss idx :
  NoDup (map fst idx) ->
  NoDup (map fst (applyStakeholders ss (applyIngestion outs idx))).
Proof.
  intros H.
  assert (H1 : NoDup (map fst (applyIngestion outs idx))).
  { revert idx H. induction outs as [|o outs IH]; intros idx H; [exact H|].
    rewrite applyIngestion_cons. apply IH. unfold countMessage.
    generalize (participants o). intros ps. revert idx H.
    induction ps as [|p ps IHp]; intros idx H; [exact H|].
    simpl. apply IHp. unfold countParticipant.
    destruct (String.eqb p ""); [exact H|].
    destruct (Map_get p idx); now apply Map_set_NoDup. }
  revert H1. generalize (applyIngestion outs idx). clear idx H.
  induction ss as [|s ss IH]; intros idx H; [exact H|].
  rewrite applyStakeholders_cons. apply IH. unfold applyStakeholder.
  destruct (Map_get (sh_email s) idx); now apply Map_set_NoDup.
Qed.

(** The topic index applyOutputs leaves. *)
Lemma applyOutputs_topicIndex E number outs k s mem c co st :
  topicIndex (applyOutputs E number outs k s mem c co st)
  = snd (applyConflicts (co_conflicts c)
           (conflicts st,
            fst (fst (applyMemory E (updates mem)
                        (applyTopics E (ko_topics k)
                           (topicIndex st, clockReads st),
                         knowledgeUpdates st))))).
Proof. reflexivity. Qed.

Section TopicLoops.
Variable E : Env.
Variable Q : string * TopicIndexEntry -> Prop.
Hypothesis Q_placeholder : forall k t, Q (k, placeholderEntry k t).
Hypothesis Q_memory : forall u t, Q (mu_topic u, memoryEntry u t).
Hypothesis Q_mark : forall k e, Q (k, e) -> Q (k, markConflicting e).

Lemma applyTopics_Forall ts :
  forall acc : TopicAcc,
    Forall Q (fst acc) -> Forall Q (fst (applyTopics E ts acc)).
Proof.
  induction ts as [|t ts IH]; intros acc H; [exact H|].
  rewrite applyTopics_cons. apply IH. unfold addTopic.
  match goal with
  | |- context [if ?b then _ else _] => destruct b eqn:Hhas
  end; cbn [fst]; [exact H|].
  apply Map_set_Forall; [exact H|apply (Q_placeholder t)].
Qed.

Lemma applyMemory_Forall us :
  forall acc : MemoryAcc,
    Forall Q (fst (fst acc)) -> Forall Q (fst (fst (applyMemory E us acc))).
Proof.
  induction us as [|u us IH]; intros acc H; [exact H|].
  rewrite applyMemory_cons. apply IH. unfold applyMemoryUpdate. cbn [fst].
  apply Map_set_Forall; [exact H|apply Q_memory].
Qed.

Lemma applyConflicts_Forall cs :
  forall acc : ConflictAcc,
    Forall Q (snd acc) -> Forall Q (snd (applyConflicts cs acc)).
Proof.
  induction cs as [|c cs IH]; intros acc H; [exact H|].
  rewrite applyConflicts_cons. apply IH. unfold applyConflict.
  destruct (Map_get (cc_topic c) (snd acc)) as [ex|] eqn:Hget; cbn [snd];
    [|exact H].
  apply Map_set_Forall; [exact H|].
  apply Q_mark. rewrite Forall_forall in H. apply H, Map_get_pair, Hget.
Qed.

Lemma topic_loops_Forall ts us cs idx reads log kus :
  Forall Q idx ->
  Forall Q (snd (applyConflicts cs
                   (log, fst (fst (applyMemory E us
                                     (applyTopics E ts (idx, reads), kus)))))).
Proof.
  intros H. apply applyConflicts_Forall. cbn [snd].
  apply applyMemory_Forall. cbn [fst]. now apply applyTopics_Forall.
Qed.

End TopicLoops.

Lemma topic_loops_NoDup E ts us cs idx reads log kus :
  NoDup (map fst idx) ->
  NoDup (map fst (snd (applyConflicts cs
                         (log, fst (fst (applyMemory E us
                                           (applyTopics E ts (idx, reads),
                                            kus))))))).
Proof.
  intros H. rewrite applyConflicts_keys. cbn [snd].
  assert (H1 : NoDup (map fst (fst (applyTopics E ts (idx, reads))))).
  { generalize (idx, reads) (H : NoDup (map fst (fst (idx, reads)))).
    clear. induction ts as [|t ts IH]; intros acc H; [exact H|].
    rewrite applyTopics_cons. apply IH. unfold addTopic.
    match goal with
    | |- context [if ?b then _ else _] => destruct b eqn:Hhas
    end; cbn [fst]; [exact H|].
    now apply Map_set_NoDup. }
  generalize (applyTopics E ts (idx, reads), kus)
             (H1 : NoDup (map fst (fst (fst (applyTopics E ts (idx, reads), kus))))).
  clear. induction us as [|u us IH]; intros acc H; [exact H|].
  rewrite applyMemory_cons. apply IH. unfold applyMemoryUpdate. cbn [fst].
  now apply Map_set_NoDup.
Qed.

Lemma sameStore_refl a : sameStore a a.
Proof. repeat split. Qed.

Lemma runBatch_enter_store E m :
  sameStore (state m) (state (runBatch_enter E m)).
Proof.
  unfold runBatch_enter. destruct (batchInProgress (state m));
    [apply sameStore_refl|].
  destruct (queue (state m)); repeat split.
Qed.

Lemma afterTry_store E st1 : sameStore st1 (afterTry E st1).
Proof.
  unfold afterTry. cbn [queue withInProgress].
  destruct (queue st1); repeat split.
Qed.

(** An event leaves the store as it is, empties it, or applies the outputs
    of one batch to it. *)
Lemma step_store E m ev :
  sameStore (state m) (state (step E m ev))
  \/ sameStore initialState (state (step E m ev))
  \/ exists number outs k s mem c co,
       sameStore (applyOutputs E number outs k s mem c co (state m))
         (state (step E m ev)).
Proof.
  destruct ev as [|events| |caps]; simpl.
  - unfold startProcessing_call.
    destruct (ps_status (status (state m)));
      try (left; apply sameStore_refl); right; left; repeat split.
  - left. unfold startProcessing_loaded.
    destruct (reading m); [|apply sameStore_refl].
    destruct (readFirstNRecords events (RECORD_LIMIT E));
      [apply sameStore_refl| |repeat split].
    match goal with
    | |- sameStore _ (state (runBatch_enter E ?M)) =>
        pose proof (runBatch_enter_store E M) as H
    end.
    exact H.
  - left. unfold timerTick.
    destruct (batchTimer (state m)); [|apply sameStore_refl].
    destruct (batchInProgress (state m)); simpl; [apply sameStore_refl|].
    destruct (ps_status (status (state m))); try apply sameStore_refl.
    apply runBatch_enter_store.
  - destruct (frame m) as [f|] eqn:Hf.
    + destruct (pipeline caps (batchNumber f) (batch f) (state m))
        as [out|e] eqn:Hp.
      * right; right.
        rewrite (runBatch_resume_succeeded E caps m f out Hf Hp).
        exists (batchNumber f), (po_ingestionOutputs out), (po_knowledge out),
          (po_stakeholder out), (po_memory out), (po_critic out),
          (po_coordinator out).
        exact (afterTry_store E (batchSucceeded E f out (state m))).
      * left. rewrite (runBatch_resume_failed E caps m f e Hf Hp).
        exact (afterTry_store E (batchFailed (state m))).
    + left. unfold runBatch_resume. rewrite Hf. apply sameStore_refl.
Qed.

(** Induction over the states the process can reach, for properties of
    the store. *)
Lemma reachable_store (P : State -> Prop) :
  (forall a b, sameStore a b -> P a -> P b) ->
  P initialState ->
  (forall E number outs k s mem c co st,
      P st -> P (applyOutputs E number outs k s mem c co st)) ->
  forall E evs, P (state (exec E evs initialMachine)).
Proof.
  intros Hsame Hinit Happly E evs.
  assert (G : forall m, P (state m) -> P (state (exec E evs m))).
  { induction evs as [|ev evs IH]; intros m Hm; [exact Hm|].
    apply IH.
    destruct (step_store E m ev)
      as [Hs|[Hs|(number & outs & k & s & mem & c & co & Hs)]].
    - exact (Hsame _ _ Hs Hm).
    - exact (Hsame _ _ Hs Hinit).
    - exact (Hsame _ _ Hs (Happly E number outs k s mem c co _ Hm)). }
  apply G. exact Hinit.
Qed.

Lemma keyedBy_values {V : Type} (key : V -> string) (m : JsMap V) :
  keyedBy key m ->
  map key (Map_values m) = map fst m
  /\ Forall (fun v => Map_get (key v) m = Some v) (Map_values m).
Proof.
  intros [Hnd Hkey]. unfold Map_values. split.
  - rewrite map_map. apply map_ext_in. intros kv Hin.
    rewrite Forall_forall in Hkey. now apply Hkey.
  - pose proof (Map_get_of_entry m Hnd) as Hget.
    rewrite Forall_forall in *. intros v Hin.
    apply in_map_iff in Hin as (kv & <- & Hin).
    rewrite (Hkey kv Hin). now apply Hget.
Qed.

Lemma store_keyed E evs :
  let st := state (exec E evs initialMachine) in
  keyedBy email (peopleIndex st) /\ keyedBy topic (topicIndex st).
Proof.
  apply (reachable_store
           (fun st => keyedBy email (peopleIndex st)
                      /\ keyedBy topic (topicIndex st))).
  - intros a b (Hp & Ht & _) H. now rewrite <- Hp, <- Ht.
  - repeat split; constructor.
  - intros E' number outs k s mem c co st [[Pn Pk] [Tn Tk]]. split; split.
    + now apply people_loops_NoDup.
    + apply people_loops_Forall; try assumption; try reflexivity.
      * intros addr e H. exact H.
      * intros addr e r H. exact H.
    + rewrite applyOutputs_topicIndex. now apply topic_loops_NoDup.
    + rewrite applyOutputs_topicIndex.
      apply topic_loops_Forall; try assumption; try reflexivity.
      intros key e H. exact H.
Qed.

(** X8. In every state the process can reach, the people index holds each
    address once and each entry under its own email, and the topic index
    holds each topic once and each entry under its own topic: getPeople
    and getTopics never return two entries for one key, and looking up the
    key of a returned entry gives that entry. *)
Theorem indexes_hold_each_key_once :
  forall (E : Env) (evs : list Event),
    let st := state (exec E evs initialMachine) in
    NoDup (map email (getPeople st))
    /\ Forall (fun e => Map_get (email e) (peopleIndex st) = Some e)
         (getPeople st)
    /\ NoDup (map topic (getTopics st))
    /\ Forall (fun e => Map_get (topic e) (topicIndex st) = Some e)
         (getTopics st).
Proof.
  intros E evs st.
  destruct (store_keyed E evs) as [Hp Ht]. fold st in Hp, Ht.
  destruct (keyedBy_values email _ Hp) as [Pk Pg].
  destruct (keyedBy_values topic _ Ht) as [Tk Tg].
  destruct Hp as [Pn _]. destruct Ht as [Tn _].
  unfold getTopics. repeat split.
  - apply (Permutation_NoDup (l := map email (Map_values (peopleIndex st)))).
    + apply Permutation_map, Permutation_sym.
      exact (proj1 (proj2 (getPeople_sorted_stable_aux st))).
    + now rewrite Pk.
  - apply Forall_forall. intros e He.
    rewrite Forall_forall in Pg. apply Pg.
    apply sortByCount_In. exact He.
  - now rewrite Tk.
  - exact Tg.
Qed.

(** X9. The code never fills in a name or a topic list: in every state
    the process can reach, every entry getPeople returns has [name = null]
    and [topics = []]. *)
Theorem people_entries_have_no_name_no_topics :
  forall (E : Env) (evs : list Event),
    Forall (fun e => name e = None /\ topics e = [])
      (getPeople (state (exec E evs initialMachine))).
Proof.
  intros E evs.
  assert (H : Forall (fun kv : string * PersonIndexEntry =>
                        name (snd kv) = None /\ topics (snd kv) = [])
                (peopleIndex (state (exec E evs initialMachine)))).
  { apply (reachable_store
             (fun st => Forall (fun kv : string * PersonIndexEntry =>
                                  name (snd kv) = None /\ topics (snd kv) = [])
                          (peopleIndex st))).
    - intros a b (Hp & _) H. now rewrite <- Hp.
    - constructor.
    - intros E' number outs k s mem c co st H.
      apply people_loops_Forall; try assumption; try (split; reflexivity).
      + intros addr e H0. exact H0.
      + intros addr e r H0. exact H0. }
  rewrite Forall_forall in *. intros e He.
  unfold getPeople in He. apply (proj1 (sortByCount_In _ _)) in He.
  unfold Map_values in He. apply in_map_iff in He as (kv & <- & Hin).
  now apply H.
Qed.

Lemma knownConfidence_bounds c :
  knownConfidence c -> (0 <= c)%Q /\ (c <= 1)%Q.
Proof.
  intros [->|[->|[->| ->]]]; split; unfold Qle; simpl; lia.
Qed.

(** X10. In every state the process can reach, the confidence of every
    entry getTopics returns is one of 0.4, 0.5, 0.6 and 0.75, hence between
    0 and 1. *)
Theorem topic_confidence_is_one_of_four :
  forall (E : Env) (evs : list Event),
    Forall (fun e => knownConfidence (confidence e)
                     /\ (0 <= confidence e)%Q /\ (confidence e <= 1)%Q)
      (getTopics (state (exec E evs initialMachine))).
Proof.
  intros E evs.
  assert (H : Forall (fun kv : string * TopicIndexEntry =>
                        knownConfidence (confidence (snd kv)))
                (topicIndex (state (exec E evs initialMachine)))).
  { apply (reachable_store
             (fun st => Forall (fun kv : string * TopicIndexEntry =>
                                  knownConfidence (confidence (snd kv)))
                          (topicIndex st))).
    - intros a b (_ & Ht & _) H. now rewrite <- Ht.
    - constructor.
    - intros E' number outs k s mem c co st H.
      rewrite applyOutputs_topicIndex.
      apply topic_loops_Forall; try assumption.
      + intros key t. right; left. reflexivity.
      + intros u t. unfold knownConfidence. simpl.
        destruct (changeType u); simpl; auto.
      + intros key e H0. exact H0. }
  rewrite Forall_forall in *. intros e He.
  unfold getTopics, Map_values in He.
  apply in_map_iff in He as (kv & <- & Hin).
  split; [now apply H|]. apply knownConfidence_bounds. now apply H.
Qed.

(** X11. Every information-flow edge getUpdates returns has intent
    [inform], in every state the process can reach: the code never writes
    [propose] or [debate]. *)
Theorem information_flow_is_always_inform :
  forall (E : Env) (evs : list Event),
    Forall (fun edge => if_intent edge = inform)
      (iu_informationFlow (getUpdates (state (exec E evs initialMachine)))).
Proof.
  intros E evs. simpl.
  apply (reachable_store
           (fun st => Forall (fun edge => if_intent edge = inform)
                        (informationFlow st))).
  - intros a b (_ & _ & _ & _ & _ & Hf & _) H. now rewrite <- Hf.
  - constructor.
  - intros E' number outs k s mem c co st H. simpl.
    apply Forall_app. split; [|exact H].
    unfold flowEdges. apply Forall_forall. intros edge Hin.
    apply in_flat_map in Hin as (entry & _ & Hin).
    apply in_map_iff in Hin as (recipient & <- & _). reflexivity.
Qed.

(* ------------------------------------------------------------------ *)
(** ** Nothing is taken away during a run *)

Lemma grows_refl a : grows a a.
Proof.
  repeat split; try (exists []; reflexivity); [|auto].
  intros k e H. exists e. split; [exact H|lia].
Qed.

Lemma grows_trans a b c : grows a b -> grows b c -> grows a c.
Proof.
  intros (P1 & T1 & (c1 & C1) & (u1 & U1) & (d1 & D1) & (f1 & F1))
         (P2 & T2 & (c2 & C2) & (u2 & U2) & (d2 & D2) & (f2 & F2)).
  repeat split.
  - intros k e H. destruct (P1 k e H) as (e1 & H1 & L1).
    destruct (P2 k e1 H1) as (e2 & H2 & L2). exists e2. split; [exact H2|lia].
  - intros k H. apply T2, T1, H.
  - exists (c2 ++ c1). now rewrite C2, C1, app_assoc.
  - exists (u2 ++ u1). now rewrite U2, U1, app_assoc.
  - exists (d2 ++ d1). now rewrite D2, D1, app_assoc.
  - exists (f2 ++ f1). now rewrite F2, F1, app_assoc.
Qed.

Lemma grows_sameStore a b : sameStore a b -> grows a b.
Proof.
  intros (Hp & Ht & Hc & Hu & Hd & Hf & _).
  repeat split; try (exists []; simpl; congruence).
  - intros k e H. exists e. rewrite <- Hp. split; [exact H|lia].
  - intros k H. now rewrite <- Ht.
Qed.

Lemma people_loops_keep outs ss k :
  forall idx e,
    Map_get k idx = Some e ->
    exists e', Map_get k (applyStakeholders ss (applyIngestion outs idx)) = Some e'
               /\ messageCount e <= messageCount e'.
Proof.
  assert (Hpart : forall ps idx e, Map_get k idx = Some e ->
            exists e', Map_get k (fold_left countParticipant ps idx) = Some e'
                       /\ messageCount e <= messageCount e').
  { induction ps as [|p ps IH]; intros idx e H.
    - exists e. split; [exact H|lia].
    - simpl.
      assert (Hstep : exists e1, Map_get k (countParticipant idx p) = Some e1
                                 /\ messageCount e <= messageCount e1).
      { unfold countParticipant. destruct (String.eqb p "").
        - exists e. split; [exact H|lia].
        - destruct (String.eqb_spec p k) as [->|Hne].
          + rewrite H, Map_get_set_same. eexists. split; [reflexivity|].
            simpl. lia.
          + exists e. split; [|lia].
            destruct (Map_get p idx); now rewrite Map_get_set_other. }
      destruct Hstep as (e1 & H1 & L1).
      destruct (IH _ e1 H1) as (e2 & H2 & L2).
      exists e2. split; [exact H2|lia]. }
  assert (Hing : forall idx e, Map_get k idx = Some e ->
            exists e', Map_get k (applyIngestion outs idx) = Some e'
                       /\ messageCount e <= messageCount e').
  { induction outs as [|o outs IH]; intros idx e H.
    - exists e. split; [exact H|lia].
    - rewrite applyIngestion_cons.
      destruct (Hpart (participants o) idx e H) as (e1 & H1 & L1).
      destruct (IH _ e1 H1) as (e2 & H2 & L2).
      exists e2. split; [exact H2|lia]. }
  intros idx e H. destruct (Hing idx e H) as (e1 & H1 & L1).
  rewrite (applyStakeholders_known k ss _ e1 H1).
  eexists. split; [reflexivity|exact L1].
Qed.

Lemma topic_loops_keep E ts us cs k idx reads log kus :
  Map_has k idx = true ->
  Map_has k (snd (applyConflicts cs
                    (log, fst (fst (applyMemory E us
                                      (applyTopics E ts (idx, reads), kus))))))
  = true.
Proof.
  intros H. unfold Map_has. rewrite applyConflicts_get. cbn [snd].
  assert (H1 : Map_has k (fst (applyTopics E ts (idx, reads))) = true).
  { destruct (knowledge_topics_keep E ts idx reads) as (added & Hfst & _).
    unfold Map_has in *. rewrite Hfst.
    destruct (Map_get k idx) as [e|] eqn:Hk; [|discriminate].
    clear -Hk. induction idx as [|[k0 v0] idx IH]; simpl in *; [discriminate|].
    destruct (String.eqb k0 k); [reflexivity|now apply IH]. }
  assert (H2 : forall (acc : MemoryAcc),
             Map_has k (fst (fst acc)) = true ->
             Map_has k (fst (fst (applyMemory E us acc))) = true).
  { clear. induction us as [|u us IH]; intros acc H; [exact H|].
    rewrite applyMemory_cons. apply IH. unfold applyMemoryUpdate. cbn [fst].
    unfold Map_has in *. rewrite Map_get_set.
    now destruct (String.eqb (mu_topic u) k). }
  specialize (H2 (applyTopics E ts (idx, reads), kus) H1).
  unfold Map_has in H2.
  now destruct (Map_get k _).
Qed.

Lemma grows_applyOutputs E number outs k s mem c co st :
  grows st (applyOutputs E number outs k s mem c co st).
Proof.
  repeat split.
  - intros key e H. now apply people_loops_keep.
  - intros key H. rewrite applyOutputs_topicIndex. now apply topic_loops_keep.
  - simpl. rewrite applyConflicts_log. eexists. reflexivity.
  - simpl. rewrite applyMemory_log. eexists. reflexivity.
  - simpl. eexists. reflexivity.
  - simpl. eexists. reflexivity.
Qed.

(** A tick or the answers of a batch never empty the store. *)
Lemma step_store_run E m ev :
  inRun ev = true ->
  sameStore (state m) (state (step E m ev))
  \/ exists number outs k s mem c co,
       sameStore (applyOutputs E number outs k s mem c co (state m))
         (state (step E m ev)).
Proof.
  intros Hev.
  destruct ev as [|events| |caps]; try discriminate; simpl.
  - left. unfold timerTick.
    destruct (batchTimer (state m)); [|apply sameStore_refl].
    destruct (batchInProgress (state m)); simpl; [apply sameStore_refl|].
    destruct (ps_status (status (state m))); try apply sameStore_refl.
    apply runBatch_enter_store.
  - destruct (frame m) as [f|] eqn:Hf.
    + destruct (pipeline caps (batchNumber f) (batch f) (state m))
        as [out|e] eqn:Hp.
      * right.
        rewrite (runBatch_resume_succeeded E caps m f out Hf Hp).
        exists (batchNumber f), (po_ingestionOutputs out), (po_knowledge out),
          (po_stakeholder out), (po_memory out), (po_critic out),
          (po_coordinator out).
        exact (afterTry_store E (batchSucceeded E f out (state m))).
      * left. rewrite (runBatch_resume_failed E caps m f e Hf Hp).
        exact (afterTry_store E (batchFailed (state m))).
    + left. unfold runBatch_resume. rewrite Hf. apply sameStore_refl.
Qed.

(** X12. During a run (ticks of the timer and answers of batches, whether
    the batches succeed or fail) nothing is taken away: an address in the
    people index stays there and its [messageCount] never decreases, a
    topic in the topic index stays there, and the conflict log, the
    knowledge-update log, the decision log and the information-flow log
    only get newer entries in front of the ones they hold. *)
Theorem run_only_adds :
  forall (E : Env) (evs : list Event) (m : Machine),
    forallb inRun evs = true ->
    grows (state m) (state (exec E evs m)).
Proof.
  intros E evs. induction evs as [|ev evs IH]; intros m Hall.
  - apply grows_refl.
  - simpl in Hall. apply andb_prop in Hall as [Hev Hall].
    change (exec E (ev :: evs) m) with (exec E evs (step E m ev)).
    apply (grows_trans _ (state (step E m ev))); [|now apply IH].
    destruct (step_store_run E m ev Hev)
      as [Hs|(number & outs & k & s & mem & c & co & Hs)].
    + now apply grows_sameStore.
    + apply (grows_trans _ (applyOutputs E number outs k s mem c co (state m))).
      * apply grows_applyOutputs.
      * now apply grows_sameStore.
Qed.

Lemma run_only_adds_witness :
  forallb inRun [EvTick; EvBatchDone (sampleCaps allStages)] = true
  /\ grows (state (sampleRun 23 [EvBatchDone (sampleCaps allStages)]))
       (state (exec sampleEnv [EvTick; EvBatchDone (sampleCaps allStages)]
                 (sampleRun 23 [EvBatchDone (sampleCaps allStages)]))).
Proof.
  split; [reflexivity|].
  exact (run_only_adds sampleEnv [EvTick; EvBatchDone (sampleCaps allStages)]
           (sampleRun 23 [EvBatchDone (sampleCaps allStages)]) eq_refl).
Defined.

(* ------------------------------------------------------------------ *)
(** ** The counters of the status *)

Lemma runBatch_enter_book E m :
  let m' := runBatch_enter E m in
  results (status (state m')) = results (status (state m))
  /\ batches (status (state m')) = batches (status (state m))
  /\ errors (status (state m')) = errors (status (state m))
  /\ knowledgeUpdates (state m') = knowledgeUpdates (state m)
  /\ latestAgentSnapshot (state m') = latestAgentSnapshot (state m)
  /\ (frame m' = frame m
      \/ exists f, frame m' = Some f
                   /\ batchNumber f = batches (status (state m)) + 1).
Proof.
  cbv zeta. unfold runBatch_enter.
  destruct (batchInProgress (state m)); [repeat split; now left|].
  destruct (queue (state m)); simpl; repeat split; try (now left).
  right. eexists. split; reflexivity.
Qed.

Lemma booked_same a b :
  results (status b) = results (status a) ->
  batches (status b) = batches (status a) ->
  knowledgeUpdates b = knowledgeUpdates a ->
  latestAgentSnapshot b = latestAgentSnapshot a ->
  booked a -> booked b.
Proof. unfold booked. intros -> -> -> ->. auto. Qed.

Lemma afterTry_book E st1 :
  results (status (afterTry E st1)) = results (status st1)
  /\ batches (status (afterTry E st1)) = batches (status st1)
  /\ knowledgeUpdates (afterTry E st1) = knowledgeUpdates st1
  /\ latestAgentSnapshot (afterTry E st1) = latestAgentSnapshot st1.
Proof.
  unfold afterTry. cbn [queue withInProgress].
  destruct (queue st1); repeat split.
Qed.

Lemma numbered_weak m :
  numbered m ->
  match frame m with Some f => 1 <= batchNumber f | None => True end.
Proof. unfold numbered. destruct (frame m); [lia|auto]. Qed.

Lemma book_step E m ev :
  booked (state m) ->
  match frame m with Some f => 1 <= batchNumber f | None => True end ->
  booked (state (step E m ev))
  /\ match frame (step E m ev) with
     | Some f => 1 <= batchNumber f
     | None => True
     end.
Proof.
  intros Hb Hf.
  destruct ev as [|events| |caps]; simpl.
  - unfold startProcessing_call.
    destruct (ps_status (status (state m))); simpl;
      try (split; [exact Hb|exact Hf]);
      (split; [split; reflexivity|exact Hf]).
  - unfold startProcessing_loaded.
    destruct (reading m); [|now split].
    destruct (readFirstNRecords events (RECORD_LIMIT E)) as [|rs|e];
      [now split| |].
    + match goal with
      | |- context [runBatch_enter E ?M] =>
          destruct (runBatch_enter_book E M) as (R & B & _ & K & S & F);
          set (m1 := M) in *
      end.
      split.
      * apply (booked_same (state m)); assumption.
      * destruct F as [F|(f & F & N)]; rewrite F; [exact Hf|lia].
    + simpl. split; [exact Hb|exact Hf].
  - unfold timerTick.
    destruct (batchTimer (state m)); [|now split].
    destruct (batchInProgress (state m)); simpl; [now split|].
    destruct (ps_status (status (state m))); try (now split).
    destruct (runBatch_enter_book E m) as (R & B & _ & K & S & F).
    split.
    + apply (booked_same (state m)); assumption.
    + destruct F as [F|(f & F & N)]; rewrite F; [exact Hf|lia].
  - destruct (frame m) as [f|] eqn:Hfr.
    + destruct (pipeline caps (batchNumber f) (batch f) (state m))
        as [out|e] eqn:Hp.
      * rewrite (runBatch_resume_succeeded E caps m f out Hfr Hp).
        simpl state. simpl frame. split; [|exact I].
        destruct (afterTry_book E (batchSucceeded E f out (state m)))
          as (R & B & K & S).
        unfold booked. rewrite R, B, K, S. simpl. auto.
      * rewrite (runBatch_resume_failed E caps m f e Hfr Hp).
        simpl state. simpl frame. split; [|exact I].
        destruct (afterTry_book E (batchFailed (state m))) as (R & B & K & S).
        apply (booked_same (state m)); assumption.
    + unfold runBatch_resume. rewrite Hfr. split; [exact Hb|].
      now rewrite Hfr.
Qed.

(** X13. In every state the process can reach, [results] in the status is
    the length of the knowledge-update log getUpdates returns, and the
    latest snapshot is the one of the last batch that went through: its
    batch number is [batches]; there is no snapshot exactly as long as
    [batches] is 0. *)
Theorem status_counts_match_the_store :
  forall (E : Env) (evs : list Event),
    let st := state (exec E evs initialMachine) in
    results (getStatus st) = length (iu_knowledgeUpdates (getUpdates st))
    /\ match getLatestAgentRuns st with
       | Some s => snap_batchNumber s = batches (getStatus st)
                   /\ 1 <= batches (getStatus st)
       | None => batches (getStatus st) = 0
       end.
Proof.
  intros E evs. cbv zeta.
  assert (G : forall m,
             booked (state m) ->
             match frame m with Some f => 1 <= batchNumber f | None => True end ->
             booked (state (exec E evs m))).
  { induction evs as [|ev evs IH]; intros m Hb Hf; [exact Hb|].
    destruct (book_step E m ev Hb Hf) as [Hb' Hf'].
    exact (IH _ Hb' Hf'). }
  apply (G initialMachine); [split; reflexivity|exact I].
Qed.

Lemma numbered_step E m ev :
  inRun ev = true -> numbered m -> numbered (step E m ev).
Proof.
  intros Hev Hn. destruct ev as [|events| |caps]; try discriminate; simpl.
  - unfold timerTick.
    destruct (batchTimer (state m)); [|exact Hn].
    destruct (batchInProgress (state m)); simpl; [exact Hn|].
    destruct (ps_status (status (state m))); try exact Hn.
    destruct (runBatch_enter_book E m) as (_ & B & _ & _ & _ & F).
    unfold numbered in *. rewrite B.
    destruct F as [F|(f & F & N)]; rewrite F; [exact Hn|exact N].
  - unfold numbered, runBatch_resume.
    destruct (frame m) as [f|] eqn:Hf; [exact I|]. now rewrite Hf.
Qed.

Lemma closed_step E m ev :
  inRun ev = true -> numbered m ->
  batches (status (state (step E m ev)))
  = batches (status (state m)) + length (filter (fun b => b) (closedBy m ev))
  /\ errors (status (state (step E m ev)))
     = errors (status (state m)) + length (filter negb (closedBy m ev)).
Proof.
  intros Hev Hn. destruct ev as [|events| |caps]; try discriminate.
  - simpl step. unfold closedBy. simpl. rewrite !Nat.add_0_r.
    unfold timerTick.
    destruct (batchTimer (state m)); [|now split].
    destruct (batchInProgress (state m)); simpl; [now split|].
    destruct (ps_status (status (state m))); try (now split).
    destruct (runBatch_enter_book E m) as (_ & B & Er & _).
    now split.
  - simpl step. unfold closedBy. unfold numbered in Hn.
    destruct (frame m) as [f|] eqn:Hf.
    + destruct (pipeline caps (batchNumber f) (batch f) (state m))
        as [out|e] eqn:Hp.
      * rewrite (runBatch_resume_succeeded E caps m f out Hf Hp). simpl state.
        destruct (afterTry_fields E (batchSucceeded E f out (state m)))
          as (_ & _ & _ & _ & Aer & Ab & _).
        destruct (batchSucceeded_fields E f out (state m))
          as (_ & _ & _ & Ber & Bb & _).
        rewrite Ab, Aer, Bb, Ber, Hn. simpl. split; lia.
      * rewrite (runBatch_resume_failed E caps m f e Hf Hp). simpl state.
        destruct (afterTry_fields E (batchFailed (state m)))
          as (_ & _ & _ & _ & Aer & Ab & _).
        destruct (batchFailed_fields (state m))
          as (_ & _ & _ & Ber & Bb & _).
        rewrite Ab, Aer, Bb, Ber. simpl. split; lia.
    + unfold runBatch_resume. rewrite Hf. simpl. split; lia.
Qed.

Lemma closed_exec E evs :
  forallb inRun evs = true ->
  forall m, numbered m ->
    batches (status (state (exec E evs m)))
    = batches (status (state m))
      + length (filter (fun b => b) (batchesClosed E evs m))
    /\ errors (status (state (exec E evs m)))
       = errors (status (state m))
         + length (filter negb (batchesClosed E evs m)).
Proof.
  induction evs as [|ev evs IH]; intros Hall m Hn.
  - simpl. split; lia.
  - simpl in Hall. apply andb_prop in Hall as [Hev Hall].
    change (exec E (ev :: evs) m) with (exec E evs (step E m ev)).
    change (batchesClosed E (ev :: evs) m)
      with (closedBy m ev ++ batchesClosed E evs (step E m ev)).
    rewrite !filter_app, !length_app.
    destruct (IH Hall (step E m ev) (numbered_step E m ev Hev Hn)) as [Hb He].
    destruct (closed_step E m ev Hev Hn) as [Sb Se].
    rewrite Hb, He, Sb, Se. split; lia.
Qed.

(** X14. At every point of a run, [batches] is the number of batches of
    the run that went through and [errors] the number of batches that
    threw: together they count the batches the run has closed. *)
Theorem batches_and_errors_count_closed_batches :
  forall (E : Env) (m0 : Machine) (events : list StreamEvent)
         (evs : list Event),
    atRest m0 ->
    forallb inRun evs = true ->
    let run := EvStart :: EvLoaded events :: evs in
    let s := status (state (exec E run m0)) in
    batches s = length (filter (fun b => b) (batchesClosed E run m0))
    /\ errors s = length (filter negb (batchesClosed E run m0))
    /\ batches s + errors s = length (batchesClosed E run m0).
Proof.
  intros E m0 events evs Hrest Hall. cbv zeta.
  destruct (started_machine E m0 Hrest)
    as (Srd & Sf & Sin & Sph & Sq & Spr & Ser & Sb & _).
  pose proof Hrest as (_ & Hf0 & _).
  set (m1 := fst (startProcessing_call E m0)) in *.
  set (m2 := startProcessing_loaded E events m1).
  assert (Hclosed : batchesClosed E (EvStart :: EvLoaded events :: evs) m0
                    = batchesClosed E evs m2).
  { change (batchesClosed E (EvStart :: EvLoaded events :: evs) m0)
      with (closedBy m0 EvStart ++ closedBy m1 (EvLoaded events)
            ++ batchesClosed E evs m2).
    reflexivity. }
  change (exec E (EvStart :: EvLoaded events :: evs) m0) with (exec E evs m2).
  rewrite Hclosed.
  assert (H2 : numbered m2 /\ batches (status (state m2)) = 0
               /\ errors (status (state m2)) = 0).
  { unfold m2, startProcessing_loaded. rewrite Srd.
    destruct (readFirstNRecords events (RECORD_LIMIT E)) as [|rs|e].
    - unfold numbered. rewrite Sf. auto.
    - match goal with
      | |- context [runBatch_enter E ?M] =>
          destruct (runBatch_enter_book E M) as (_ & B & Er & _ & _ & F);
          set (m1' := M) in *
      end.
      unfold numbered. rewrite B, Er.
      change (batches (status (state m1'))) with (batches (status (state m1))) in *.
      change (errors (status (state m1'))) with (errors (status (state m1))).
      split; [|split; assumption].
      destruct F as [F|(f & F & N)]; rewrite F.
      + change (frame m1') with (frame m1). now rewrite Sf.
      + exact N.
    - unfold numbered. simpl. rewrite Sf. auto. }
  destruct H2 as (Hn & Hb0 & He0).
  destruct (closed_exec E evs Hall m2 Hn) as [Hb He].
  rewrite Hb, He, Hb0, He0. simpl.
  split; [reflexivity|]. split; [reflexivity|].
  generalize (batchesClosed E evs m2). intros l.
  induction l as [|[] l IH]; simpl; lia.
Qed.

Lemma batches_and_errors_count_closed_batches_witness :
  atRest initialMachine
  /\ forallb inRun [EvBatchDone (sampleCaps noStages); EvTick;
                    EvBatchDone failingCaps] = true
  /\ (let run := EvStart :: EvLoaded (sourceOf (sampleRecords 23))
                   :: [EvBatchDone (sampleCaps noStages); EvTick;
                       EvBatchDone failingCaps] in
      let s := status (state (exec sampleEnv run initialMachine)) in
      batches s
      = length (filter (fun b => b) (batchesClosed sampleEnv run initialMachine))
      /\ errors s
         = length (filter negb (batchesClosed sampleEnv run initialMachine))
      /\ batches s + errors s
         = length (batchesClosed sampleEnv run initialMachine)).
Proof.
  assert (Hrest : atRest initialMachine)
    by (split; [discriminate|split; reflexivity]).
  split; [exact Hrest|]. split; [reflexivity|].
  exact (batches_and_errors_count_closed_batches sampleEnv initialMachine
           (sourceOf (sampleRecords 23))
           [EvBatchDone (sampleCaps noStages); EvTick; EvBatchDone failingCaps]
           Hrest eq_refl).
Defined.

(* ------------------------------------------------------------------ *)
(** ** Draining the queue *)

(** Where the records are once they are loaded: the first slice in the
    batch in flight, the rest in the queue. *)
Lemma loaded_records E m0 events rs :
  atRest m0 ->
  readFirstNRecords events (RECORD_LIMIT E) = Resolved rs ->
  let m2 := exec E [EvStart; EvLoaded events] m0 in
  queue (state m2) = snd (splice0 (BATCH_SIZE E) rs)
  /\ processed (status (state m2)) = 0
  /\ (forall f, frame m2 = Some f ->
        batch f = fst (splice0 (BATCH_SIZE E) rs)).
Proof.
  intros Hrest Hread. cbv zeta.
  destruct (started_machine E m0 Hrest)
    as (Srd & Sf & Sin & Sph & Sq & Spr & _).
  change (exec E [EvStart; EvLoaded events] m0)
    with (startProcessing_loaded E events (fst (startProcessing_call E m0))).
  set (m1 := fst (startProcessing_call E m0)) in *.
  unfold startProcessing_loaded. rewrite Srd, Hread.
  match goal with
  | |- context [runBatch_enter E ?M] => set (m1' := M)
  end.
  assert (Hq' : queue (state m1') = rs) by reflexivity.
  assert (Hfree : batchInProgress (state m1') = false) by exact Sin.
  destruct rs as [|r q].
  - rewrite runBatch_enter_empty by assumption. simpl.
    unfold splice0. cbn [snd]. rewrite ?skipn_nil.
    split; [reflexivity|]. split; [exact Spr|].
    intros f Hf. rewrite Sf in Hf. discriminate.
  - destruct (runBatch_enter_batch E m1' r q Hfree Hq')
      as (Ef & Eq & _ & Epr & _).
    rewrite Eq, Epr, Ef, Hq'. split; [reflexivity|]. split; [exact Spr|].
    intros f Hf. injection Hf as <-. reflexivity.
Qed.

Lemma rounds_inRun cs : forallb inRun (rounds cs) = true.
Proof. induction cs as [|c cs IH]; [reflexivity|exact IH]. Qed.

Lemma resume_any E caps m f :
  wellFormed m -> frame m = Some f ->
  let m' := runBatch_resume E caps m in
  wellFormed m' /\ frame m' = None /\ queue (state m') = queue (state m)
  /\ (processed (status (state m')) = processed (status (state m))
      \/ processed (status (state m'))
         = processed (status (state m)) + length (batch f)).
Proof.
  intros Hwf Hf. cbv zeta.
  pose proof (wellFormed_resume E caps m Hwf) as Hwf'.
  split; [exact Hwf'|]. clear Hwf'.
  destruct (pipeline caps (batchNumber f) (batch f) (state m)) as [out|e] eqn:Hp.
  - rewrite (runBatch_resume_succeeded E caps m f out Hf Hp).
    destruct (afterTry_fields E (batchSucceeded E f out (state m)))
      as (Aq & _ & _ & Apr & _).
    destruct (batchSucceeded_fields E f out (state m)) as (Bq & _ & Bpr & _).
    simpl state. simpl frame. split; [reflexivity|]. split; [congruence|].
    right. congruence.
  - rewrite (runBatch_resume_failed E caps m f e Hf Hp).
    destruct (afterTry_fields E (batchFailed (state m)))
      as (Aq & _ & _ & Apr & _).
    destruct (batchFailed_fields (state m)) as (Bq & _ & Bpr & _).
    simpl state. simpl frame. split; [reflexivity|]. split; [congruence|].
    left. congruence.
Qed.

Lemma round_any E caps m r q :
  wellFormed m -> frame m = None -> queue (state m) = r :: q ->
  let m' := exec E [EvTick; EvBatchDone caps] m in
  wellFormed m' /\ frame m' = None
  /\ queue (state m') = snd (splice0 (BATCH_SIZE E) (r :: q)).
Proof.
  intros Hwf Hf Hq. cbv zeta.
  destruct (tick_starts E m r q Hwf Hf Hq) as (Htick & Hin).
  destruct (runBatch_enter_batch E m r q Hin Hq) as (Ef & Eq & _).
  pose proof (wellFormed_tick E m Hwf) as Hwf1.
  change (exec E [EvTick; EvBatchDone caps] m)
    with (runBatch_resume E caps (timerTick E m)).
  rewrite Htick in *.
  destruct (resume_any E caps (runBatch_enter E m) _ Hwf1 Ef)
    as (Hwf2 & Rf & Rq & _).
  split; [exact Hwf2|]. split; [exact Rf|]. now rewrite Rq, Eq, Hq.
Qed.

Lemma completed_stays E evs m :
  forallb inRun evs = true ->
  wellFormed m -> frame m = None -> queue (state m) = [] ->
  exec E evs m = m.
Proof.
  intros Hall (_ & _ & Hfr) Hf Hq. rewrite Hf in Hfr.
  destruct Hfr as (_ & [(_ & _ & Htimer)|(_ & Hne & _)]); [|contradiction].
  now apply rejected_run_is_over.
Qed.

(** What [splice] takes is the smaller of a fixed count and the length,
    or everything. *)
Lemma deleteCount_cap x :
  atLeast x 1 ->
  (exists k, 1 <= k /\ forall len, deleteCount x len = Nat.min k len)
  \/ (forall len, deleteCount x len = len).
Proof.
  destruct x as [q| |]; cbn [atLeast]; intros Hq; [|now right|contradiction].
  left. exists (Z.to_nat (Z.max 0 (truncate q))). split; [|reflexivity].
  pose proof (deleteCount_atLeast (Finite q) 1 Hq Nat.lt_0_1) as H.
  cbn [deleteCount] in H. lia.
Qed.

Lemma rounds_drain E cs :
  atLeast (BATCH_SIZE E) 1 ->
  forall m,
    wellFormed m -> frame m = None ->
    length (queue (state m))
    <= length cs * deleteCount (BATCH_SIZE E) (length (queue (state m))) ->
    let m' := exec E (rounds cs) m in
    wellFormed m' /\ frame m' = None /\ queue (state m') = [].
Proof.
  intros Hk. induction cs as [|c cs IH]; intros m Hwf Hf Hlen; cbv zeta.
  - cbn [length rounds flat_map exec fold_left] in *.
    destruct (queue (state m)) eqn:Hq; [auto|cbn [length] in Hlen; lia].
  - destruct (queue (state m)) as [|r q] eqn:Hq.
    + rewrite (completed_stays E _ m (rounds_inRun (c :: cs)) Hwf Hf Hq). auto.
    + change (rounds (c :: cs)) with ([EvTick; EvBatchDone c] ++ rounds cs).
      rewrite exec_app.
      destruct (round_any E c m r q Hwf Hf Hq) as (Hwf1 & Hf1 & Hq1).
      apply IH; try assumption.
      pose proof (length_splice0 (BATCH_SIZE E) (r :: q)) as Hsum.
      rewrite length_fst_splice0 in Hsum. rewrite Hq1.
      set (len := length (r :: q)) in *.
      set (len' := length (snd (splice0 (BATCH_SIZE E) (r :: q)))) in *.
      change (length cs + 0) with (length cs) in *.
      cbn [length] in Hlen. rewrite Nat.mul_succ_l in Hlen.
      destruct (deleteCount_cap (BATCH_SIZE E) Hk) as [(k & Hk1 & Hd)|Hd].
      * rewrite Hd in Hsum, Hlen |- *.
        destruct (Nat.le_gt_cases len k) as [Hle|Hgt].
        { rewrite Nat.min_r in Hsum by exact Hle. lia. }
        rewrite Nat.min_l in Hsum, Hlen by lia.
        destruct (Nat.le_gt_cases k len') as [Hle'|Hgt'].
        { rewrite Nat.min_l by exact Hle'. lia. }
        rewrite Nat.min_r by lia.
        destruct cs as [|c' cs]; cbn [length] in *; [lia|].
        rewrite Nat.mul_succ_l. lia.
      * rewrite Hd in Hsum. lia.
Qed.

(** X15. With a batch size of at least 1 a loaded run always drains,
    whether its batches succeed or fail: from any point of the run, once
    the batch in flight (if any) is closed and as many ticks have fired,
    each followed by the answers of its batch, as it takes to cover the
    queue in the slices [splice(0, BATCH_SIZE)] cuts from it, the queue is
    empty, no batch is in flight, the phase is [completed] and the timer
    is stopped. *)
Theorem positive_batch_size_drains_the_queue :
  forall (E : Env) (m : Machine) (c0 : Capabilities) (cs : list Capabilities),
    wellFormed m ->
    atLeast (BATCH_SIZE E) 1 ->
    length (queue (state m))
    <= length cs * deleteCount (BATCH_SIZE E) (length (queue (state m))) ->
    let m' := exec E (EvBatchDone c0 :: rounds cs) m in
    ps_status (status (state m')) = completed
    /\ queue (state m') = [] /\ queued (status (state m')) = 0
    /\ frame m' = None /\ batchTimer (state m') = false.
Proof.
  intros E m c0 cs Hwf Hk Hlen. cbv zeta.
  change (exec E (EvBatchDone c0 :: rounds cs) m)
    with (exec E (rounds cs) (runBatch_resume E c0 m)).
  assert (H0 : wellFormed (runBatch_resume E c0 m)
               /\ frame (runBatch_resume E c0 m) = None
               /\ queue (state (runBatch_resume E c0 m)) = queue (state m)).
  { destruct (frame m) as [f|] eqn:Hf.
    - destruct (resume_any E c0 m f Hwf Hf) as (H1 & H2 & H3 & _). auto.
    - unfold runBatch_resume. rewrite Hf. auto. }
  destruct H0 as (Hwf0 & Hf0 & Hq0).
  destruct (rounds_drain E cs Hk (runBatch_resume E c0 m) Hwf0 Hf0)
    as (Hwf1 & Hf1 & Hq1); [now rewrite Hq0|].
  destruct (wellFormed_phase _ Hwf1) as (_ & Hdone).
  destruct Hwf1 as (_ & Hqd & Hfr). rewrite Hf1 in Hfr.
  destruct Hfr as (_ & [(_ & _ & Htimer)|(_ & Hne & _)]); [|contradiction].
  repeat split; auto. now rewrite Hqd, Hq1.
Qed.

Lemma positive_batch_size_drains_the_queue_witness :
  wellFormed (sampleRun 23 [])
  /\ atLeast (BATCH_SIZE sampleEnv) 1
  /\ length (queue (state (sampleRun 23 [])))
     <= length [failingCaps; sampleCaps noStages]
        * deleteCount (BATCH_SIZE sampleEnv)
            (length (queue (state (sampleRun 23 []))))
  /\ ps_status
       (status
          (state
             (exec sampleEnv
                (EvBatchDone failingCaps
                   :: rounds [failingCaps; sampleCaps noStages])
                (sampleRun 23 []))))
     = completed.
Proof.
  assert (Hwf : wellFormed (sampleRun 23 [])).
  { unfold wellFormed. vm_compute. repeat split. }
  assert (Hk : atLeast (BATCH_SIZE sampleEnv) 1) by (vm_compute; discriminate).
  assert (Hlen : length (queue (state (sampleRun 23 [])))
                 <= length [failingCaps; sampleCaps noStages]
                    * deleteCount (BATCH_SIZE sampleEnv)
                        (length (queue (state (sampleRun 23 []))))).
  { vm_compute. repeat constructor. }
  split; [exact Hwf|]. split; [exact Hk|]. split; [exact Hlen|].
  exact (proj1 (positive_batch_size_drains_the_queue sampleEnv
                  (sampleRun 23 []) failingCaps
                  [failingCaps; sampleCaps noStages] Hwf Hk Hlen)).
Defined.

(* ------------------------------------------------------------------ *)
(** ** A batch size below 1 *)

Lemma below_weaken x : below x 0 -> below x 1.
Proof.
  destruct x as [q| |]; cbn [below]; auto.
  intros H. eapply Qlt_trans; [exact H|reflexivity].
Qed.

Lemma splice0_below {A : Type} x (l : list A) :
  below x 1 -> splice0 x l = ([], l).
Proof.
  intros H. unfold splice0. now rewrite (deleteCount_below x _ H).
Qed.

Lemma stuck_step E m ev q p :
  below (BATCH_SIZE E) 1 -> inRun ev = true -> q <> [] ->
  wellFormed m /\ queue (state m) = q /\ processed (status (state m)) = p
  /\ (forall f, frame m = Some f -> batch f = []) ->
  let m' := step E m ev in
  wellFormed m' /\ queue (state m') = q /\ processed (status (state m')) = p
  /\ (forall f, frame m' = Some f -> batch f = []).
Proof.
  intros Hneg Hev Hq (Hwf & Hqueue & Hproc & Hbatch). cbv zeta.
  split; [now apply wellFormed_step|].
  destruct ev as [|events| |caps]; try discriminate; cbn [step].
  - unfold timerTick.
    destruct (batchTimer (state m)); [|auto].
    destruct (batchInProgress (state m)) eqn:Hin; cbn [negb]; [auto|].
    destruct (ps_status (status (state m))); auto.
    destruct q as [|r q']; [contradiction|].
    destruct (runBatch_enter_batch E m r q' Hin Hqueue)
      as (Ef & Eq & _ & Epr & _).
    rewrite (splice0_below _ _ Hneg) in Ef, Eq. cbn [fst snd] in Ef, Eq.
    split; [congruence|]. split; [congruence|].
    intros f Hf. rewrite Ef in Hf. injection Hf as <-. reflexivity.
  - destruct (frame m) as [f|] eqn:Hf.
    + destruct (resume_any E caps m f Hwf Hf) as (_ & Rf & Rq & Rpr).
      split; [congruence|]. split.
      * rewrite (Hbatch f eq_refl) in Rpr. cbn [length] in Rpr.
        destruct Rpr as [Rpr|Rpr]; lia.
      * intros f' Hf'. congruence.
    + unfold runBatch_resume. rewrite Hf. repeat split; try assumption.
      intros f' Hf'. congruence.
Qed.

(** A run with a batch size below 1 over a source that is not empty. *)
Lemma stuck_run E m0 events r q evs :
  atRest m0 ->
  readFirstNRecords events (RECORD_LIMIT E) = Resolved (r :: q) ->
  below (BATCH_SIZE E) 1 ->
  forallb inRun evs = true ->
  let m := exec E (EvStart :: EvLoaded events :: evs) m0 in
  ps_status (status (state m)) = running
  /\ queue (state m) = r :: q
  /\ queued (status (state m)) = length (r :: q)
  /\ processed (status (state m)) = 0
  /\ inFlight m = 0.
Proof.
  intros Hrest Hread Hneg Hall. cbv zeta.
  change (exec E (EvStart :: EvLoaded events :: evs) m0)
    with (exec E evs (exec E [EvStart; EvLoaded events] m0)).
  destruct (loaded_machine E m0 events (r :: q) Hrest Hread)
    as (Hwf & Hsum & _).
  destruct (loaded_records E m0 events (r :: q) Hrest Hread)
    as (Hq2 & Hp2 & Hb2).
  set (m2 := exec E [EvStart; EvLoaded events] m0) in *.
  rewrite (splice0_below _ _ Hneg) in Hq2, Hb2. cbn [fst snd] in Hq2, Hb2.
  assert (G : forall evs m,
             forallb inRun evs = true ->
             wellFormed m /\ queue (state m) = r :: q
             /\ processed (status (state m)) = 0
             /\ (forall f, frame m = Some f -> batch f = []) ->
             wellFormed (exec E evs m) /\ queue (state (exec E evs m)) = r :: q
             /\ processed (status (state (exec E evs m))) = 0
             /\ (forall f, frame (exec E evs m) = Some f -> batch f = [])).
  { clear - Hneg. intros evs. induction evs as [|ev evs IH]; intros m Hall H;
      [exact H|].
    cbn [forallb] in Hall. apply andb_prop in Hall as [Hev Hall].
    apply (IH _ Hall).
    apply (stuck_step E m ev (r :: q) 0 Hneg Hev); [discriminate|exact H]. }
  assert (H2 : wellFormed m2 /\ queue (state m2) = r :: q
               /\ processed (status (state m2)) = 0
               /\ (forall f, frame m2 = Some f -> batch f = []))
    by (split; [exact Hwf|split; [exact Hq2|split; [exact Hp2|exact Hb2]]]).
  destruct (G evs m2 Hall H2) as (Hwf' & Hq' & Hp' & Hb').
  destruct Hwf' as (_ & Hqd & Hfr).
  split.
  - destruct (frame (exec E evs m2)) as [f|].
    + now destruct Hfr as (_ & Hrun & _).
    + destruct Hfr as (_ & [(_ & Hempty & _)|(Hrun & _)]); [congruence|exact Hrun].
  - split; [exact Hq'|]. split; [now rewrite Hqd, Hq'|]. split; [exact Hp'|].
    unfold inFlight. destruct (frame (exec E evs m2)) as [f|] eqn:Hf;
      [|reflexivity].
    now rewrite (Hb' f eq_refl).
Qed.

(** X16. BATCH_SIZE set to a negative number is taken as it is, and then a
    run over a non-empty source never ends: every batch is empty, the
    queue keeps all the records it was loaded with, nothing is ever
    counted as processed and the phase stays [running], whatever ticks
    fire and whatever the agents answer. *)
Theorem negative_batch_size_never_completes :
  forall (E : Env) (m0 : Machine) (events : list StreamEvent)
         (r : EmailRecord) (q : list EmailRecord) (evs : list Event),
    atRest m0 ->
    readFirstNRecords events (RECORD_LIMIT E) = Resolved (r :: q) ->
    below (BATCH_SIZE E) 0 ->
    forallb inRun evs = true ->
    let m := exec E (EvStart :: EvLoaded events :: evs) m0 in
    ps_status (status (state m)) = running
    /\ queue (state m) = r :: q
    /\ queued (status (state m)) = length (r :: q)
    /\ processed (status (state m)) = 0
    /\ inFlight m = 0.
Proof.
  intros E m0 events r q evs Hrest Hread Hneg Hall.
  apply stuck_run; try assumption. now apply below_weaken.
Qed.

Lemma negative_batch_size_never_completes_witness :
  atRest initialMachine
  /\ readFirstNRecords (sourceOf [sampleRecord 1; sampleRecord 2])
       (RECORD_LIMIT negativeEnv)
     = Resolved [sampleRecord 1; sampleRecord 2]
  /\ below (BATCH_SIZE negativeEnv) 0
  /\ forallb inRun [EvBatchDone (sampleCaps noStages); EvTick] = true
  /\ ps_status
       (status
          (state
             (exec negativeEnv
                (EvStart :: EvLoaded (sourceOf [sampleRecord 1; sampleRecord 2])
                   :: [EvBatchDone (sampleCaps noStages); EvTick])
                initialMachine)))
     = running.
Proof.
  assert (Hrest : atRest initialMachine)
    by (split; [discriminate|split; reflexivity]).
  assert (Hread : readFirstNRecords (sourceOf [sampleRecord 1; sampleRecord 2])
                    (RECORD_LIMIT negativeEnv)
                  = Resolved [sampleRecord 1; sampleRecord 2])
    by (vm_compute; reflexivity).
  assert (Hneg : below (BATCH_SIZE negativeEnv) 0) by reflexivity.
  split; [exact Hrest|]. split; [exact Hread|]. split; [exact Hneg|].
  split; [reflexivity|].
  exact (proj1 (negative_batch_size_never_completes negativeEnv initialMachine
                  (sourceOf [sampleRecord 1; sampleRecord 2])
                  (sampleRecord 1) [sampleRecord 2]
                  [EvBatchDone (sampleCaps noStages); EvTick]
                  Hrest Hread Hneg eq_refl)).
Defined.

(** X20. A fractional BATCH_SIZE between 0 and 1, such as 0.5, is taken as
    it is too, and [splice] drops the fraction: every batch is empty and a
    run over a non-empty source never ends; the same holds of every batch
    size below 1. *)
Theorem batch_size_below_one_never_completes :
  forall (E : Env) (m0 : Machine) (events : list StreamEvent)
         (r : EmailRecord) (q : list EmailRecord) (evs : list Event),
    atRest m0 ->
    readFirstNRecords events (RECORD_LIMIT E) = Resolved (r :: q) ->
    below (BATCH_SIZE E) 1 ->
    forallb inRun evs = true ->
    let m := exec E (EvStart :: EvLoaded events :: evs) m0 in
    (forall l : list EmailRecord, splice0 (BATCH_SIZE E) l = ([], l))
    /\ ps_status (status (state m)) = running
    /\ queue (state m) = r :: q
    /\ queued (status (state m)) = length (r :: q)
    /\ processed (status (state m)) = 0
    /\ inFlight m = 0.
Proof.
  intros E m0 events r q evs Hrest Hread Hlow Hall.
  split; [intros l; now apply splice0_below|].
  now apply stuck_run.
Qed.

Lemma batch_size_below_one_never_completes_witness :
  atRest initialMachine
  /\ readFirstNRecords (sourceOf [sampleRecord 1; sampleRecord 2])
       (RECORD_LIMIT fractionalEnv)
     = Resolved [sampleRecord 1; sampleRecord 2]
  /\ BATCH_SIZE fractionalEnv = Finite 0.5
  /\ below (BATCH_SIZE fractionalEnv) 1
  /\ forallb inRun [EvBatchDone (sampleCaps noStages); EvTick] = true
  /\ ps_status
       (status
          (state
             (exec fractionalEnv
                (EvStart :: EvLoaded (sourceOf [sampleRecord 1; sampleRecord 2])
                   :: [EvBatchDone (sampleCaps noStages); EvTick])
                initialMachine)))
     = running.
Proof.
  assert (Hrest : atRest initialMachine)
    by (split; [discriminate|split; reflexivity]).
  assert (Hread : readFirstNRecords (sourceOf [sampleRecord 1; sampleRecord 2])
                    (RECORD_LIMIT fractionalEnv)
                  = Resolved [sampleRecord 1; sampleRecord 2])
    by (vm_compute; reflexivity).
  assert (Hlow : below (BATCH_SIZE fractionalEnv) 1) by reflexivity.
  split; [exact Hrest|]. split; [exact Hread|]. split; [reflexivity|].
  split; [exact Hlow|]. split; [reflexivity|].
  exact (proj1 (proj2 (batch_size_below_one_never_completes fractionalEnv
                         initialMachine
                         (sourceOf [sampleRecord 1; sampleRecord 2])
                         (sampleRecord 1) [sampleRecord 2]
                         [EvBatchDone (sampleCaps noStages); EvTick]
                         Hrest Hread Hlow eq_refl))).
Defined.

(* ------------------------------------------------------------------ *)
(** ** Ticks that do nothing *)

(** X17. In every state the process can reach, a tick of the timer that
    fires while a batch is in flight is dropped, and so is a direct call of
    runBatch; a tick that fires while the phase is not [running] (before a
    first run, after a run completed or after a read failed) does nothing
    either.  So at most one batch is ever in flight, and a finished run is
    never resumed by the timer. *)
Theorem ticks_are_dropped_outside_their_turn :
  forall (E : Env) (evs : list Event),
    let m := exec E evs initialMachine in
    match frame m with
    | Some _ => timerTick E m = m /\ runBatch_enter E m = m
    | None => True
    end
    /\ match ps_status (status (state m)) with
       | running => True
       | _ => timerTick E m = m
       end.
Proof.
  intros E evs. cbv zeta.
  pose proof (reachable_coherent E evs) as Hco.
  set (m := exec E evs initialMachine) in *.
  split.
  - destruct (frame m) as [f|] eqn:Hf; [|exact I].
    pose proof (coherent_in_flight m f Hco Hf) as (_ & _ & Hfr).
    rewrite Hf in Hfr. destruct Hfr as (Hin & _).
    unfold timerTick, runBatch_enter. rewrite Hin.
    split; [|reflexivity]. now destruct (batchTimer (state m)).
  - unfold timerTick.
    destruct (ps_status (status (state m))); try exact I;
      destruct (batchTimer (state m)); try reflexivity;
      destruct (batchInProgress (state m)); reflexivity.
Qed.

(* ------------------------------------------------------------------ *)
(** ** Starting a run *)

Lemma startProcessing_call_atRest E m0 :
  atRest m0 ->
  startProcessing_call E m0 = (fst (startProcessing_call E m0), None)
  /\ sameStore initialState (state (fst (startProcessing_call E m0)))
  /\ latestAgentSnapshot (state (fst (startProcessing_call E m0))) = None
  /\ results (status (state (fst (startProcessing_call E m0)))) = 0
  /\ lastBatchAt (status (state (fst (startProcessing_call E m0)))) = None
  /\ completedAt (status (state (fst (startProcessing_call E m0)))) = None
  /\ message (status (state (fst (startProcessing_call E m0)))) = None
  /\ startedAt (status (state (fst (startProcessing_call E m0))))
     = Some (clock E (clockReads (state m0))).
Proof.
  intros (Hph & _). unfold startProcessing_call.
  destruct (ps_status (status (state m0))); try contradiction;
    simpl; repeat split.
Qed.

Lemma loaded_frame_exists E m0 events r q :
  atRest m0 ->
  readFirstNRecords events (RECORD_LIMIT E) = Resolved (r :: q) ->
  exists f, frame (exec E [EvStart; EvLoaded events] m0) = Some f.
Proof.
  intros Hrest Hread.
  destruct (started_machine E m0 Hrest) as (Srd & Sf & Sin & _).
  change (exec E [EvStart; EvLoaded events] m0)
    with (startProcessing_loaded E events (fst (startProcessing_call E m0))).
  set (m1 := fst (startProcessing_call E m0)) in *.
  unfold startProcessing_loaded. rewrite Srd, Hread.
  match goal with
  | |- context [runBatch_enter E ?M] => set (m1' := M)
  end.
  assert (Hq' : queue (state m1') = r :: q) by reflexivity.
  assert (Hfree : batchInProgress (state m1') = false) by exact Sin.
  destruct (runBatch_enter_batch E m1' r q Hfree Hq') as (Ef & _).
  eexists. exact Ef.
Qed.

(** X18. A run can be started from every state the process can reach in
    which no run is going (before a first run, after a completed run,
    after a failed read), and it starts from scratch: once the records are
    loaded the people index, the topic index, the conflicts, the three
    logs, the recommendations and the snapshot are empty, the counters are
    zero, and the loaded records are, in source order, the batch in flight
    followed by the queue. *)
Theorem a_new_run_starts_from_scratch :
  forall (E : Env) (pre : list Event) (events : list StreamEvent)
         (rs : list EmailRecord),
    let m0 := exec E pre initialMachine in
    ps_status (status (state m0)) <> running ->
    readFirstNRecords events (RECORD_LIMIT E) = Resolved rs ->
    let m := exec E [EvStart; EvLoaded events] m0 in
    let st := state m in
    wellFormed m
    /\ (getPeople st = [] /\ getTopics st = [] /\ getConflicts st = []
        /\ getUpdates st
           = {| iu_knowledgeUpdates := []; iu_decisions := [];
                iu_recommendations := None; iu_informationFlow := [] |}
        /\ getLatestAgentRuns st = None)
    /\ (processed (getStatus st) = 0 /\ errors (getStatus st) = 0
        /\ batches (getStatus st) = 0 /\ results (getStatus st) = 0)
    /\ match frame m with
       | Some f => batch f ++ queue st
       | None => queue st
       end = rs.
Proof.
  intros E pre events rs m0 Hph Hread m st.
  assert (Hrest : atRest m0)
    by (apply coherent_atRest; [apply reachable_coherent|exact Hph]).
  destruct (loaded_machine E m0 events rs Hrest Hread)
    as (Hwf & _ & Her & Hb & _).
  destruct (loaded_records E m0 events rs Hrest Hread) as (Hq & Hpr & Hbatch).
  fold m in Hwf, Her, Hb, Hq, Hpr, Hbatch. fold st in Her, Hb, Hq, Hpr.
  destruct (startProcessing_call_atRest E m0 Hrest)
    as (_ & Hstore & Hsnap & Hres & _).
  destruct (started_machine E m0 Hrest) as (Srd & _).
  assert (Hm : sameStore initialState st
               /\ latestAgentSnapshot st = None
               /\ results (status st) = 0).
  { unfold st, m.
    change (exec E [EvStart; EvLoaded events] m0)
      with (startProcessing_loaded E events (fst (startProcessing_call E m0))).
    set (m1 := fst (startProcessing_call E m0)) in *.
    unfold startProcessing_loaded. rewrite Srd, Hread.
    match goal with
    | |- context [runBatch_enter E ?M] =>
        destruct (runBatch_enter_store E M) as (P & T & C & K & D & F & R);
        destruct (runBatch_enter_book E M) as (Rs & _ & _ & _ & Sn & _);
        set (m1' := M) in *
    end.
    destruct Hstore as (P0 & T0 & C0 & K0 & D0 & F0 & R0).
    simpl in P, T, C, K, D, F, R, Rs, Sn.
    split; [repeat split; congruence|]. split; congruence. }
  destruct Hm as ((P & T & C & K & D & F & R) & Hsn & Hrs).
  split; [exact Hwf|]. split; [|split].
  - unfold getPeople, getTopics, getConflicts, getUpdates, getLatestAgentRuns.
    rewrite <- P, <- T, <- C, <- K, <- D, <- F, <- R, Hsn. repeat split.
  - unfold getStatus. repeat split; assumption.
  - destruct (frame m) as [f|] eqn:Hf.
    + rewrite (Hbatch f eq_refl), Hq. apply splice0_app.
    + rewrite Hq. destruct rs as [|r q].
      * unfold splice0. cbn [snd]. apply skipn_nil.
      * exfalso.
        destruct (loaded_frame_exists E m0 events r q Hrest Hread) as [f Hsome].
        fold m in Hsome. congruence.
Qed.

(* ------------------------------------------------------------------ *)
(** ** A read that fails *)

Lemma error_phase_is_stuck E evs :
  forall m, ps_status (status (state m)) = error -> frame m = None ->
            forallb inRun evs = true -> exec E evs m = m.
Proof.
  induction evs as [|ev evs IH]; intros m Hph Hf Hall; [reflexivity|].
  cbn [forallb] in Hall. apply andb_true_iff in Hall as (Hev & Hall).
  assert (Hstep : step E m ev = m).
  { destruct ev; try discriminate; cbn [step].
    - unfold timerTick. rewrite Hph.
      destruct (batchTimer (state m)); [|reflexivity].
      now destruct (negb (batchInProgress (state m))).
    - unfold runBatch_resume. now rewrite Hf. }
  change (exec E (ev :: evs) m) with (exec E evs (step E m ev)).
  rewrite Hstep. now apply IH.
Qed.

Lemma rejected_machine E m1 events e :
  reading m1 = true ->
  readFirstNRecords events (RECORD_LIMIT E) = Rejected e ->
  let m := startProcessing_loaded E events m1 in
  reading m = false /\ frame m = frame m1
  /\ ps_status (status (state m)) = error
  /\ message (status (state m)) = Some e
  /\ errors (status (state m)) = errors (status (state m1))
  /\ queued (status (state m)) = queued (status (state m1))
  /\ processed (status (state m)) = processed (status (state m1))
  /\ batches (status (state m)) = batches (status (state m1))
  /\ queue (state m) = queue (state m1)
  /\ batchTimer (state m) = false
  /\ batchInProgress (state m) = batchInProgress (state m1).
Proof.
  intros Hrd Hread. cbv zeta. unfold startProcessing_loaded.
  rewrite Hrd, Hread. repeat split.
Qed.

(** X19. When startProcessing is called in a reachable state with no run
    going and the read of the CSV fails with message e, the call returns
    the status of the process, whose phase is [error] and whose message is
    e; no error is counted and nothing is queued or processed; the timer
    is stopped and no batch is in flight.  From then on no tick and no
    answer of an agent changes anything: only a new start leaves the
    error phase. *)
Theorem failed_read_ends_in_error_phase :
  forall (E : Env) (pre : list Event) (events : list StreamEvent)
         (caps : Capabilities) (e : string),
    let m0 := exec E pre initialMachine in
    ps_status (status (state m0)) <> running ->
    readFirstNRecords events (RECORD_LIMIT E) = Rejected e ->
    let m := fst (startProcessing E events caps m0) in
    snd (startProcessing E events caps m0) = Some (status (state m))
    /\ ps_status (status (state m)) = error
    /\ message (status (state m)) = Some e
    /\ (errors (status (state m)) = 0 /\ queued (status (state m)) = 0
        /\ processed (status (state m)) = 0 /\ batches (status (state m)) = 0)
    /\ queue (state m) = []
    /\ batchTimer (state m) = false
    /\ atRest m
    /\ (forall evs, forallb inRun evs = true -> exec E evs m = m).
Proof.
  intros E pre events caps e m0 Hph Hread.
  assert (Hrest : atRest m0)
    by (apply coherent_atRest; [apply reachable_coherent|exact Hph]).
  destruct (started_machine E m0 Hrest)
    as (Srd & Sf & Sin & Sph & Sq & Spr & Ser & Sb & _).
  destruct (startProcessing_call_atRest E m0 Hrest) as (Hcall & _).
  assert (Hqd : queued (status (state (fst (startProcessing_call E m0)))) = 0).
  { destruct Hrest as (Hp & _). unfold startProcessing_call.
    destruct (ps_status (status (state m0))); try contradiction; reflexivity. }
  unfold startProcessing. rewrite Hcall.
  set (m1 := fst (startProcessing_call E m0)) in *.
  destruct (rejected_machine E m1 events e Srd Hread)
    as (Rrd & Rf & Rph & Rmsg & Rer & Rqd & Rpr & Rb & Rq & Rtm & Rin).
  set (m2 := startProcessing_loaded E events m1) in *.
  cbv zeta. rewrite Rrd.
  assert (Hres : runBatch_resume E caps m2 = m2).
  { unfold runBatch_resume. now rewrite Rf, Sf. }
  rewrite Hres. cbn [fst snd]. unfold getStatus.
  split; [reflexivity|]. split; [exact Rph|]. split; [exact Rmsg|].
  split; [repeat split; congruence|].
  split; [congruence|]. split; [exact Rtm|].
  split; [split; [rewrite Rph; discriminate|split; congruence]|].
  intros evs Hall. apply error_phase_is_stuck; [exact Rph|congruence|exact Hall].
Qed.

Lemma failed_read_ends_in_error_phase_witness :
  ps_status (status (state (exec sampleEnv [] initialMachine))) <> running
  /\ readFirstNRecords [ParserData (Some "mail/1") (Some "hello");
                        StreamError "ENOENT"] (RECORD_LIMIT sampleEnv)
     = Rejected "ENOENT"
  /\ ps_status
       (status
          (state
             (fst (startProcessing sampleEnv
                     [ParserData (Some "mail/1") (Some "hello");
                      StreamError "ENOENT"]
                     (sampleCaps allStages)
                     (exec sampleEnv [] initialMachine)))))
     = error.
Proof.
  assert (Hph : ps_status (status (state (exec sampleEnv [] initialMachine)))
                <> running) by discriminate.
  assert (Hread : readFirstNRecords
                    [ParserData (Some "mail/1") (Some "hello");
                     StreamError "ENOENT"] (RECORD_LIMIT sampleEnv)
                  = Rejected "ENOENT") by (vm_compute; reflexivity).
  split; [exact Hph|]. split; [exact Hread|].
  exact (proj1 (proj2 (failed_read_ends_in_error_phase sampleEnv []
                         [ParserData (Some "mail/1") (Some "hello");
                          StreamError "ENOENT"]
                         (sampleCaps allStages) "ENOENT" Hph Hread))).
Defined.

Lemma a_new_run_starts_from_scratch_witness :
  ps_status
    (status
       (state
          (exec sampleEnv
             [EvStart; EvLoaded [StreamError "ENOENT"]] initialMachine)))
  <> running
  /\ readFirstNRecords (sourceOf [sampleRecord 1; sampleRecord 2])
       (RECORD_LIMIT sampleEnv)
     = Resolved [sampleRecord 1; sampleRecord 2]
  /\ wellFormed
       (exec sampleEnv
          [EvStart; EvLoaded (sourceOf [sampleRecord 1; sampleRecord 2])]
          (exec sampleEnv
             [EvStart; EvLoaded [StreamError "ENOENT"]] initialMachine)).
Proof.
  assert (Hph : ps_status
                  (status
                     (state
                        (exec sampleEnv
                           [EvStart; EvLoaded [StreamError "ENOENT"]]
                           initialMachine)))
                <> running) by (vm_compute; discriminate).
  assert (Hread : readFirstNRecords (sourceOf [sampleRecord 1; sampleRecord 2])
                    (RECORD_LIMIT sampleEnv)
                  = Resolved [sampleRecord 1; sampleRecord 2])
    by (vm_compute; reflexivity).
  split; [exact Hph|]. split; [exact Hread|].
  exact (proj1 (a_new_run_starts_from_scratch sampleEnv
                  [EvStart; EvLoaded [StreamError "ENOENT"]]
                  (sourceOf [sampleRecord 1; sampleRecord 2])
                  [sampleRecord 1; sampleRecord 2] Hph Hread)).
Defined.
